(** * A movie catalog service: routes/movies.py and schemas/movies.py

    The request handlers of [src/routes/movies.py] and the pydantic schemas
    of [src/schemas/movies.py], embedded as functions over an explicit
    database state.  Tables are finite maps from primary keys to rows, the
    SQLAlchemy session is a small state-and-exception monad over a pair of
    committed and pending stores, and Python values are a tagged union. *)

From Stdlib Require Import ZArith Floats.
From stdpp Require Import gmap strings list fin_maps sorting pretty.

Local Open Scope Z_scope.

(** ** Python values

    What a decoded JSON body, an attribute of an ORM object or a dumped
    pydantic model holds.  A [date] is its proleptic Gregorian ordinal
    ([date.toordinal()]); in a request body [VDate d] stands for the ISO
    string pydantic reads as that day, a number bound for a [float] field
    may arrive as [VInt] or [VFloat], and text that pydantic would read as
    a number stands as that number. *)
#[local] Unset Elimination Schemes.
Inductive value :=
  | VNone
  | VInt (n : Z)
  | VFloat (x : float)
  | VStr (s : string)
  | VDate (d : Z)
  | VList (l : list value)
  | VDict (l : list (string * value)).
#[local] Set Elimination Schemes.

(** [float(n)] for a Python int: round to nearest even. *)
Definition float_of_int (n : Z) : float :=
  SF2Prim (binary_normalize prec emax n 0 false).

(** [d[k]] of a dumped model, [None] when the key is missing. *)
Fixpoint dict_get (k : string) (l : list (string * value)) : option value :=
  match l with
  | [] => None
  | (k', v) :: l' => if String.eqb k' k then Some v else dict_get k l'
  end.

Definition value_get (k : string) (v : value) : option value :=
  match v with
  | VDict l => dict_get k l
  | _ => None
  end.

(** ** database.models *)

(** Modelled from the spec: [database.models] is not part of the sources.
    A Country has a code and an optional display name. *)
Module CountryModel.
Record t := mk { code : string; name : option string }.
End CountryModel.

(** Modelled from the spec: [database.models] is not part of the sources.
    A movie row holds its scalar columns as Python values (an attribute of
    an ORM object can be assigned anything, [None] included, before it is
    flushed), the id of its country, and its three many-to-many
    collections as the sets of the ids of the linked rows.  The members of
    a set are the movie's join-table rows: pairs (movie, row), so a row is
    linked once however often it was appended to the collection, and the
    links carry no order. *)
Module MovieModel.
Record t := mk {
  name : value;
  date : value;
  score : value;
  overview : value;
  status : value;
  budget : value;
  revenue : value;
  country_id : nat;
  genres : gset nat;
  actors : gset nat;
  languages : gset nat
}.

(** [setattr(movie, field, value)] for the column attributes; any other
    name lands in the instance dictionary and never reaches the table. *)
Definition setattr (m : t) (field : string) (v : value) : t :=
  if String.eqb field "name" then
    mk v (date m) (score m) (overview m) (status m) (budget m) (revenue m)
       (country_id m) (genres m) (actors m) (languages m)
  else if String.eqb field "date" then
    mk (name m) v (score m) (overview m) (status m) (budget m) (revenue m)
       (country_id m) (genres m) (actors m) (languages m)
  else if String.eqb field "score" then
    mk (name m) (date m) v (overview m) (status m) (budget m) (revenue m)
       (country_id m) (genres m) (actors m) (languages m)
  else if String.eqb field "overview" then
    mk (name m) (date m) (score m) v (status m) (budget m) (revenue m)
       (country_id m) (genres m) (actors m) (languages m)
  else if String.eqb field "status" then
    mk (name m) (date m) (score m) (overview m) v (budget m) (revenue m)
       (country_id m) (genres m) (actors m) (languages m)
  else if String.eqb field "budget" then
    mk (name m) (date m) (score m) (overview m) (status m) v (revenue m)
       (country_id m) (genres m) (actors m) (languages m)
  else if String.eqb field "revenue" then
    mk (name m) (date m) (score m) (overview m) (status m) (budget m) v
       (country_id m) (genres m) (actors m) (languages m)
  else m.
End MovieModel.

(** The five tables, keyed by primary key.  Genre, Actor and Language rows
    have a name and nothing else. *)
Record Store := mkStore {
  movies : gmap nat MovieModel.t;
  countries : gmap nat CountryModel.t;
  genres : gmap nat string;
  actors : gmap nat string;
  languages : gmap nat string
}.

(** The id an autoincrement primary key gives the next row. *)
Definition next_id {A} (table : gmap nat A) : nat :=
  S (max_list (map_to_list table).*1).

(** What the handlers take from outside: the clock, the members of
    [MovieStatusEnum] (declared in [database.models]), whether the
    database accepts the pending rows when they are flushed (its column
    types and constraints are declared there too), [str(date)], and the
    order in which the database returns the rows linked to a movie: the
    eager load has no [order_by], so all that is known of that order is
    that it lists each linked row once. *)
Class Collaborators := {
  today : Z;
  is_status : string → bool;
  store_accepts : Store → bool;
  isoformat : Z → string;
  linked_order : gset nat → list nat;
  linked_order_elements : ∀ ids, linked_order ids ≡ₚ elements ids
}.

(** ** schemas/movies.py *)

(** *** Field types and constraints, as pydantic applies them

    A schema reads its fields from a source: the keys of a request body
    or, with [from_attributes], the attributes of an ORM object (held here
    as a [VDict] of attribute values).  A validator answers [None] where
    pydantic raises [ValidationError]. *)

Definition str_type (v : value) : option string :=
  match v with VStr s => Some s | _ => None end.

Definition int_type (v : value) : option Z :=
  match v with VInt n => Some n | _ => None end.

Definition float_type (v : value) : option float :=
  match v with
  | VFloat x => Some x
  | VInt n => Some (float_of_int n)
  | _ => None
  end.

Definition date_type (v : value) : option Z :=
  match v with VDate d => Some d | _ => None end.

(** A field whose annotation is [NoneType]: [None] and nothing else. *)
Definition none_type (v : value) : option unit :=
  match v with VNone => Some () | _ => None end.

(** A [MovieStatusEnum] field: the member whose value is the given text. *)
Definition enum_type `{Collaborators} (v : value) : option string :=
  match v with
  | VStr s => if is_status s then Some s else None
  | _ => None
  end.

Definition list_type {A} (item : value → option A) (v : value) : option (list A) :=
  match v with VList l => mapM item l | _ => None end.

Definition max_length (n : nat) (s : string) : option string :=
  if (String.length s <=? n)%nat then Some s else None.

Definition ge (bound x : float) : option float :=
  if PrimFloat.leb bound x then Some x else None.

Definition le (bound x : float) : option float :=
  if PrimFloat.leb x bound then Some x else None.

(** A model is read from a mapping or, with [from_attributes], from an
    object; a body that is neither is refused. *)
Definition model_type (src : value) : option unit :=
  match src with VDict _ => Some () | _ => None end.

(** [field: T]: the key must be there. *)
Definition required {A} (src : value) (k : string) (validate : value → option A) : option A :=
  value_get k src ≫= validate.

(** [field: T = Field(default_factory=...)]. *)
Definition defaulted {A} (src : value) (k : string) (default : A)
  (validate : value → option A) : option A :=
  match value_get k src with
  | None => Some default
  | Some v => validate v
  end.

(** [Optional[T]]: [None] is a value of the field, and skips the
    constraints of [T]. *)
Definition optional_type {A} (validate : value → option A) (v : value) : option (option A) :=
  match v with
  | VNone => Some None
  | _ => Some <$> validate v
  end.

(** [field: Optional[T] = None]. *)
Definition optional {A} (src : value) (k : string) (validate : value → option A)
  : option (option A) :=
  defaulted src k None (optional_type validate).

Module MovieBaseSchema.
Record t := mk { name : string; date : Z; score : float; overview : string }.

Section validate.
Context `{Collaborators}.

Definition date_not_too_far (value : Z) : option Z :=
  if value >? today + 365 then None else Some value.

Definition model_validate (src : value) : option t :=
  name ← required src "name" (λ v, str_type v ≫= max_length 255);
  date ← required src "date" (λ v, date_type v ≫= date_not_too_far);
  score ← required src "score" (λ v, x ← float_type v; x ← ge 0 x; le 100 x);
  overview ← required src "overview" str_type;
  Some (mk name date score overview).
End validate.

Definition model_dump (m : t) : list (string * value) :=
  [("name", VStr (name m)); ("date", VDate (date m));
   ("score", VFloat (score m)); ("overview", VStr (overview m))].
End MovieBaseSchema.

Module MovieResponseSchema.
Record t := mk { base : MovieBaseSchema.t; id : Z }.

Definition model_validate `{Collaborators} (src : value) : option t :=
  base ← MovieBaseSchema.model_validate src;
  id ← required src "id" int_type;
  Some (mk base id).

Definition model_dump (m : t) : list (string * value) :=
  MovieBaseSchema.model_dump (base m) ++ [("id", VInt (id m))].
End MovieResponseSchema.

Module MoviesPage.
Record t := mk {
  movies : list MovieResponseSchema.t;
  prev_page : option string;
  next_page : option string;
  total_pages : Z;
  total_items : Z
}.

Definition model_validate `{Collaborators} (src : value) : option t :=
  movies ← required src "movies" (list_type MovieResponseSchema.model_validate);
  prev_page ← required src "prev_page" (optional_type str_type);
  next_page ← required src "next_page" (optional_type str_type);
  total_pages ← required src "total_pages" int_type;
  total_items ← required src "total_items" int_type;
  Some (mk movies prev_page next_page total_pages total_items).
End MoviesPage.

Module MovieCreateSchema.
Record t := mk {
  base : MovieBaseSchema.t;
  status : string;
  budget : float;
  revenue : float;
  country : string;
  genres : list string;
  actors : list string;
  languages : list string
}.

Definition model_validate `{Collaborators} (src : value) : option t :=
  base ← MovieBaseSchema.model_validate src;
  status ← required src "status" enum_type;
  budget ← required src "budget" (λ v, float_type v ≫= ge 0);
  revenue ← required src "revenue" (λ v, float_type v ≫= ge 0);
  country ← required src "country" (λ v, str_type v ≫= max_length 3);
  genres ← defaulted src "genres" [] (list_type str_type);
  actors ← defaulted src "actors" [] (list_type str_type);
  languages ← defaulted src "languages" [] (list_type str_type);
  Some (mk base status budget revenue country genres actors languages).
End MovieCreateSchema.

Module CountryResponse.
Record t := mk { id : Z; code : string; name : option string }.

Definition model_validate (src : value) : option t :=
  id ← required src "id" int_type;
  code ← required src "code" str_type;
  name ← required src "name" (optional_type str_type);
  Some (mk id code name).
End CountryResponse.

Module GenreResponse.
Record t := mk { id : Z; name : string }.

Definition model_validate (src : value) : option t :=
  id ← required src "id" int_type;
  name ← required src "name" str_type;
  Some (mk id name).
End GenreResponse.

Module ActorResponse.
Record t := mk { id : Z; name : string }.

Definition model_validate (src : value) : option t :=
  id ← required src "id" int_type;
  name ← required src "name" str_type;
  Some (mk id name).
End ActorResponse.

Module LanguageResponse.
Record t := mk { id : Z; name : string }.

Definition model_validate (src : value) : option t :=
  id ← required src "id" int_type;
  name ← required src "name" str_type;
  Some (mk id name).
End LanguageResponse.

Module MovieDetailResponseSchema.
Record t := mk {
  base : MovieResponseSchema.t;
  status : string;
  budget : float;
  revenue : float;
  country : CountryResponse.t;
  genres : list GenreResponse.t;
  actors : list ActorResponse.t;
  languages : list LanguageResponse.t
}.

Definition model_validate `{Collaborators} (src : value) : option t :=
  base ← MovieResponseSchema.model_validate src;
  status ← required src "status" enum_type;
  budget ← required src "budget" float_type;
  revenue ← required src "revenue" float_type;
  country ← required src "country" CountryResponse.model_validate;
  genres ← required src "genres" (list_type GenreResponse.model_validate);
  actors ← required src "actors" (list_type ActorResponse.model_validate);
  languages ← required src "languages" (list_type LanguageResponse.model_validate);
  Some (mk base status budget revenue country genres actors languages).
End MovieDetailResponseSchema.

Module MovieUpdateSchema.
(** Every field is [Optional] with default [None]; [model_fields_set]
    records which keys the body really had.  In [date: Optional[date] =
    None] the class body binds [date] to [None] before the annotation is
    evaluated, so the annotation reads [Optional[None]]: the field is of
    type [NoneType], where [MovieBaseSchema], which assigns nothing to
    [date], has the type [datetime.date]. *)
Record t := mk {
  name : option string;
  date : unit;
  score : option float;
  overview : option string;
  status : option string;
  budget : option float;
  revenue : option float;
  model_fields_set : list string
}.

Definition model_fields : list string :=
  ["name"; "date"; "score"; "overview"; "status"; "budget"; "revenue"].

Definition model_validate `{Collaborators} (src : value) : option t :=
  _ ← model_type src;
  name ← optional src "name" str_type;
  date ← defaulted src "date" () none_type;
  score ← optional src "score" (λ v, x ← float_type v; x ← ge 0 x; le 100 x);
  overview ← optional src "overview" str_type;
  status ← optional src "status" enum_type;
  budget ← optional src "budget" (λ v, float_type v ≫= ge 0);
  revenue ← optional src "revenue" (λ v, float_type v ≫= ge 0);
  Some (mk name date score overview status budget revenue
           (filter (λ k, is_Some (value_get k src)) model_fields)).

Definition dump_optional {A} (inj : A → value) (o : option A) : value :=
  from_option inj VNone o.

(** [model_dump(exclude_unset=True)]: the set fields, in declaration
    order. *)
Definition model_dump_exclude_unset (m : t) : list (string * value) :=
  filter (λ kv, kv.1 ∈ model_fields_set m)
    [("name", dump_optional VStr (name m));
     ("date", VNone);
     ("score", dump_optional VFloat (score m));
     ("overview", dump_optional VStr (overview m));
     ("status", dump_optional VStr (status m));
     ("budget", dump_optional VFloat (budget m));
     ("revenue", dump_optional VFloat (revenue m))].
End MovieUpdateSchema.

(** ** The session: pending and committed rows, exceptions *)

Inductive exn :=
  | HTTPException (status_code : Z) (detail : string)
  | MultipleResultsFound
  | DBAPIError
  | InvalidRequestError
  | ValidationError.

Record Session := mkSession { committed : Store; pending : Store }.

(** A handler step: it sees and changes the session, and returns or
    raises. *)
Definition db (A : Type) : Type := Session → Session * (exn + A).

#[global] Instance db_ret : MRet db := λ A a s, (s, inr a).

#[global] Instance db_bind : MBind db := λ A B f m s,
  match m s with
  | (s', inr a) => f a s'
  | (s', inl e) => (s', inl e)
  end.

Definition raise {A} (e : exn) : db A := λ s, (s, inl e).

(** [try: body except Exception: handler]. *)
Definition try_except {A} (body : db A) (handler : db A) : db A := λ s,
  match body s with
  | (s', inl _) => handler s'
  | r => r
  end.

Definition get_pending : db Store := λ s, (s, inr (pending s)).

Definition put_pending (st : Store) : db unit := λ s,
  (mkSession (committed s) st, inr ()).

Section session.
Context `{Collaborators}.

(** [await db.flush()]: the pending rows are written, or the database
    refuses them. *)
Definition flush : db unit := λ s,
  if store_accepts (pending s) then (s, inr ()) else (s, inl DBAPIError).

(** [await db.commit()]: flush, then make the pending rows the committed
    ones. *)
Definition commit : db unit := λ s,
  if store_accepts (pending s)
  then (mkSession (pending s) (pending s), inr ())
  else (s, inl DBAPIError).

End session.

(** [await db.rollback()]. *)
Definition rollback : db unit := λ s,
  (mkSession (committed s) (committed s), inr ()).

(** [await db.execute(select(Model).where(...))]: the matching rows. *)
Definition select_where {A} (table : Store → gmap nat A) (cond : nat → A → bool)
    : db (list (nat * A)) :=
  st ← get_pending;
  mret (filter (λ row, cond row.1 row.2) (map_to_list (table st))).

Definition scalar_one_or_none {A} (rows : list A) : db (option A) :=
  match rows with
  | [] => mret None
  | [row] => mret (Some row)
  | _ => raise MultipleResultsFound
  end.

(** [result.scalars().first()]. *)
Definition scalars_first {A} (rows : list A) : option A := head rows.

Definition with_movies (t : gmap nat MovieModel.t) (st : Store) : Store :=
  mkStore t (countries st) (genres st) (actors st) (languages st).

Definition with_countries (t : gmap nat CountryModel.t) (st : Store) : Store :=
  mkStore (movies st) t (genres st) (actors st) (languages st).

Definition with_genres (t : gmap nat string) (st : Store) : Store :=
  mkStore (movies st) (countries st) t (actors st) (languages st).

Definition with_actors (t : gmap nat string) (st : Store) : Store :=
  mkStore (movies st) (countries st) (genres st) t (languages st).

Definition with_languages (t : gmap nat string) (st : Store) : Store :=
  mkStore (movies st) (countries st) (genres st) (actors st) t.

(** A table of named rows, as the handlers use [GenreModel], [ActorModel]
    and [LanguageModel]. *)
Record NamedModel := mkNamed {
  rows_of : Store → gmap nat string;
  with_rows : gmap nat string → Store → Store
}.

Definition GenreModel : NamedModel := mkNamed genres with_genres.
Definition ActorModel : NamedModel := mkNamed actors with_actors.
Definition LanguageModel : NamedModel := mkNamed languages with_languages.

(** [db.add(obj)] of a new row; its id is the table's next one. *)
Definition add_country (c : CountryModel.t) : db nat :=
  st ← get_pending;
  let id := next_id (countries st) in
  put_pending (with_countries (<[id := c]> (countries st)) st);;
  mret id.

Definition add_named (M : NamedModel) (name : string) : db nat :=
  st ← get_pending;
  let id := next_id (rows_of M st) in
  put_pending (with_rows M (<[id := name]> (rows_of M st)) st);;
  mret id.

Definition add_movie (m : MovieModel.t) : db nat :=
  st ← get_pending;
  let id := next_id (movies st) in
  put_pending (with_movies (<[id := m]> (movies st)) st);;
  mret id.

(** [await db.delete(movie)]: the row goes, and its collections with it.
    Modelled from the spec: the relationships declared in [database.models]
    carry no cascade towards the rows of the lookup tables. *)
Definition delete_movie_row (id : nat) : db unit :=
  st ← get_pending;
  put_pending (with_movies (delete id (movies st)) st).

(** Writing back the attributes assigned to a loaded movie. *)
Definition save_movie (id : nat) (m : MovieModel.t) : db unit :=
  st ← get_pending;
  put_pending (with_movies (<[id := m]> (movies st)) st).

(** [await db.refresh(movie)]: read the row again. *)
Definition refresh (id : nat) : db MovieModel.t :=
  st ← get_pending;
  match movies st !! id with
  | Some m => mret m
  | None => raise InvalidRequestError
  end.

(** *** ORM objects as pydantic and the handlers see them *)

Definition country_object (id : nat) (c : CountryModel.t) : value :=
  VDict [("id", VInt (Z.of_nat id));
         ("code", VStr (CountryModel.code c));
         ("name", from_option VStr VNone (CountryModel.name c))].

Definition named_object (id : nat) (name : string) : value :=
  VDict [("id", VInt (Z.of_nat id)); ("name", VStr name)].

(** A loaded collection: the rows the movie is linked to, each once, in
    the order the database returns them. *)
Definition related `{Collaborators} (table : gmap nat string) (ids : gset nat) : value :=
  VList (omap (λ id, named_object id <$> table !! id) (linked_order ids)).

Definition movie_object `{Collaborators} (st : Store) (id : nat) (m : MovieModel.t)
    : value :=
  VDict [("id", VInt (Z.of_nat id));
         ("name", MovieModel.name m);
         ("date", MovieModel.date m);
         ("score", MovieModel.score m);
         ("overview", MovieModel.overview m);
         ("status", MovieModel.status m);
         ("budget", MovieModel.budget m);
         ("revenue", MovieModel.revenue m);
         ("country_id", VInt (Z.of_nat (MovieModel.country_id m)));
         ("country",
          from_option (country_object (MovieModel.country_id m)) VNone
            (countries st !! MovieModel.country_id m));
         ("genres", related (genres st) (MovieModel.genres m));
         ("actors", related (actors st) (MovieModel.actors m));
         ("languages", related (languages st) (MovieModel.languages m))].

(** ** fastapi_pagination

    The library's contract: [apaginate] counts the statement's rows and
    takes the slice [size * (page - 1), size * page) of them. *)

Module Params.
Record t := mk { page : Z; size : Z }.
End Params.

Module Page.
Record t := mk {
  items : list (nat * MovieModel.t);
  total : Z;
  page : Z;
  size : Z;
  pages : Z
}.
End Page.

Definition apaginate (stmt : Store → list (nat * MovieModel.t)) (params : Params.t)
    : db Page.t :=
  st ← get_pending;
  let rows := stmt st in
  let total := Z.of_nat (length rows) in
  let size := Params.size params in
  let page := Params.page params in
  mret (Page.mk
          (take (Z.to_nat size) (drop (Z.to_nat (size * (page - 1))) rows))
          total page size ((total + size - 1) / size)).

(** [.order_by(MovieModel.id.desc())]. *)
Definition id_desc (x y : nat * MovieModel.t) : Prop := (y.1 ≤ x.1)%nat.

#[global] Instance id_desc_dec x y : Decision (id_desc x y).
Proof. unfold id_desc. apply _. Defined.

Definition order_by_id_desc (rows : list (nat * MovieModel.t)) : list (nat * MovieModel.t) :=
  merge_sort id_desc rows.

(** ** routes/movies.py *)

Section routes.
Context `{Collaborators}.

Definition page_link (page size : Z) : string :=
  "/theater/movies/?page=" +:+ pretty page +:+ "&per_page=" +:+ pretty size.

(** The rows [apaginate] selects from the statement of [get_movies]. *)
Definition page_of (st : Store) (page per_page : Z) : list (nat * MovieModel.t) :=
  take (Z.to_nat per_page)
    (drop (Z.to_nat (per_page * (page - 1)))
       (order_by_id_desc (map_to_list (movies st)))).

Definition get_movies (page per_page : Z) : db value :=
  let params := Params.mk page per_page in
  let stmt := λ st, order_by_id_desc (map_to_list (movies st)) in
  page ← apaginate stmt params;
  if (Page.total page =? 0) || bool_decide (Page.items page = [])
  then raise (HTTPException 404 "No movies found.")
  else
    st ← get_pending;
    mret (VDict
      [("movies", VList ((λ row, movie_object st row.1 row.2) <$> Page.items page));
       ("prev_page",
        if Page.page page >? 1
        then VStr (page_link (Page.page page - 1) (Page.size page))
        else VNone);
       ("next_page",
        if Page.page page <? Page.pages page
        then VStr (page_link (Page.page page + 1) (Page.size page))
        else VNone);
       ("total_pages", VInt (Page.pages page));
       ("total_items", VInt (Page.total page))]).

(** [MovieModel.name == movie.name] and the like: a column equals a text
    or a date; NULL equals nothing. *)
Definition eq_str (column : value) (s : string) : bool :=
  match column with VStr s' => String.eqb s' s | _ => false end.

Definition eq_date (column : value) (d : Z) : bool :=
  match column with VDate d' => d' =? d | _ => false end.

(** One round of a lookup loop: find the row named [name], or add it and
    flush. *)
Definition get_or_create (M : NamedModel) (name : string) : db nat :=
  rows ← select_where (rows_of M) (λ _ n, String.eqb n name);
  found ← scalar_one_or_none rows;
  match found with
  | Some row => mret row.1
  | None => id ← add_named M name; flush;; mret id
  end.

(** [objs = []; for name in names: ...; objs.append(obj)]. *)
Fixpoint resolve_all (M : NamedModel) (names : list string) : db (list nat) :=
  match names with
  | [] => mret []
  | name :: rest =>
      id ← get_or_create M name;
      ids ← resolve_all M rest;
      mret (id :: ids)
  end.

(** The country of a new movie: the row with its code, or a new row with
    the code alone, flushed so that its id is known. *)
Definition get_or_create_country (code : string) : db nat :=
  rows ← select_where countries (λ _ c, String.eqb (CountryModel.code c) code);
  country_obj ← scalar_one_or_none rows;
  match country_obj with
  | Some row => mret row.1
  | None => id ← add_country (CountryModel.mk code None); flush;; mret id
  end.

(** The [where] clause of the uniqueness check. *)
Definition same_name_and_date (name : string) (date : Z) (m : MovieModel.t) : bool :=
  eq_str (MovieModel.name m) name && eq_date (MovieModel.date m) date.

Definition already_exists (base : MovieBaseSchema.t) : string :=
  "A movie with the name '" +:+ MovieBaseSchema.name base
  +:+ "' and release date '" +:+ isoformat (MovieBaseSchema.date base)
  +:+ "' already exists.".

(** In [MovieModel(..., genres=genre_objs, ...)] the collections are given
    as lists; what is persisted of them is the join-table rows, one for
    each row that occurs in the list. *)
Definition create_movie (movie : MovieCreateSchema.t) : db value :=
  let base := MovieCreateSchema.base movie in
  rows ← select_where movies (λ _ m,
    same_name_and_date (MovieBaseSchema.name base) (MovieBaseSchema.date base) m);
  existing_movie ← scalar_one_or_none rows;
  match existing_movie with
  | Some _ => raise (HTTPException 409 (already_exists base))
  | None =>
      country_id ← get_or_create_country (MovieCreateSchema.country movie);
      genre_objs ← resolve_all GenreModel (MovieCreateSchema.genres movie);
      actor_objs ← resolve_all ActorModel (MovieCreateSchema.actors movie);
      language_objs ← resolve_all LanguageModel (MovieCreateSchema.languages movie);
      let new_movie :=
        MovieModel.mk
          (VStr (MovieBaseSchema.name base))
          (VDate (MovieBaseSchema.date base))
          (VFloat (MovieBaseSchema.score base))
          (VStr (MovieBaseSchema.overview base))
          (VStr (MovieCreateSchema.status movie))
          (VFloat (MovieCreateSchema.budget movie))
          (VFloat (MovieCreateSchema.revenue movie))
          country_id (list_to_set genre_objs) (list_to_set actor_objs)
          (list_to_set language_objs) in
      id ← add_movie new_movie;
      commit;;
      new_movie ← refresh id;
      st ← get_pending;
      mret (movie_object st id new_movie)
  end.

Definition not_found {A} : db A :=
  raise (HTTPException 404 "Movie with the given ID was not found.").

Definition get_movie (movie_id : nat) : db MovieDetailResponseSchema.t :=
  rows ← select_where movies (λ id _, bool_decide (id = movie_id));
  match scalars_first rows with
  | None => not_found
  | Some movie =>
      st ← get_pending;
      match MovieDetailResponseSchema.model_validate (movie_object st movie.1 movie.2) with
      | Some detail => mret detail
      | None => raise ValidationError
      end
  end.

Definition delete_movie (movie_id : nat) : db unit :=
  rows ← select_where movies (λ id _, bool_decide (id = movie_id));
  movie ← scalar_one_or_none rows;
  match movie with
  | None => not_found
  | Some movie =>
      delete_movie_row movie.1;;
      commit
  end.

(** [for field, value in update_data.model_dump(exclude_unset=True).items():
    setattr(movie, field, value)]. *)
Definition assign_fields (movie : MovieModel.t) (update_data : MovieUpdateSchema.t)
    : MovieModel.t :=
  foldl (λ m kv, MovieModel.setattr m kv.1 kv.2) movie
    (MovieUpdateSchema.model_dump_exclude_unset update_data).

Definition update_movie (movie_id : nat) (update_data : MovieUpdateSchema.t) : db value :=
  rows ← select_where movies (λ id _, bool_decide (id = movie_id));
  movie ← scalar_one_or_none rows;
  match movie with
  | None => not_found
  | Some movie =>
      try_except
        (save_movie movie.1 (assign_fields movie.2 update_data);;
         commit;;
         refresh movie.1;;
         mret ())
        (rollback;;
         raise (HTTPException 400 "Invalid input data."));;
      mret (VDict [("detail", VStr "Movie updated successfully.")])
  end.

(** *** The application around the handlers *)

Inductive response (A : Type) :=
  | Response (status_code : Z) (content : A)
  | ErrorResponse (status_code : Z) (detail : string)
  | UnprocessableEntity
  | InternalServerError.

(** One request: the session starts from the committed rows, what was not
    committed when the handler ends is dropped, the returned value goes
    through the response model, an [HTTPException] becomes its error
    response and any other exception a 500. *)
Definition serve {A B} (status_code : Z) (response_model : A → option B)
    (handler : db A) (st : Store) : Store * response B :=
  match handler (mkSession st st) with
  | (s, inr a) =>
      (committed s,
       match response_model a with
       | Some b => Response B status_code b
       | None => InternalServerError B
       end)
  | (s, inl (HTTPException code detail)) => (committed s, ErrorResponse B code detail)
  | (s, inl _) => (committed s, InternalServerError B)
  end.

(** [Query(default, ge=..., le=...)]. *)
Definition Query (otherwise : Z) (lo : Z) (hi : option Z) (given : option Z) : option Z :=
  let v := default otherwise given in
  if (lo <=? v) && from_option (λ h, v <=? h) true hi then Some v else None.

(** [@router.get("/", response_model=MoviesPage)]. *)
Definition route_list (page per_page : option Z) (st : Store) : Store * response MoviesPage.t :=
  match Query 1 1 None page, Query 10 1 (Some 20) per_page with
  | Some page, Some per_page =>
      serve 200 MoviesPage.model_validate (get_movies page per_page) st
  | _, _ => (st, UnprocessableEntity _)
  end.

(** [@router.post("/", response_model=MovieResponseSchema, status_code=201)]. *)
Definition route_create (body : value) (st : Store) : Store * response MovieResponseSchema.t :=
  match MovieCreateSchema.model_validate body with
  | Some movie => serve 201 MovieResponseSchema.model_validate (create_movie movie) st
  | None => (st, UnprocessableEntity _)
  end.

(** [@router.get("/{movie_id}/", response_model=MovieDetailResponseSchema)]. *)
Definition route_get (movie_id : nat) (st : Store) : Store * response MovieDetailResponseSchema.t :=
  serve 200 Some (get_movie movie_id) st.

(** [@router.delete("/{movie_id}/", status_code=status.HTTP_204_NO_CONTENT)]. *)
Definition route_delete (movie_id : nat) (st : Store) : Store * response unit :=
  serve 204 Some (delete_movie movie_id) st.

(** [@router.patch("/{movie_id}/", status_code=status.HTTP_200_OK)]. *)
Definition route_update (movie_id : nat) (body : value) (st : Store) : Store * response value :=
  match MovieUpdateSchema.model_validate body with
  | Some update_data => serve 200 Some (update_movie movie_id update_data) st
  | None => (st, UnprocessableEntity _)
  end.

End routes.

Arguments Response {A}.
Arguments ErrorResponse {A}.
Arguments UnprocessableEntity {A}.
Arguments InternalServerError {A}.

(** ** The invariants of the data model

    What the spec's data model promises of the stored rows, and what a
    database declared after it enforces: codes and names are unique, no two
    movies share name and date, the columns of a movie hold values of
    their types, and a movie refers to rows that exist. *)

Definition names_unique (t : gmap nat string) : Prop :=
  ∀ i j n, t !! i = Some n → t !! j = Some n → i = j.

Definition codes_unique (t : gmap nat CountryModel.t) : Prop :=
  ∀ i j c c', t !! i = Some c → t !! j = Some c' →
    CountryModel.code c = CountryModel.code c' → i = j.

Definition movies_unique (t : gmap nat MovieModel.t) : Prop :=
  ∀ i j m m' n d, t !! i = Some m → t !! j = Some m' →
    same_name_and_date n d m → same_name_and_date n d m' → i = j.

Record columns_ok `{Collaborators} (m : MovieModel.t) : Prop := {
  name_ok : ∃ n, MovieModel.name m = VStr n ∧ (String.length n ≤ 255)%nat;
  date_ok : ∃ d, MovieModel.date m = VDate d;
  score_ok : ∃ x, MovieModel.score m = VFloat x;
  overview_ok : ∃ o, MovieModel.overview m = VStr o;
  status_ok : ∃ s, MovieModel.status m = VStr s ∧ is_status s;
  budget_ok : ∃ x, MovieModel.budget m = VFloat x;
  revenue_ok : ∃ x, MovieModel.revenue m = VFloat x
}.

Record references_ok (st : Store) (m : MovieModel.t) : Prop := {
  country_ref : is_Some (countries st !! MovieModel.country_id m);
  genres_ref : set_Forall (λ id, is_Some (genres st !! id)) (MovieModel.genres m);
  actors_ref : set_Forall (λ id, is_Some (actors st !! id)) (MovieModel.actors m);
  languages_ref : set_Forall (λ id, is_Some (languages st !! id)) (MovieModel.languages m)
}.

Record wf `{Collaborators} (st : Store) : Prop := {
  wf_codes : codes_unique (countries st);
  wf_code_length :
    map_Forall (λ _ c, (String.length (CountryModel.code c) ≤ 3)%nat) (countries st);
  wf_genres : names_unique (genres st);
  wf_actors : names_unique (actors st);
  wf_languages : names_unique (languages st);
  wf_movies : movies_unique (movies st);
  wf_columns : map_Forall (λ _ m, columns_ok m) (movies st);
  wf_references : map_Forall (λ _ m, references_ok st m) (movies st)
}.

(** ** Names used by the statements *)

(** Newest first: a strictly larger id comes earlier. *)
Definition newer (x y : nat * MovieModel.t) : Prop := (y.1 < x.1)%nat.

(** The store with the row of one movie replaced. *)
Definition updated (movie_id : nat) (m : MovieModel.t) (st : Store) : Store :=
  with_movies (<[movie_id := m]> (movies st)) st.

(** What a column holds after an update: the payload's value when the
    payload has the field set, the old one when it does not. *)
Definition present (field : string) (update_data : MovieUpdateSchema.t)
    (new old : value) : value :=
  if bool_decide (field ∈ MovieUpdateSchema.model_fields_set update_data)
  then new else old.

Definition setattr_step (m : MovieModel.t) (kv : string * value) : MovieModel.t :=
  MovieModel.setattr m kv.1 kv.2.

Definition updated_ok : value := VDict [("detail", VStr "Movie updated successfully.")].

Definition movie_not_found : string := "Movie with the given ID was not found.".

Definition lookup_model (M : NamedModel) : Prop :=
  M = GenreModel ∨ M = ActorModel ∨ M = LanguageModel.

(** The row [create_movie] builds once the related rows are resolved. *)
Definition new_row (movie : MovieCreateSchema.t) (country_id : nat)
    (genre_ids actor_ids language_ids : list nat) : MovieModel.t :=
  let base := MovieCreateSchema.base movie in
  MovieModel.mk
    (VStr (MovieBaseSchema.name base))
    (VDate (MovieBaseSchema.date base))
    (VFloat (MovieBaseSchema.score base))
    (VStr (MovieBaseSchema.overview base))
    (VStr (MovieCreateSchema.status movie))
    (VFloat (MovieCreateSchema.budget movie))
    (VFloat (MovieCreateSchema.revenue movie))
    country_id (list_to_set genre_ids) (list_to_set actor_ids) (list_to_set language_ids).

(** No stored movie has the name and the date of the payload. *)
Definition no_such_movie (movie : MovieCreateSchema.t) (st : Store) : Prop :=
  ∀ j m, movies st !! j = Some m →
    ¬ same_name_and_date (MovieBaseSchema.name (MovieCreateSchema.base movie))
        (MovieBaseSchema.date (MovieCreateSchema.base movie)) m.

(** What [MovieBaseSchema] has checked of a model it returned. *)
Record base_valid `{Collaborators} (b : MovieBaseSchema.t) : Prop := {
  valid_name : (String.length (MovieBaseSchema.name b) ≤ 255)%nat;
  valid_date : MovieBaseSchema.date b ≤ today + 365;
  valid_score_ge : PrimFloat.leb 0 (MovieBaseSchema.score b) = true;
  valid_score_le : PrimFloat.leb (MovieBaseSchema.score b) 100 = true
}.

(** What [MovieCreateSchema] has checked of a model it returned. *)
Record create_valid `{Collaborators} (movie : MovieCreateSchema.t) : Prop := {
  valid_base : base_valid (MovieCreateSchema.base movie);
  valid_status : is_status (MovieCreateSchema.status movie) = true;
  valid_budget : PrimFloat.leb 0 (MovieCreateSchema.budget movie) = true;
  valid_revenue : PrimFloat.leb 0 (MovieCreateSchema.revenue movie) = true;
  valid_country : (String.length (MovieCreateSchema.country movie) ≤ 3)%nat
}.

(** A step of a lookup loop: nothing is committed, movies and countries
    stay, the name tables only grow, and the invariants hold again. *)
Record named_step `{Collaborators} (s s' : Session) : Prop := {
  step_committed : committed s' = committed s;
  step_movies : movies (pending s') = movies (pending s);
  step_countries : countries (pending s') = countries (pending s);
  step_genres : genres (pending s) ⊆ genres (pending s');
  step_actors : actors (pending s) ⊆ actors (pending s');
  step_languages : languages (pending s) ⊆ languages (pending s');
  step_wf : wf (pending s')
}.

(** A handler step that leaves the committed rows alone. *)
Definition keeps_committed {A} (c : db A) : Prop :=
  ∀ s s' r, c s = (s', r) → committed s' = committed s.

(** A table that has only gained rows, and only rows of a given kind. *)
Definition only_adds {A} (new : A → Prop) (t t' : gmap nat A) : Prop :=
  ∀ j x, t' !! j = Some x → t !! j = Some x ∨ new x.

(** The links of a collection against the names they were made from: the
    linked rows carry exactly these names, every link leads to a row, no
    two links lead to rows of one name, and there are as many links as
    there are distinct names. *)
Record links_names (table : gmap nat string) (ids : gset nat) (names : list string)
    : Prop := {
  links_cover : ∀ n, n ∈ names ↔ ∃ id, id ∈ ids ∧ table !! id = Some n;
  links_resolve : set_Forall (λ id, is_Some (table !! id)) ids;
  links_once :
    ∀ i j n, i ∈ ids → j ∈ ids → table !! i = Some n → table !! j = Some n → i = j;
  links_count : size ids = length (remove_dups names)
}.

(** The ways a creation can end. *)
Inductive create_outcome `{Collaborators} (movie : MovieCreateSchema.t) (st : Store)
    : Store * response MovieResponseSchema.t → Prop :=
  | create_conflict i m :
      movies st !! i = Some m →
      same_name_and_date (MovieBaseSchema.name (MovieCreateSchema.base movie))
        (MovieBaseSchema.date (MovieCreateSchema.base movie)) m →
      create_outcome movie st
        (st, ErrorResponse 409 (already_exists (MovieCreateSchema.base movie)))
  | create_refused :
      no_such_movie movie st →
      create_outcome movie st (st, InternalServerError)
  | create_done st' cid gids aids lids :
      no_such_movie movie st →
      wf st' →
      movies st' = <[next_id (movies st) := new_row movie cid gids aids lids]> (movies st) →
      countries st ⊆ countries st' → genres st ⊆ genres st' →
      actors st ⊆ actors st' → languages st ⊆ languages st' →
      (∃ c, countries st' !! cid = Some c
          ∧ CountryModel.code c = MovieCreateSchema.country movie) →
      Forall2 (λ id name, genres st' !! id = Some name) gids (MovieCreateSchema.genres movie) →
      Forall2 (λ id name, actors st' !! id = Some name) aids (MovieCreateSchema.actors movie) →
      Forall2 (λ id name, languages st' !! id = Some name) lids
        (MovieCreateSchema.languages movie) →
      only_adds (λ c, c = CountryModel.mk (MovieCreateSchema.country movie) None)
        (countries st) (countries st') →
      only_adds (λ n, n ∈ MovieCreateSchema.genres movie) (genres st) (genres st') →
      only_adds (λ n, n ∈ MovieCreateSchema.actors movie) (actors st) (actors st') →
      only_adds (λ n, n ∈ MovieCreateSchema.languages movie) (languages st) (languages st') →
      create_outcome movie st
        (st', Response 201
                (MovieResponseSchema.mk (MovieCreateSchema.base movie)
                   (Z.of_nat (next_id (movies st))))).

(** ** A concrete catalog *)

Definition two_digits (n : Z) : string :=
  if n <? 10 then "0" +:+ pretty n else pretty n.

Definition four_digits (n : Z) : string :=
  if n <? 10 then "000" +:+ pretty n
  else if n <? 100 then "00" +:+ pretty n
  else if n <? 1000 then "0" +:+ pretty n
  else pretty n.

(** [date.fromordinal(n).isoformat()], by the usual era arithmetic on the
    days since 0000-03-01. *)
Definition ordinal_isoformat (n : Z) : string :=
  let z := n + 305 in
  let era := z / 146097 in
  let doe := z - era * 146097 in
  let yoe := (doe - doe / 1460 + doe / 36524 - doe / 146096) / 365 in
  let doy := doe - (365 * yoe + yoe / 4 - yoe / 100) in
  let mp := (5 * doy + 2) / 153 in
  let d := doy - (153 * mp + 2) / 5 + 1 in
  let m := if mp <? 10 then mp + 3 else mp - 9 in
  let y := yoe + era * 400 + (if m <=? 2 then 1 else 0) in
  four_digits y +:+ "-" +:+ two_digits m +:+ "-" +:+ two_digits d.

Definition example_status (s : string) : bool :=
  bool_decide (s ∈ ["Released"; "Upcoming"; "In Production"]).

(** 2021-11-06, and a database that takes every row. *)
Definition lenient : Collaborators := {|
  today := 738100;
  is_status := example_status;
  store_accepts := λ _, true;
  isoformat := ordinal_isoformat;
  linked_order := elements;
  linked_order_elements := λ _, Permutation_refl _
|}.

Definition not_null (v : value) : bool :=
  match v with VNone => false | _ => true end.

(** The same day, and a database whose [name] column is NOT NULL. *)
Definition name_not_null : Collaborators := {|
  today := 738100;
  is_status := example_status;
  store_accepts := λ st,
    forallb (λ row, not_null (MovieModel.name row.2)) (map_to_list (movies st));
  isoformat := ordinal_isoformat;
  linked_order := elements;
  linked_order_elements := λ _, Permutation_refl _
|}.

Definition empty_store : Store := mkStore ∅ ∅ ∅ ∅ ∅.

(** The creation payload of the spec's example; 738085 is 2021-10-22. *)
Definition dune : value :=
  VDict [("name", VStr "Dune"); ("date", VDate 738085); ("score", VInt 83);
         ("overview", VStr "..."); ("status", VStr "Released");
         ("budget", VInt 165000000); ("revenue", VInt 402000000);
         ("country", VStr "USA"); ("genres", VList [VStr "Sci-Fi"]);
         ("actors", VList [VStr "Timothée Chalamet"]);
         ("languages", VList [VStr "English"])].

Definition dune_movie : MovieCreateSchema.t :=
  MovieCreateSchema.mk (MovieBaseSchema.mk "Dune" 738085 83 "...")
    "Released" 165000000 402000000 "USA" ["Sci-Fi"] ["Timothée Chalamet"] ["English"].

Definition dune_row : MovieModel.t := new_row dune_movie 1 [1%nat] [1%nat] [1%nat].

(** A name of 256 characters. *)
Definition long_name : string := String.string_of_list_ascii (replicate 256 (Ascii.ascii_of_nat 97)).

(** The update payload [{score: 42}] as validated. *)
Definition score_42 : MovieUpdateSchema.t :=
  MovieUpdateSchema.mk None () (Some 42%float) None None None None ["score"].

(** The catalog after that creation. *)
Definition dune_store : Store :=
  mkStore {[1%nat := dune_row]} {[1%nat := CountryModel.mk "USA" None]}
    {[1%nat := "Sci-Fi"]} {[1%nat := "Timothée Chalamet"]} {[1%nat := "English"]}.

(** The sequel, of the same country, genre, actor and language. *)
Definition dune_two : value :=
  VDict [("name", VStr "Dune: Part Two"); ("date", VDate 738430); ("score", VInt 85);
         ("overview", VStr "..."); ("status", VStr "Released");
         ("budget", VInt 190000000); ("revenue", VInt 714000000);
         ("country", VStr "USA"); ("genres", VList [VStr "Sci-Fi"]);
         ("actors", VList [VStr "Timothée Chalamet"]);
         ("languages", VList [VStr "English"])].

Definition dune_two_movie : MovieCreateSchema.t :=
  MovieCreateSchema.mk (MovieBaseSchema.mk "Dune: Part Two" 738430 85 "...")
    "Released" 190000000 714000000 "USA" ["Sci-Fi"] ["Timothée Chalamet"] ["English"].

(** The catalog with both. *)
Definition two_movies : Store :=
  with_movies (<[2%nat := new_row dune_two_movie 1 [1%nat] [1%nat] [1%nat]]> (movies dune_store))
    dune_store.

Definition dune_summary : MovieResponseSchema.t :=
  MovieResponseSchema.mk (MovieBaseSchema.mk "Dune" 738085 83 "...") 1.

Definition dune_page : MoviesPage.t := MoviesPage.mk [dune_summary] None None 1 1.

(** The payload of Dune with its genre listed twice. *)
Definition dune_repeated : value :=
  VDict [("name", VStr "Dune"); ("date", VDate 738085); ("score", VInt 83);
         ("overview", VStr "..."); ("status", VStr "Released");
         ("budget", VInt 165000000); ("revenue", VInt 402000000);
         ("country", VStr "USA"); ("genres", VList [VStr "Sci-Fi"; VStr "Sci-Fi"]);
         ("actors", VList [VStr "Timothée Chalamet"]);
         ("languages", VList [VStr "English"])].

Definition dune_repeated_movie : MovieCreateSchema.t :=
  MovieCreateSchema.mk (MovieBaseSchema.mk "Dune" 738085 83 "...")
    "Released" 165000000 402000000 "USA" ["Sci-Fi"; "Sci-Fi"] ["Timothée Chalamet"]
    ["English"].

(** A creation payload without its country. *)
Definition no_country : value :=
  VDict [("name", VStr "Dune"); ("date", VDate 738085); ("score", VInt 83);
         ("overview", VStr "..."); ("status", VStr "Released");
         ("budget", VInt 165000000); ("revenue", VInt 402000000)].

(** * Properties *)


Section table_facts.
Context {A : Type}.
Implicit Types (m : gmap nat A) (P : nat * A → Prop).

Lemma filter_none (l : list (nat * A)) P `{!∀ x, Decision (P x)} :
  (∀ x, x ∈ l → ¬ P x) → filter P l = [].
Proof.
  induction l as [|x l IH]; intros Hno; [done|].
  rewrite filter_cons_False; [|apply Hno; left].
  apply IH. intros y Hy. apply Hno. by right.
Qed.

Lemma select_none m P `{!∀ x, Decision (P x)} :
  (∀ i x, m !! i = Some x → ¬ P (i, x)) →
  filter P (map_to_list m) = [].
Proof.
  intros Hno. apply filter_none. intros [i x] Hix.
  apply Hno. by apply elem_of_map_to_list.
Qed.

Lemma select_unique m P `{!∀ x, Decision (P x)} i x :
  m !! i = Some x → P (i, x) →
  (∀ j y, m !! j = Some y → P (j, y) → j = i) →
  filter P (map_to_list m) = [(i, x)].
Proof.
  intros Hi HP Huniq.
  apply Permutation_singleton_r.
  rewrite <- (insert_delete_id m i x Hi) at 1.
  rewrite map_to_list_insert by apply lookup_delete_eq.
  rewrite filter_cons_True by done.
  rewrite select_none; [done|].
  intros j y Hj HPj.
  apply lookup_delete_Some in Hj as [Hne Hj].
  apply Hne. symmetry. by eapply Huniq.
Qed.

Lemma select_by_id m k :
  filter (λ row : nat * A, Is_true (bool_decide (row.1 = k))) (map_to_list m)
  = from_option (λ x, [(k, x)]) [] (m !! k).
Proof.
  destruct (m !! k) as [x|] eqn:Hk; simpl.
  - apply select_unique; [done|by apply bool_decide_pack|].
    intros j y _ Hj. by apply bool_decide_unpack in Hj.
  - apply select_none. intros i x Hi Heq.
    apply bool_decide_unpack in Heq. simpl in Heq. congruence.
Qed.

Lemma next_id_fresh m : m !! next_id m = None.
Proof.
  destruct (m !! next_id m) as [x|] eqn:Hx; [|done].
  assert (next_id m ∈ (map_to_list m).*1) as Hin.
  { apply list_elem_of_fmap. exists (next_id m, x). split; [done|].
    by apply elem_of_map_to_list. }
  apply max_list_elem_of_le in Hin. unfold next_id in Hin. lia.
Qed.
End table_facts.

Section sorted_facts.
Context {A : Type} (R : relation A).

Lemma StronglySorted_drop n l : StronglySorted R l → StronglySorted R (drop n l).
Proof.
  intros Hl. revert n. induction Hl as [|x l Hl IH Hx]; intros [|n]; simpl;
    try constructor; auto.
Qed.

Lemma StronglySorted_take n l : StronglySorted R l → StronglySorted R (take n l).
Proof.
  intros Hl. revert n. induction Hl as [|x l Hl IH Hx]; intros [|n]; simpl;
    try constructor; auto.
  apply Forall_take. done.
Qed.

Lemma StronglySorted_strict {B} (f : A → B) (R' : relation A) l :
  (∀ x y, R x y → f x ≠ f y → R' x y) →
  NoDup (f <$> l) → StronglySorted R l → StronglySorted R' l.
Proof.
  intros HR Hnd Hl. induction Hl as [|x l Hl IH Hx]; [constructor|].
  rewrite fmap_cons in Hnd. apply NoDup_cons in Hnd as [Hx' Hnd].
  constructor; [by apply IH|].
  apply Forall_forall. intros y Hy. apply HR.
  - rewrite Forall_forall in Hx. by apply Hx.
  - intros Heq. apply Hx'. rewrite Heq. apply list_elem_of_fmap. by exists y.
Qed.
End sorted_facts.

#[local] Instance id_desc_total : Total id_desc.
Proof. intros x y. unfold id_desc. lia. Qed.

#[local] Instance id_desc_trans : Transitive id_desc.
Proof. intros x y z. unfold id_desc. lia. Qed.


Lemma catalog_sorted (m : gmap nat MovieModel.t) :
  StronglySorted newer (order_by_id_desc (map_to_list m)).
Proof.
  apply (StronglySorted_strict id_desc fst).
  - unfold id_desc, newer. intros x y. lia.
  - unfold order_by_id_desc. rewrite merge_sort_Permutation.
    apply NoDup_fst_map_to_list.
  - apply StronglySorted_merge_sort; apply _.
Qed.

Lemma catalog_length (m : gmap nat MovieModel.t) :
  length (order_by_id_desc (map_to_list m)) = size m.
Proof.
  unfold order_by_id_desc. rewrite merge_sort_Permutation.
  apply length_map_to_list.
Qed.

Lemma catalog_elem_of (m : gmap nat MovieModel.t) i x :
  (i, x) ∈ order_by_id_desc (map_to_list m) ↔ m !! i = Some x.
Proof.
  unfold order_by_id_desc. rewrite merge_sort_Permutation.
  apply elem_of_map_to_list.
Qed.

Section list_lemmas.
Context `{Collaborators}.

Lemma page_of_length st page per_page :
  1 ≤ page → 1 ≤ per_page →
  Z.of_nat (length (page_of st page per_page))
  = Z.max 0 (Z.min per_page (Z.of_nat (size (movies st)) - per_page * (page - 1))).
Proof.
  intros Hp Hs. unfold page_of.
  rewrite length_take, length_drop, catalog_length. nia.
Qed.

Lemma get_movies_not_found page per_page st :
  page_of st page per_page = [] →
  get_movies page per_page (mkSession st st)
  = (mkSession st st, inl (HTTPException 404 "No movies found.")).
Proof.
  intros Hnil. unfold get_movies, apaginate, mbind, db_bind, get_pending, mret, db_ret.
  simpl. fold (page_of st page per_page). rewrite Hnil.
  rewrite bool_decide_eq_true_2 by done. by rewrite orb_true_r.
Qed.

Lemma get_movies_found page per_page st :
  page_of st page per_page ≠ [] →
  let pages := (Z.of_nat (size (movies st)) + per_page - 1) / per_page in
  let prev := if page >? 1 then Some (page_link (page - 1) per_page) else None in
  let next := if page <? pages then Some (page_link (page + 1) per_page) else None in
  get_movies page per_page (mkSession st st)
  = (mkSession st st, inr (VDict
      [("movies", VList ((λ row, movie_object st row.1 row.2) <$> page_of st page per_page));
       ("prev_page", from_option VStr VNone prev);
       ("next_page", from_option VStr VNone next);
       ("total_pages", VInt pages);
       ("total_items", VInt (Z.of_nat (size (movies st))))])).
Proof.
  intros Hne pages prev next. subst pages prev next.
  unfold get_movies, apaginate, mbind, db_bind, get_pending, mret, db_ret.
  simpl. fold (page_of st page per_page). rewrite catalog_length.
  rewrite (bool_decide_eq_false_2 _ Hne), orb_false_r.
  destruct (Z.of_nat (size (movies st)) =? 0) eqn:Hz.
  - exfalso. apply Hne. unfold page_of.
    assert (length (order_by_id_desc (map_to_list (movies st))) = 0%nat) as Hl
      by (rewrite catalog_length; lia).
    apply nil_length_inv in Hl. rewrite Hl. by rewrite drop_nil, take_nil.
  - by destruct (page >? 1), (page <? _).
Qed.
End list_lemmas.

Lemma mapM_fmap_compose {A B C} (f : B → option C) (g : A → B) (l : list A) :
  mapM f (g <$> l) = mapM (f ∘ g) l.
Proof. induction l as [|x l IH]; [done|]. cbn. by rewrite IH. Qed.

Lemma elem_of_slice {A} (x : A) n k l : x ∈ take n (drop k l) → x ∈ l.
Proof.
  intros Hx. rewrite <- (take_drop k l). apply elem_of_app. right.
  rewrite <- (take_drop n (drop k l)). apply elem_of_app. by left.
Qed.

Section list_claims.
Context `{Collaborators}.

Lemma Query_in_range otherwise lo hi v :
  lo ≤ v → from_option (λ h, v ≤ h) True hi →
  Query otherwise lo hi (Some v) = Some v.
Proof.
  intros Hlo Hhi. unfold Query. simpl.
  rewrite (proj2 (Z.leb_le _ _) Hlo). simpl.
  destruct hi as [h|]; simpl in *; [|done].
  by rewrite (proj2 (Z.leb_le _ _) Hhi).
Qed.

Lemma summary_id st i m s :
  MovieResponseSchema.model_validate (movie_object st i m) = Some s →
  MovieResponseSchema.id s = Z.of_nat i.
Proof.
  unfold MovieResponseSchema.model_validate.
  destruct (MovieBaseSchema.model_validate _) as [b|]; [|done].
  simpl. intros [= <-]. done.
Qed.

Lemma route_list_not_found page per_page st :
  1 ≤ page → 1 ≤ per_page ≤ 20 →
  page_of st page per_page = [] →
  route_list (Some page) (Some per_page) st = (st, ErrorResponse 404 "No movies found.").
Proof.
  intros Hp Hs Hnil. unfold route_list.
  rewrite !Query_in_range by (simpl; lia).
  unfold serve. by rewrite get_movies_not_found.
Qed.

Lemma route_list_found page per_page st :
  1 ≤ page → 1 ≤ per_page ≤ 20 →
  page_of st page per_page ≠ [] →
  let pages := (Z.of_nat (size (movies st)) + per_page - 1) / per_page in
  let prev := if page >? 1 then Some (page_link (page - 1) per_page) else None in
  let next := if page <? pages then Some (page_link (page + 1) per_page) else None in
  route_list (Some page) (Some per_page) st
  = (st,
     match mapM (λ row, MovieResponseSchema.model_validate (movie_object st row.1 row.2))
                (page_of st page per_page) with
     | Some summaries =>
         Response 200 (MoviesPage.mk summaries prev next pages (Z.of_nat (size (movies st))))
     | None => InternalServerError
     end).
Proof.
  intros Hp Hs Hne pages prev next. unfold route_list.
  rewrite !Query_in_range by (simpl; lia).
  unfold serve. rewrite get_movies_found by done. simpl. f_equal.
  unfold MoviesPage.model_validate, required. simpl.
  rewrite mapM_fmap_compose. unfold compose.
  destruct (mapM _ _); simpl; [|done].
  subst prev next pages. by destruct (page >? 1), (page <? _).
Qed.

Lemma page_of_nil st page per_page :
  1 ≤ page → 1 ≤ per_page →
  page_of st page per_page = [] ↔ Z.of_nat (size (movies st)) ≤ per_page * (page - 1).
Proof.
  intros Hp Hs. pose proof (page_of_length st page per_page Hp Hs) as Hlen.
  split.
  - intros Hnil. rewrite Hnil in Hlen. simpl in Hlen. lia.
  - intros Hle. apply nil_length_inv. lia.
Qed.

(** C5.  For every page >= 1 and per_page in [1,20], listing answers 404
    "No movies found." exactly when the selected page holds no item, that
    is when [min per_page remaining <= 0]: on an empty catalog whatever the
    page, and on a page beyond the last one of a catalog that has movies.
    Listing never changes the store. *)
Theorem list_not_found_iff_empty_page page per_page st :
  1 ≤ page → 1 ≤ per_page ≤ 20 →
  let not_found := ErrorResponse 404 "No movies found." in
  let remaining := Z.of_nat (size (movies st)) - per_page * (page - 1) in
  ((route_list (Some page) (Some per_page) st).2 = not_found
   ↔ Z.min per_page remaining ≤ 0)
  ∧ (movies st = ∅ → (route_list (Some page) (Some per_page) st).2 = not_found)
  ∧ (movies st ≠ ∅ →
     (Z.of_nat (size (movies st)) + per_page - 1) / per_page < page →
     (route_list (Some page) (Some per_page) st).2 = not_found)
  ∧ (route_list (Some page) (Some per_page) st).1 = st.
Proof.
  intros Hp Hs not_found remaining.
  assert (Z.min per_page remaining ≤ 0 ↔ page_of st page per_page = []) as Hmin.
  { rewrite page_of_nil by lia. subst remaining. lia. }
  assert (page_of st page per_page = [] →
          route_list (Some page) (Some per_page) st = (st, not_found)) as Hnf.
  { intros Hnil. by apply route_list_not_found. }
  split; [|split; [|split]].
  - rewrite Hmin. split; [|by intros ->%Hnf].
    intros Hresp. destruct (decide (page_of st page per_page = [])) as [|Hne]; [done|].
    rewrite route_list_found in Hresp by done. simpl in Hresp.
    by destruct (mapM _ _).
  - intros Hempty. rewrite Hnf; [done|]. apply page_of_nil; [lia..|].
    rewrite Hempty, map_size_empty. nia.
  - intros _ Hlast. rewrite Hnf; [done|]. apply page_of_nil; [lia..|].
    pose proof (Z.div_mod (Z.of_nat (size (movies st)) + per_page - 1) per_page).
    pose proof (Z.mod_pos_bound (Z.of_nat (size (movies st)) + per_page - 1) per_page).
    nia.
  - destruct (decide (page_of st page per_page = [])) as [Hnil|Hne].
    + by rewrite Hnf.
    + by rewrite route_list_found.
Qed.

(** C8, amended.  For every page >= 1 and per_page in [1,20], when the
    page starts inside the catalog and the stored movies pass the summary
    schema, listing answers 200 with exactly [min per_page remaining]
    summaries, ordered by strictly descending id, each one the summary of a
    stored movie, and with the catalog's size as total. *)
Theorem list_page_items page per_page st :
  1 ≤ page → 1 ≤ per_page ≤ 20 →
  per_page * (page - 1) < Z.of_nat (size (movies st)) →
  map_Forall (λ id m, is_Some (MovieResponseSchema.model_validate (movie_object st id m)))
    (movies st) →
  ∃ pg,
    route_list (Some page) (Some per_page) st = (st, Response 200 pg)
    ∧ Z.of_nat (length (MoviesPage.movies pg))
      = Z.min per_page (Z.of_nat (size (movies st)) - per_page * (page - 1))
    ∧ StronglySorted (λ a b, MovieResponseSchema.id a > MovieResponseSchema.id b)
        (MoviesPage.movies pg)
    ∧ Forall (λ s, ∃ id m, movies st !! id = Some m
                ∧ MovieResponseSchema.model_validate (movie_object st id m) = Some s)
        (MoviesPage.movies pg)
    ∧ MoviesPage.total_items pg = Z.of_nat (size (movies st)).
Proof.
  intros Hp Hs Hin Hok.
  assert (page_of st page per_page ≠ []) as Hne.
  { rewrite page_of_nil by lia. lia. }
  rewrite route_list_found by done.
  destruct (mapM _ _) as [summaries|] eqn:Hm.
  - eexists. split; [done|]. simpl.
    apply mapM_Some in Hm. split; [|split; [|split]].
    + rewrite <- (Forall2_length _ _ _ Hm), page_of_length by lia. lia.
    + assert (StronglySorted newer (page_of st page per_page)) as Hsorted.
      { apply StronglySorted_take, StronglySorted_drop, catalog_sorted. }
      clear -Hm Hsorted. induction Hm as [|row s rows ss Hrow Hm IH]; [constructor|].
      apply StronglySorted_inv in Hsorted as [Hsorted Hall].
      constructor; [by apply IH|].
      clear IH Hsorted. induction Hm as [|row' s' rows ss Hrow' Hm IH]; [constructor|].
      apply Forall_cons in Hall as [Hnew Hall].
      constructor; [|by apply IH].
      apply summary_id in Hrow, Hrow'. unfold newer in Hnew. lia.
    + assert (Forall (λ row, movies st !! row.1 = Some row.2) (page_of st page per_page)) as Hrows.
      { apply Forall_forall. intros [i m] Hrow. apply catalog_elem_of.
        by eapply elem_of_slice. }
      clear -Hm Hrows. induction Hm as [|[i m] s rows ss Hrow Hm IH]; [constructor|].
      apply Forall_cons in Hrows as [Hi Hrows]. constructor; [|by apply IH].
      by exists i, m.
    + done.
  - exfalso. apply mapM_None in Hm. apply Exists_exists in Hm as ([i m] & Hrow & Hnone).
    assert (movies st !! i = Some m) as Hi.
    { apply catalog_elem_of. by eapply elem_of_slice. }
    apply Hok in Hi. simpl in *. rewrite Hnone in Hi. by destruct Hi.
Qed.
End list_claims.


Section update_lemmas.
Context `{Collaborators}.

Lemma with_movies_id st : with_movies (movies st) st = st.
Proof. by destruct st. Qed.


Lemma select_movie_by_id movie_id (s : Session) :
  select_where movies (λ id _, bool_decide (id = movie_id)) s
  = (s, inr (from_option (λ m, [(movie_id, m)]) [] (movies (pending s) !! movie_id))).
Proof.
  unfold select_where, mbind, db_bind, get_pending, mret, db_ret.
  by rewrite <- select_by_id.
Qed.

Lemma update_movie_run movie_id u st :
  update_movie movie_id u (mkSession st st)
  = match movies st !! movie_id with
    | None =>
        (mkSession st st,
         inl (HTTPException 404 "Movie with the given ID was not found."))
    | Some m =>
        let st' := updated movie_id (assign_fields m u) st in
        if store_accepts st'
        then (mkSession st' st',
              inr (VDict [("detail", VStr "Movie updated successfully.")]))
        else (mkSession st st, inl (HTTPException 400 "Invalid input data."))
    end.
Proof.
  unfold update_movie. unfold mbind at 1, db_bind at 1.
  rewrite select_movie_by_id. simpl.
  destruct (movies st !! movie_id) as [m|]; simpl; [|done].
  cbv [mbind db_bind try_except save_movie commit refresh rollback
       get_pending put_pending mret db_ret raise pending committed].
  fold (updated movie_id (assign_fields m u) st).
  destruct (store_accepts _) eqn:Hacc; [|done].
  unfold updated at 1. simpl. by rewrite lookup_insert_eq.
Qed.

Lemma serve_update_run movie_id u st :
  serve 200 Some (update_movie movie_id u) st
  = match movies st !! movie_id with
    | None => (st, ErrorResponse 404 movie_not_found)
    | Some m =>
        let st' := updated movie_id (assign_fields m u) st in
        if store_accepts st'
        then (st', Response 200 updated_ok)
        else (st, ErrorResponse 400 "Invalid input data.")
    end.
Proof.
  unfold serve. rewrite update_movie_run.
  destruct (movies st !! movie_id) as [m|]; [|done]. simpl.
  by destruct (store_accepts _).
Qed.

Lemma route_update_run movie_id body st :
  route_update movie_id body st
  = match MovieUpdateSchema.model_validate body with
    | None => (st, UnprocessableEntity)
    | Some u =>
        match movies st !! movie_id with
        | None => (st, ErrorResponse 404 "Movie with the given ID was not found.")
        | Some m =>
            let st' := updated movie_id (assign_fields m u) st in
            if store_accepts st'
            then (st', Response 200 (VDict [("detail", VStr "Movie updated successfully.")]))
            else (st, ErrorResponse 400 "Invalid input data.")
        end
    end.
Proof.
  unfold route_update. destruct (MovieUpdateSchema.model_validate body) as [u|]; [|done].
  unfold serve. rewrite update_movie_run.
  destruct (movies st !! movie_id) as [m|]; [|done]. simpl.
  by destruct (store_accepts _).
Qed.
End update_lemmas.

Section update_claims.
Context `{Collaborators}.

Lemma update_validate_inv body u :
  MovieUpdateSchema.model_validate body = Some u →
  MovieUpdateSchema.model_fields_set u
  = filter (λ k, is_Some (value_get k body)) MovieUpdateSchema.model_fields
  ∧ optional body "name" str_type = Some (MovieUpdateSchema.name u)
  ∧ defaulted body "date" () none_type = Some (MovieUpdateSchema.date u)
  ∧ optional body "score" (λ v, x ← float_type v; x ← ge 0 x; le 100 x)
    = Some (MovieUpdateSchema.score u)
  ∧ optional body "overview" str_type = Some (MovieUpdateSchema.overview u)
  ∧ optional body "status" enum_type = Some (MovieUpdateSchema.status u)
  ∧ optional body "budget" (λ v, float_type v ≫= ge 0) = Some (MovieUpdateSchema.budget u)
  ∧ optional body "revenue" (λ v, float_type v ≫= ge 0) = Some (MovieUpdateSchema.revenue u).
Proof.
  unfold MovieUpdateSchema.model_validate.
  destruct (model_type body) as [[]|]; [|done]. cbn [mbind option_bind].
  destruct (optional body "name" _) as [name|]; [|done].
  destruct (defaulted body "date" _ _) as [date|]; [|done].
  destruct (optional body "score" _) as [score|]; [|done].
  destruct (optional body "overview" _) as [overview|]; [|done].
  destruct (optional body "status" _) as [status|]; [|done].
  destruct (optional body "budget" _) as [budget|]; [|done].
  destruct (optional body "revenue" _) as [revenue|]; [|done].
  simpl. by intros [= <-].
Qed.



(** A column read after a run of assignments: the last value assigned to
    it, or what it held before. *)
Lemma foldl_setattr_column (column : MovieModel.t → value) (k : string) l m :
  (∀ m k' v, String.eqb k' k = false → column (MovieModel.setattr m k' v) = column m) →
  (∀ m v, column (MovieModel.setattr m k v) = v) →
  column (foldl setattr_step m l)
  = default (column m) (dict_get k (reverse l)).
Proof.
  intros Hother Hsame. induction l as [|[k' v] l IH] using rev_ind; [done|].
  rewrite foldl_app, reverse_app. simpl. unfold setattr_step at 1. simpl.
  destruct (String.eqb k' k) eqn:Hk.
  - apply String.eqb_eq in Hk as ->. apply Hsame.
  - rewrite Hother by done. apply IH.
Qed.

Lemma foldl_setattr_frame {A} (attr : MovieModel.t → A) l m :
  (∀ m k v, attr (MovieModel.setattr m k v) = attr m) →
  attr (foldl setattr_step m l) = attr m.
Proof.
  intros Hattr. revert m. induction l as [|kv l IH]; intros m; [done|].
  simpl. rewrite IH. apply Hattr.
Qed.

Lemma dict_get_filter_keys (S : list string) k l :
  dict_get k (filter (λ kv : string * value, kv.1 ∈ S) l)
  = if decide (k ∈ S) then dict_get k l else None.
Proof.
  induction l as [|[k' v] l IH]; simpl; [by destruct (decide _)|].
  rewrite filter_cons. simpl. destruct (decide (k' ∈ S)) as [Hin|Hnin]; simpl.
  - rewrite IH. destruct (String.eqb k' k) eqn:Hk; [|done].
    apply String.eqb_eq in Hk as ->. by destruct (decide _).
  - rewrite IH. destruct (String.eqb k' k) eqn:Hk; [|done].
    apply String.eqb_eq in Hk as ->. by destruct (decide _).
Qed.

Ltac setattr_cases :=
  intros; try reflexivity; unfold MovieModel.setattr;
  repeat match goal with
         | |- context [String.eqb ?a ?b] => destruct (String.eqb a b) eqn:?
         end; simpl; congruence.

Lemma assign_fields_column (column : MovieModel.t → value) k new u m :
  (∀ m k' v, String.eqb k' k = false → column (MovieModel.setattr m k' v) = column m) →
  (∀ m v, column (MovieModel.setattr m k v) = v) →
  dict_get k (reverse
    [("name", MovieUpdateSchema.dump_optional VStr (MovieUpdateSchema.name u));
     ("date", VNone);
     ("score", MovieUpdateSchema.dump_optional VFloat (MovieUpdateSchema.score u));
     ("overview", MovieUpdateSchema.dump_optional VStr (MovieUpdateSchema.overview u));
     ("status", MovieUpdateSchema.dump_optional VStr (MovieUpdateSchema.status u));
     ("budget", MovieUpdateSchema.dump_optional VFloat (MovieUpdateSchema.budget u));
     ("revenue", MovieUpdateSchema.dump_optional VFloat (MovieUpdateSchema.revenue u))])
  = Some new →
  column (assign_fields m u) = present k u new (column m).
Proof.
  intros Hother Hsame Hnew. unfold assign_fields. fold setattr_step.
  rewrite (foldl_setattr_column column k) by done.
  unfold MovieUpdateSchema.model_dump_exclude_unset.
  rewrite <- filter_reverse, dict_get_filter_keys, Hnew. unfold present.
  by destruct (decide _); [rewrite bool_decide_eq_true_2|rewrite bool_decide_eq_false_2].
Qed.

Lemma assign_fields_spec u m :
  let m' := assign_fields m u in
  MovieModel.name m'
  = present "name" u (MovieUpdateSchema.dump_optional VStr (MovieUpdateSchema.name u))
      (MovieModel.name m)
  ∧ MovieModel.date m' = present "date" u VNone (MovieModel.date m)
  ∧ MovieModel.score m'
    = present "score" u (MovieUpdateSchema.dump_optional VFloat (MovieUpdateSchema.score u))
        (MovieModel.score m)
  ∧ MovieModel.overview m'
    = present "overview" u
        (MovieUpdateSchema.dump_optional VStr (MovieUpdateSchema.overview u))
        (MovieModel.overview m)
  ∧ MovieModel.status m'
    = present "status" u (MovieUpdateSchema.dump_optional VStr (MovieUpdateSchema.status u))
        (MovieModel.status m)
  ∧ MovieModel.budget m'
    = present "budget" u (MovieUpdateSchema.dump_optional VFloat (MovieUpdateSchema.budget u))
        (MovieModel.budget m)
  ∧ MovieModel.revenue m'
    = present "revenue" u
        (MovieUpdateSchema.dump_optional VFloat (MovieUpdateSchema.revenue u))
        (MovieModel.revenue m)
  ∧ MovieModel.country_id m' = MovieModel.country_id m
  ∧ MovieModel.genres m' = MovieModel.genres m
  ∧ MovieModel.actors m' = MovieModel.actors m
  ∧ MovieModel.languages m' = MovieModel.languages m.
Proof.
  intros m'. subst m'.
  split; [apply (assign_fields_column MovieModel.name "name"); [setattr_cases..|done]|].
  split; [apply (assign_fields_column MovieModel.date "date"); [setattr_cases..|done]|].
  split; [apply (assign_fields_column MovieModel.score "score"); [setattr_cases..|done]|].
  split; [apply (assign_fields_column MovieModel.overview "overview");
          [setattr_cases..|done]|].
  split; [apply (assign_fields_column MovieModel.status "status"); [setattr_cases..|done]|].
  split; [apply (assign_fields_column MovieModel.budget "budget"); [setattr_cases..|done]|].
  split; [apply (assign_fields_column MovieModel.revenue "revenue"); [setattr_cases..|done]|].
  unfold assign_fields; fold setattr_step.
  repeat split; apply foldl_setattr_frame; setattr_cases.
Qed.

(** Which fields a validated body sets: those of its keys that are fields
    of the schema. *)
Lemma validated_fields_set body u field :
  MovieUpdateSchema.model_validate body = Some u →
  field ∈ MovieUpdateSchema.model_fields_set u
  ↔ field ∈ MovieUpdateSchema.model_fields ∧ is_Some (value_get field body).
Proof.
  intros Hu. apply update_validate_inv in Hu as (-> & _).
  by rewrite list_elem_of_filter, (comm and).
Qed.

Lemma update_validate_ext l1 l2 :
  (∀ k, k ∈ MovieUpdateSchema.model_fields →
     value_get k (VDict l1) = value_get k (VDict l2)) →
  MovieUpdateSchema.model_validate (VDict l1) = MovieUpdateSchema.model_validate (VDict l2).
Proof.
  intros Hext. unfold MovieUpdateSchema.model_validate, optional, defaulted, model_type.
  cbn [mbind option_bind].
  unfold MovieUpdateSchema.model_fields in *.
  rewrite !filter_cons, !filter_nil.
  by rewrite !Hext by set_solver.
Qed.

Lemma known_keys_get k l :
  k ∈ MovieUpdateSchema.model_fields →
  value_get k (VDict (filter (λ kv, kv.1 ∈ MovieUpdateSchema.model_fields) l))
  = value_get k (VDict l).
Proof. intros Hk. simpl. rewrite dict_get_filter_keys. by rewrite decide_True. Qed.


(** C1.  For every update payload and every existing movie there is one
    assigned row: each scalar column holds the payload's value when the
    payload has the field set and the prior value when it does not, and the
    country and the three collections are the prior ones.  The update
    either commits exactly that row with 200 or leaves the store as it was
    with 400; in both cases every other movie and every lookup table is
    untouched. *)
Theorem update_assigns_exactly_present_fields movie_id u st m :
  movies st !! movie_id = Some m →
  ∃ m',
    (MovieModel.name m'
     = present "name" u (MovieUpdateSchema.dump_optional VStr (MovieUpdateSchema.name u))
         (MovieModel.name m)
     ∧ MovieModel.date m' = present "date" u VNone (MovieModel.date m)
     ∧ MovieModel.score m'
       = present "score" u
           (MovieUpdateSchema.dump_optional VFloat (MovieUpdateSchema.score u))
           (MovieModel.score m)
     ∧ MovieModel.overview m'
       = present "overview" u
           (MovieUpdateSchema.dump_optional VStr (MovieUpdateSchema.overview u))
           (MovieModel.overview m)
     ∧ MovieModel.status m'
       = present "status" u
           (MovieUpdateSchema.dump_optional VStr (MovieUpdateSchema.status u))
           (MovieModel.status m)
     ∧ MovieModel.budget m'
       = present "budget" u
           (MovieUpdateSchema.dump_optional VFloat (MovieUpdateSchema.budget u))
           (MovieModel.budget m)
     ∧ MovieModel.revenue m'
       = present "revenue" u
           (MovieUpdateSchema.dump_optional VFloat (MovieUpdateSchema.revenue u))
           (MovieModel.revenue m)
     ∧ MovieModel.country_id m' = MovieModel.country_id m
     ∧ MovieModel.genres m' = MovieModel.genres m
     ∧ MovieModel.actors m' = MovieModel.actors m
     ∧ MovieModel.languages m' = MovieModel.languages m)
    ∧ serve 200 Some (update_movie movie_id u) st
      = (if store_accepts (with_movies (<[movie_id := m']> (movies st)) st)
         then (with_movies (<[movie_id := m']> (movies st)) st, Response 200 updated_ok)
         else (st, ErrorResponse 400 "Invalid input data."))
    ∧ (∀ body, MovieUpdateSchema.model_validate body = Some u →
         route_update movie_id body st = serve 200 Some (update_movie movie_id u) st)
    ∧ ∀ st', (serve 200 Some (update_movie movie_id u) st).1 = st' →
        (∀ j, j ≠ movie_id → movies st' !! j = movies st !! j)
        ∧ countries st' = countries st ∧ genres st' = genres st
        ∧ actors st' = actors st ∧ languages st' = languages st.
Proof.
  intros Hm. exists (assign_fields m u).
  split; [by apply assign_fields_spec|].
  rewrite serve_update_run, Hm. unfold updated. simpl.
  split; [done|]. split; [by intros body Hu; unfold route_update; rewrite Hu, serve_update_run, Hm|].
  intros st' <-.
  destruct (store_accepts _); simpl; [|done].
  split; [|done]. intros j Hj. by rewrite lookup_insert_ne.
Qed.

(** C7.  When the database refuses the assigned row at commit, whatever
    its reason, the update is rolled back: the store is the one before the
    request, and the answer is the one generic 400 "Invalid input data.". *)
Theorem update_failure_rolls_back movie_id body st m u :
  movies st !! movie_id = Some m →
  MovieUpdateSchema.model_validate body = Some u →
  store_accepts (with_movies (<[movie_id := assign_fields m u]> (movies st)) st) = false →
  route_update movie_id body st = (st, ErrorResponse 400 "Invalid input data.").
Proof.
  intros Hm Hu Hfail. rewrite route_update_run, Hu, Hm. unfold updated. simpl.
  by rewrite Hfail.
Qed.

(** C10.  Keys outside the seven fields of [MovieUpdateSchema] are dropped
    without an error: the update answers and writes what it would for the
    body without them, a body holding only such keys is answered 200 and
    changes nothing, and in every case the movie keeps its country and its
    collections. *)
Theorem update_drops_unknown_keys movie_id l st m :
  movies st !! movie_id = Some m →
  let known := filter (λ kv, kv.1 ∈ MovieUpdateSchema.model_fields) l in
  route_update movie_id (VDict l) st = route_update movie_id (VDict known) st
  ∧ (known = [] → store_accepts st = true →
     route_update movie_id (VDict l) st = (st, Response 200 updated_ok))
  ∧ (∀ m', movies (route_update movie_id (VDict l) st).1 !! movie_id = Some m' →
       MovieModel.country_id m' = MovieModel.country_id m
       ∧ MovieModel.genres m' = MovieModel.genres m
       ∧ MovieModel.actors m' = MovieModel.actors m
       ∧ MovieModel.languages m' = MovieModel.languages m).
Proof.
  intros Hm known.
  assert (MovieUpdateSchema.model_validate (VDict l)
          = MovieUpdateSchema.model_validate (VDict known)) as Hsame.
  { apply update_validate_ext. intros k Hk. symmetry. by apply known_keys_get. }
  split; [|split].
  - by rewrite !route_update_run, Hsame.
  - intros Hnil Hacc. rewrite route_update_run, Hsame, Hnil, Hm. simpl.
    unfold updated, assign_fields. simpl.
    rewrite insert_id by done. rewrite with_movies_id. by rewrite Hacc.
  - intros m'. rewrite route_update_run.
    destruct (MovieUpdateSchema.model_validate (VDict l)) as [u|] eqn:Hu; simpl.
    + rewrite Hm. simpl. destruct (store_accepts _); simpl.
      * rewrite lookup_insert_eq. intros [= <-].
        by apply assign_fields_spec.
      * rewrite Hm. by intros [= <-].
    + rewrite Hm. by intros [= <-].
Qed.

Lemma update_validates_score body x :
  value_get "score" body = Some (VFloat x) →
  PrimFloat.leb 0 x && PrimFloat.leb x 100 = false →
  MovieUpdateSchema.model_validate body = None.
Proof.
  intros Hget Hrange.
  destruct (MovieUpdateSchema.model_validate body) as [u|] eqn:Hu; [|done].
  apply update_validate_inv in Hu as (_ & _ & _ & Hscore & _).
  unfold optional, defaulted in Hscore. rewrite Hget in Hscore.
  simpl in Hscore. unfold ge, le in Hscore.
  destruct (PrimFloat.leb 0 x); simpl in *; [|done].
  by rewrite Hrange in Hscore.
Qed.

(** The constraints the update schema does repeat: a present budget,
    revenue or status that breaks its constraint is refused. *)
Lemma update_validates_budget body x :
  value_get "budget" body = Some (VFloat x) →
  PrimFloat.leb 0 x = false →
  MovieUpdateSchema.model_validate body = None.
Proof.
  intros Hget Hneg.
  destruct (MovieUpdateSchema.model_validate body) as [u|] eqn:Hu; [|done].
  apply update_validate_inv in Hu as (_ & _ & _ & _ & _ & _ & Hbudget & _).
  unfold optional, defaulted in Hbudget. rewrite Hget in Hbudget.
  simpl in Hbudget. unfold ge in Hbudget. by rewrite Hneg in Hbudget.
Qed.

Lemma update_validates_revenue body x :
  value_get "revenue" body = Some (VFloat x) →
  PrimFloat.leb 0 x = false →
  MovieUpdateSchema.model_validate body = None.
Proof.
  intros Hget Hneg.
  destruct (MovieUpdateSchema.model_validate body) as [u|] eqn:Hu; [|done].
  apply update_validate_inv in Hu as (_ & _ & _ & _ & _ & _ & _ & Hrevenue).
  unfold optional, defaulted in Hrevenue. rewrite Hget in Hrevenue.
  simpl in Hrevenue. unfold ge in Hrevenue. by rewrite Hneg in Hrevenue.
Qed.

Lemma update_validates_status body s :
  value_get "status" body = Some (VStr s) →
  is_status s = false →
  MovieUpdateSchema.model_validate body = None.
Proof.
  intros Hget Hmember.
  destruct (MovieUpdateSchema.model_validate body) as [u|] eqn:Hu; [|done].
  apply update_validate_inv in Hu as (_ & _ & _ & _ & _ & Hstatus & _).
  unfold optional, defaulted in Hstatus. rewrite Hget in Hstatus.
  simpl in Hstatus. by rewrite Hmember in Hstatus.
Qed.

(** The one it does not repeat for the name: any length passes. *)
Lemma update_accepts_any_name s :
  MovieUpdateSchema.model_validate (VDict [("name", VStr s)])
  = Some (MovieUpdateSchema.mk (Some s) () None None None None None ["name"]).
Proof. reflexivity. Qed.

(** Nor a date: the field takes [None] only, so every date is refused,
    those that creation accepts included. *)
Lemma update_rejects_every_date body d :
  value_get "date" body = Some (VDate d) →
  MovieUpdateSchema.model_validate body = None.
Proof.
  intros Hget.
  destruct (MovieUpdateSchema.model_validate body) as [u|] eqn:Hu; [|done].
  apply update_validate_inv in Hu as (_ & _ & Hdate & _).
  unfold defaulted in Hdate. by rewrite Hget in Hdate.
Qed.

Lemma base_rejects_long_name src name :
  value_get "name" src = Some (VStr name) →
  (255 < String.length name)%nat →
  MovieBaseSchema.model_validate src = None.
Proof.
  intros Hget Hlen. unfold MovieBaseSchema.model_validate, required.
  rewrite Hget. simpl. unfold max_length. by rewrite (proj2 (Nat.leb_gt _ _)).
Qed.

Lemma get_movie_run movie_id st :
  get_movie movie_id (mkSession st st)
  = (mkSession st st,
     match movies st !! movie_id with
     | None => inl (HTTPException 404 "Movie with the given ID was not found.")
     | Some m =>
         match MovieDetailResponseSchema.model_validate (movie_object st movie_id m) with
         | Some detail => inr detail
         | None => inl ValidationError
         end
     end).
Proof.
  unfold get_movie. unfold mbind at 1, db_bind at 1.
  rewrite select_movie_by_id. simpl.
  destruct (movies st !! movie_id) as [m|]; simpl; [|done].
  cbv [mbind db_bind get_pending mret db_ret raise pending].
  by destruct (MovieDetailResponseSchema.model_validate _).
Qed.

Lemma route_get_run movie_id st :
  route_get movie_id st
  = (st,
     match movies st !! movie_id with
     | None => ErrorResponse 404 "Movie with the given ID was not found."
     | Some m =>
         match MovieDetailResponseSchema.model_validate (movie_object st movie_id m) with
         | Some detail => Response 200 detail
         | None => InternalServerError
         end
     end).
Proof.
  unfold route_get, serve. rewrite get_movie_run.
  destruct (movies st !! movie_id) as [m|]; [|done].
  by destruct (MovieDetailResponseSchema.model_validate _).
Qed.

(** C2, the defect.  A name of more than 255 characters, which
    [MovieBaseSchema] refuses at creation, passes [MovieUpdateSchema]: the
    update answers 200 and stores it, after which reading the movie fails
    with a 500, the detail schema refusing the row the update has just
    accepted. *)
Theorem update_accepts_name_over_255 movie_id st m name :
  movies st !! movie_id = Some m →
  (255 < String.length name)%nat →
  let m' := MovieModel.setattr m "name" (VStr name) in
  let st' := with_movies (<[movie_id := m']> (movies st)) st in
  store_accepts st' = true →
  max_length 255 name = None
  ∧ route_update movie_id (VDict [("name", VStr name)]) st = (st', Response 200 updated_ok)
  ∧ route_get movie_id st' = (st', InternalServerError).
Proof.
  intros Hm Hlen m' st' Hacc.
  assert (max_length 255 name = None) as Hmax.
  { unfold max_length. by rewrite (proj2 (Nat.leb_gt _ _)). }
  split; [done|]. split.
  - rewrite route_update_run, update_accepts_any_name, Hm.
    unfold updated, assign_fields. simpl. fold m'. fold st'. by rewrite Hacc.
  - rewrite route_get_run. simpl. rewrite lookup_insert_eq.
    unfold MovieDetailResponseSchema.model_validate, MovieResponseSchema.model_validate.
    by rewrite (base_rejects_long_name _ name).
Qed.
End update_claims.


Section invariants.
Context `{Collaborators}.

Lemma references_ok_mono st st' m :
  countries st ⊆ countries st' → genres st ⊆ genres st' →
  actors st ⊆ actors st' → languages st ⊆ languages st' →
  references_ok st m → references_ok st' m.
Proof.
  intros Hc Hg Ha Hl [Hcr Hgr Har Hlr]. constructor.
  - by eapply lookup_weaken_is_Some.
  - intros id Hid. eapply lookup_weaken_is_Some; [by apply Hgr|done].
  - intros id Hid. eapply lookup_weaken_is_Some; [by apply Har|done].
  - intros id Hid. eapply lookup_weaken_is_Some; [by apply Hlr|done].
Qed.

Lemma wf_empty : wf (mkStore ∅ ∅ ∅ ∅ ∅).
Proof.
  constructor; simpl; try apply map_Forall_empty;
    intros i j; intros; by simplify_map_eq.
Qed.

Lemma wf_add_country st c :
  wf st →
  (∀ j c', countries st !! j = Some c' → CountryModel.code c' ≠ CountryModel.code c) →
  (String.length (CountryModel.code c) ≤ 3)%nat →
  wf (with_countries (<[next_id (countries st) := c]> (countries st)) st).
Proof.
  intros Hwf Hnew Hlen. pose proof (next_id_fresh (countries st)) as Hfresh.
  destruct Hwf as [Hcodes Hclen Hg Ha Hl Hm Hcol Href].
  constructor; simpl; try done.
  - intros i j c1 c2 Hi Hj Hcode.
    apply lookup_insert_Some in Hi as [[<- <-]|[Hi1 Hi]];
      apply lookup_insert_Some in Hj as [[<- <-]|[Hj1 Hj]]; try done.
    + by apply Hnew in Hj.
    + symmetry in Hcode. by apply Hnew in Hi.
    + by eapply Hcodes.
  - by apply map_Forall_insert_2.
  - eapply map_Forall_impl; [done|]. intros i m. simpl.
    apply references_ok_mono; simpl; try done. by apply insert_subseteq.
Qed.

Lemma names_unique_insert (t : gmap nat string) name :
  names_unique t →
  (∀ j n, t !! j = Some n → n ≠ name) →
  names_unique (<[next_id t := name]> t).
Proof.
  intros Huniq Hnew i j n Hi Hj.
  apply lookup_insert_Some in Hi as [[<- <-]|[Hi1 Hi]];
    apply lookup_insert_Some in Hj as [[<- Hjn]|[Hj1 Hj]]; try done.
  - by apply Hnew in Hj.
  - by apply Hnew in Hi.
  - by eapply Huniq.
Qed.


Lemma wf_names_unique M st : lookup_model M → wf st → names_unique (rows_of M st).
Proof. intros [-> | [-> | ->]] Hwf; simpl; apply Hwf. Qed.

Lemma wf_add_named M st name :
  lookup_model M → wf st →
  (∀ j n, rows_of M st !! j = Some n → n ≠ name) →
  wf (with_rows M (<[next_id (rows_of M st) := name]> (rows_of M st)) st).
Proof.
  intros HM Hwf Hnew.
  assert (names_unique (<[next_id (rows_of M st) := name]> (rows_of M st))) as Huniq.
  { apply names_unique_insert; [|done]. by apply wf_names_unique. }
  pose proof (next_id_fresh (rows_of M st)) as Hfresh.
  destruct Hwf as [Hcodes Hclen Hg Ha Hl Hm Hcol Href].
  destruct HM as [-> | [-> | ->]]; simpl in *; constructor; simpl; try done;
    (eapply map_Forall_impl; [done|]; intros i m; simpl;
     apply references_ok_mono; simpl; try done; by apply insert_subseteq).
Qed.

Lemma wf_add_movie st m :
  wf st → columns_ok m → references_ok st m →
  (∀ j m' n d, movies st !! j = Some m' →
     same_name_and_date n d m → same_name_and_date n d m' → False) →
  wf (with_movies (<[next_id (movies st) := m]> (movies st)) st).
Proof.
  intros Hwf Hcolm Hrefm Hnew. pose proof (next_id_fresh (movies st)) as Hfresh.
  destruct Hwf as [Hcodes Hclen Hg Ha Hl Hm Hcol Href].
  constructor; simpl; try done.
  - intros i j m1 m2 n d Hi Hj H1 H2.
    apply lookup_insert_Some in Hi as [[<- <-]|[Hi1 Hi]];
      apply lookup_insert_Some in Hj as [[<- <-]|[Hj1 Hj]]; try done.
    + exfalso. by eapply (Hnew j m2 n d).
    + exfalso. by eapply (Hnew i m1 n d).
    + by eapply Hm.
  - by apply map_Forall_insert_2.
  - apply map_Forall_insert_2; [by destruct Hrefm|].
    eapply map_Forall_impl; [done|]. by intros i m' [].
Qed.
End invariants.

Lemma Forall2_lookup_is_Some (t t' : gmap nat string) ids (names : list string) :
  t ⊆ t' →
  Forall2 (λ id name, t !! id = Some name) ids names →
  set_Forall (λ id, is_Some (t' !! id)) (list_to_set ids : gset nat).
Proof.
  intros Hsub Hall. apply set_Forall_list_to_set.
  induction Hall as [|id name ids names Hid _ IH]; constructor; [|done].
  exists name. by eapply lookup_weaken.
Qed.

Section create_lemmas.
Context `{Collaborators}.
Hypothesis accepts_wf : ∀ st, wf st → store_accepts st = true.


Lemma named_step_refl s : wf (pending s) → named_step s s.
Proof. by constructor. Qed.

Lemma named_step_trans s1 s2 s3 : named_step s1 s2 → named_step s2 s3 → named_step s1 s3.
Proof.
  intros [] []. constructor; try congruence; try (etrans; done).
Qed.

Lemma named_step_rows M s s' :
  lookup_model M → named_step s s' → rows_of M (pending s) ⊆ rows_of M (pending s').
Proof. intros [-> | [-> | ->]] []; done. Qed.

Lemma select_where_run {A} (table : Store → gmap nat A) cond s :
  select_where table cond s
  = (s, inr (filter (λ row, cond row.1 row.2) (map_to_list (table (pending s))))).
Proof. done. Qed.

Lemma select_at_most_one {A} (t : gmap nat A) (P : nat * A → Prop)
    `{!∀ x, Decision (P x)} :
  (∀ i j x y, t !! i = Some x → t !! j = Some y → P (i, x) → P (j, y) → i = j) →
  filter P (map_to_list t) = []
  ∨ ∃ i x, t !! i = Some x ∧ P (i, x) ∧ filter P (map_to_list t) = [(i, x)].
Proof.
  intros Huniq. destruct (filter P (map_to_list t)) as [|[i x] rest] eqn:Hf; [by left|].
  right. exists i, x.
  assert ((i, x) ∈ filter P (map_to_list t)) as Hin by (rewrite Hf; left).
  apply list_elem_of_filter in Hin as [HP Hin]. apply elem_of_map_to_list in Hin.
  split; [done|]. split; [done|].
  rewrite <- Hf. apply select_unique; [done..|].
  intros j y Hj HPj. by eapply Huniq.
Qed.

Lemma select_empty_none {A} (t : gmap nat A) (P : nat * A → Prop)
    `{!∀ x, Decision (P x)} i x :
  filter P (map_to_list t) = [] → t !! i = Some x → ¬ P (i, x).
Proof.
  intros Hf Hi HP. eapply filter_nil_not_elem_of; [done..|].
  by apply elem_of_map_to_list.
Qed.

Lemma get_or_create_spec M name s :
  lookup_model M → wf (pending s) →
  ∃ id s', get_or_create M name s = (s', inr id)
    ∧ rows_of M (pending s') !! id = Some name
    ∧ named_step s s'.
Proof.
  intros HM Hwf. destruct s as [c p]. simpl in Hwf.
  unfold get_or_create. unfold mbind at 1, db_bind at 1.
  rewrite select_where_run. simpl pending.
  destruct (select_at_most_one (rows_of M p)
              (λ row, Is_true (String.eqb row.2 name))) as [Hnone|(i & n & Hi & Hn & Hone)].
  { intros i j x y Hi Hj Hx Hy. simpl in *.
    apply Is_true_true, String.eqb_eq in Hx, Hy. subst.
    by eapply (wf_names_unique M). }
  - rewrite Hnone.
    assert (wf (with_rows M (<[next_id (rows_of M p) := name]> (rows_of M p)) p)) as Hwf'.
    { apply wf_add_named; [done..|]. intros j n Hj ->.
      eapply select_empty_none; [done..|]. simpl. apply Is_true_true, String.eqb_refl. }
    eexists _, _. split.
    { cbv [mbind db_bind scalar_one_or_none add_named flush get_pending put_pending
           mret db_ret pending committed].
      by rewrite (accepts_wf _ Hwf'). }
    pose proof (next_id_fresh (rows_of M p)) as Hfresh.
    split.
    + destruct HM as [-> | [-> | ->]]; simpl; apply lookup_insert_eq.
    + destruct HM as [-> | [-> | ->]]; simpl in *; constructor; simpl; try done;
        by apply insert_subseteq.
  - rewrite Hone. exists i, (mkSession c p). simpl in Hn.
    apply Is_true_true, String.eqb_eq in Hn as ->.
    split; [done|]. split; [done|]. by apply named_step_refl.
Qed.

Lemma resolve_all_spec M names s :
  lookup_model M → wf (pending s) →
  ∃ ids s', resolve_all M names s = (s', inr ids)
    ∧ Forall2 (λ id name, rows_of M (pending s') !! id = Some name) ids names
    ∧ named_step s s'.
Proof.
  intros HM. revert s. induction names as [|name names IH]; intros s Hwf.
  - exists [], s. split; [done|]. split; [constructor|by apply named_step_refl].
  - destruct (get_or_create_spec M name s HM Hwf) as (id & s1 & Hrun1 & Hid & Hstep1).
    destruct (IH s1 (step_wf _ _ Hstep1)) as (ids & s2 & Hrun2 & Hids & Hstep2).
    exists (id :: ids), s2. split; [|split].
    + simpl. unfold mbind at 1, db_bind at 1. rewrite Hrun1.
      unfold mbind at 1, db_bind at 1. by rewrite Hrun2.
    + constructor; [|done].
      eapply lookup_weaken; [done|]. by apply named_step_rows.
    + by eapply named_step_trans.
Qed.

Lemma get_or_create_country_spec code c p :
  wf p → (String.length code ≤ 3)%nat →
  ∃ id p', get_or_create_country code (mkSession c p) = (mkSession c p', inr id)
    ∧ wf p'
    ∧ (∃ row, countries p' !! id = Some row ∧ CountryModel.code row = code)
    ∧ ((is_Some (countries p !! id) ∧ p' = p)
       ∨ ((∀ j row, countries p !! j = Some row → CountryModel.code row ≠ code)
          ∧ id = next_id (countries p)
          ∧ p' = with_countries (<[id := CountryModel.mk code None]> (countries p)) p)).
Proof.
  intros Hwf Hlen. unfold get_or_create_country. unfold mbind at 1, db_bind at 1.
  rewrite select_where_run. simpl pending.
  destruct (select_at_most_one (countries p)
              (λ row, Is_true (String.eqb (CountryModel.code row.2) code)))
    as [Hnone|(i & row & Hi & Hrow & Hone)].
  { intros i j x y Hi Hj Hx Hy. simpl in *.
    apply Is_true_true, String.eqb_eq in Hx, Hy. subst.
    by eapply (wf_codes _ Hwf). }
  - rewrite Hnone.
    assert (∀ j row, countries p !! j = Some row → CountryModel.code row ≠ code) as Hnew.
    { intros j row Hj Hcode. eapply select_empty_none; [done..|]. simpl.
      rewrite Hcode. apply Is_true_true, String.eqb_refl. }
    assert (wf (with_countries (<[next_id (countries p) := CountryModel.mk code None]>
                                  (countries p)) p)) as Hwf'.
    { by apply wf_add_country. }
    eexists _, _. split.
    { cbv [mbind db_bind scalar_one_or_none add_country flush get_pending put_pending
           mret db_ret pending committed].
      by rewrite (accepts_wf _ Hwf'). }
    split; [done|]. split.
    + eexists. split; [apply lookup_insert_eq|done].
    + right. done.
  - rewrite Hone. exists i, p. simpl in Hrow.
    apply Is_true_true, String.eqb_eq in Hrow.
    split; [done|]. split; [done|]. split; [by exists row|]. left. by rewrite Hi.
Qed.



Lemma create_movie_conflict movie st i m :
  movies_unique (movies st) →
  movies st !! i = Some m →
  same_name_and_date (MovieBaseSchema.name (MovieCreateSchema.base movie))
    (MovieBaseSchema.date (MovieCreateSchema.base movie)) m →
  create_movie movie (mkSession st st)
  = (mkSession st st, inl (HTTPException 409 (already_exists (MovieCreateSchema.base movie)))).
Proof.
  intros Huniq Hi Hsame. unfold create_movie. unfold mbind at 1, db_bind at 1.
  rewrite select_where_run. simpl pending.
  rewrite (select_unique _ _ i m); [done..|].
  intros j y Hj Hy. by eapply Huniq.
Qed.

Lemma create_movie_spec movie st :
  wf st →
  (String.length (MovieBaseSchema.name (MovieCreateSchema.base movie)) ≤ 255)%nat →
  is_status (MovieCreateSchema.status movie) →
  (String.length (MovieCreateSchema.country movie) ≤ 3)%nat →
  no_such_movie movie st →
  ∃ st' cid gids aids lids,
    let id := next_id (movies st) in
    let row := new_row movie cid gids aids lids in
    create_movie movie (mkSession st st)
    = (mkSession st' st', inr (movie_object st' id row))
    ∧ wf st'
    ∧ movies st' = <[id := row]> (movies st)
    ∧ (∃ c, countries st' !! cid = Some c
          ∧ CountryModel.code c = MovieCreateSchema.country movie)
    ∧ ((is_Some (countries st !! cid) ∧ countries st' = countries st)
       ∨ ((∀ j c, countries st !! j = Some c →
             CountryModel.code c ≠ MovieCreateSchema.country movie)
          ∧ cid = next_id (countries st)
          ∧ countries st'
            = <[cid := CountryModel.mk (MovieCreateSchema.country movie) None]>
                (countries st)))
    ∧ Forall2 (λ id name, genres st' !! id = Some name) gids (MovieCreateSchema.genres movie)
    ∧ Forall2 (λ id name, actors st' !! id = Some name) aids (MovieCreateSchema.actors movie)
    ∧ Forall2 (λ id name, languages st' !! id = Some name) lids
        (MovieCreateSchema.languages movie)
    ∧ genres st ⊆ genres st' ∧ actors st ⊆ actors st' ∧ languages st ⊆ languages st'.
Proof.
  intros Hwf Hname Hstatus Hcode Hnew.
  destruct (get_or_create_country_spec (MovieCreateSchema.country movie) st st Hwf Hcode)
    as (cid & p1 & Hrun1 & Hwf1 & Hcid & Hcountries).
  destruct (resolve_all_spec GenreModel (MovieCreateSchema.genres movie) (mkSession st p1))
    as (gids & s2 & Hrun2 & Hgids & Hstep2); [by left|done|].
  destruct (resolve_all_spec ActorModel (MovieCreateSchema.actors movie) s2)
    as (aids & s3 & Hrun3 & Haids & Hstep3); [by right; left|apply Hstep2|].
  destruct (resolve_all_spec LanguageModel (MovieCreateSchema.languages movie) s3)
    as (lids & s4 & Hrun4 & Hlids & Hstep4); [by right; right|apply Hstep3|].
  pose proof (named_step_trans _ _ _ Hstep2 (named_step_trans _ _ _ Hstep3 Hstep4)) as Hstep.
  destruct s4 as [c4 p4]. destruct Hstep as [Hc4 Hm4 Hco4 Hg4 Ha4 Hl4 Hwf4]. simpl in *.
  subst c4.
  assert (movies p1 = movies st ∧ genres st ⊆ genres p1 ∧ actors st ⊆ actors p1
          ∧ languages st ⊆ languages p1) as (Hm1 & Hg1 & Ha1 & Hl1).
  { by destruct Hcountries as [[_ ->]|(_ & _ & ->)]. }
  set (row := new_row movie cid gids aids lids).
  set (st' := with_movies (<[next_id (movies p4) := row]> (movies p4)) p4).
  assert (wf st') as Hwf'.
  { apply wf_add_movie; [done| | |].
    - constructor; simpl; eauto.
    - constructor; simpl.
      + rewrite Hco4. destruct Hcid as (c & -> & _). by eexists.
      + eapply Forall2_lookup_is_Some; [|apply Hgids].
        etrans; [apply (step_genres _ _ Hstep3)|apply (step_genres _ _ Hstep4)].
      + eapply Forall2_lookup_is_Some; [|apply Haids]. apply (step_actors _ _ Hstep4).
      + by eapply Forall2_lookup_is_Some; [|apply Hlids].
    - intros j m' n d Hj Hrow Hm'. rewrite Hm4, Hm1 in Hj.
      unfold row, new_row, same_name_and_date, eq_str, eq_date in Hrow. simpl in Hrow.
      apply andb_True in Hrow as [Hn Hd].
      apply Is_true_true, String.eqb_eq in Hn. apply Is_true_true, Z.eqb_eq in Hd.
      subst. by eapply Hnew. }
  exists st', cid, gids, aids, lids. simpl.
  split; [|split; [done|]].
  - unfold create_movie. unfold mbind at 1, db_bind at 1.
    rewrite select_where_run. simpl pending.
    rewrite select_none; [|intros j m Hj; simpl; by apply (Hnew j m)].
    unfold mbind at 1, db_bind at 1. simpl scalar_one_or_none.
    unfold mret at 1, db_ret at 1.
    unfold mbind at 1, db_bind at 1. rewrite Hrun1.
    unfold mbind at 1, db_bind at 1. rewrite Hrun2.
    unfold mbind at 1, db_bind at 1. rewrite Hrun3.
    unfold mbind at 1, db_bind at 1. rewrite Hrun4.
    fold (new_row movie cid gids aids lids). fold row.
    cbv [mbind db_bind add_movie commit refresh get_pending put_pending
         mret db_ret raise pending committed].
    fold st'. rewrite (accepts_wf _ Hwf').
    unfold st' at 1. simpl. rewrite lookup_insert_eq.
    by rewrite <- Hm1, <- Hm4.
  - split; [unfold st'; simpl; by rewrite Hm4, Hm1|].
    unfold st'. simpl. rewrite Hco4.
    split; [done|]. split.
    { destruct Hcountries as [[? ->]|(? & ? & ->)]; [by left|right; done]. }
    split.
    { eapply Forall2_impl; [apply Hgids|]. intros id name Hid.
      eapply lookup_weaken; [exact Hid|].
      etrans; [apply (step_genres _ _ Hstep3)|apply (step_genres _ _ Hstep4)]. }
    split.
    { eapply Forall2_impl; [apply Haids|]. intros id name Hid.
      eapply lookup_weaken; [exact Hid|]. apply (step_actors _ _ Hstep4). }
    split; [done|].
    split; [by etrans|]. split; by etrans.
Qed.
End create_lemmas.


Section validation.
Context `{Collaborators}.

Lemma max_length_Some n s s' : max_length n s = Some s' → s' = s ∧ (String.length s ≤ n)%nat.
Proof.
  unfold max_length. destruct (String.length s <=? n)%nat eqn:Hlen; [|done].
  intros [= <-]. split; [done|]. by apply Nat.leb_le.
Qed.

Lemma max_length_le n s : (String.length s ≤ n)%nat → max_length n s = Some s.
Proof. intros Hlen. unfold max_length. by rewrite (proj2 (Nat.leb_le _ _) Hlen). Qed.

Lemma date_not_too_far_Some d d' :
  MovieBaseSchema.date_not_too_far d = Some d' → d' = d ∧ d ≤ today + 365.
Proof.
  unfold MovieBaseSchema.date_not_too_far. destruct (d >? today + 365) eqn:Hd; [done|].
  intros [= <-]. split; [done|]. lia.
Qed.

Lemma date_not_too_far_le d : d ≤ today + 365 → MovieBaseSchema.date_not_too_far d = Some d.
Proof.
  intros Hd. unfold MovieBaseSchema.date_not_too_far.
  destruct (d >? today + 365) eqn:Hgt; [lia|done].
Qed.

Lemma ge_Some b x x' : ge b x = Some x' → x' = x ∧ PrimFloat.leb b x = true.
Proof. unfold ge. destruct (PrimFloat.leb b x); [|done]. by intros [= <-]. Qed.

Lemma le_Some b x x' : le b x = Some x' → x' = x ∧ PrimFloat.leb x b = true.
Proof. unfold le. destruct (PrimFloat.leb x b); [|done]. by intros [= <-]. Qed.


Lemma base_validate_inv src b :
  MovieBaseSchema.model_validate src = Some b → base_valid b.
Proof.
  unfold MovieBaseSchema.model_validate, required.
  destruct (value_get "name" src ≫= _) as [name|] eqn:Hname; [|done].
  destruct (value_get "date" src ≫= _) as [date|] eqn:Hdate; [|done].
  destruct (value_get "score" src ≫= _) as [score|] eqn:Hscore; [|done].
  destruct (value_get "overview" src ≫= _) as [overview|] eqn:Hover; [|done].
  simpl. intros [= <-].
  apply bind_Some in Hname as (v1 & _ & Hname).
  apply bind_Some in Hname as (s1 & _ & Hname). apply max_length_Some in Hname as [-> Hname].
  apply bind_Some in Hdate as (v2 & _ & Hdate).
  apply bind_Some in Hdate as (d2 & _ & Hdate).
  apply date_not_too_far_Some in Hdate as [-> Hdate].
  apply bind_Some in Hscore as (v3 & _ & Hscore).
  apply bind_Some in Hscore as (x3 & _ & Hscore).
  apply bind_Some in Hscore as (x4 & Hge & Hle).
  apply ge_Some in Hge as [-> Hge]. apply le_Some in Hle as [-> Hle].
  by constructor.
Qed.

Lemma base_validate_object st id b status budget revenue cid gids aids lids :
  base_valid b →
  MovieBaseSchema.model_validate
    (movie_object st id
       (MovieModel.mk (VStr (MovieBaseSchema.name b)) (VDate (MovieBaseSchema.date b))
          (VFloat (MovieBaseSchema.score b)) (VStr (MovieBaseSchema.overview b))
          status budget revenue cid gids aids lids))
  = Some b.
Proof.
  intros [Hname Hdate Hge Hle]. unfold MovieBaseSchema.model_validate, required. simpl.
  rewrite max_length_le by done. simpl.
  rewrite date_not_too_far_le by done. simpl.
  unfold ge, le. rewrite Hge. simpl. rewrite Hle. simpl. by destruct b.
Qed.


Lemma create_validate_inv body movie :
  MovieCreateSchema.model_validate body = Some movie → create_valid movie.
Proof.
  unfold MovieCreateSchema.model_validate.
  destruct (MovieBaseSchema.model_validate body) as [base|] eqn:Hbase; [|done].
  apply base_validate_inv in Hbase. unfold required, defaulted.
  destruct (value_get "status" body ≫= _) as [status|] eqn:Hstatus; [|done].
  destruct (value_get "budget" body ≫= _) as [budget|] eqn:Hbudget; [|done].
  destruct (value_get "revenue" body ≫= _) as [revenue|] eqn:Hrevenue; [|done].
  destruct (value_get "country" body ≫= _) as [country|] eqn:Hcountry; [|done].
  simpl.
  destruct (match value_get "genres" body with Some v => _ | None => _ end); [|done].
  destruct (match value_get "actors" body with Some v => _ | None => _ end); [|done].
  destruct (match value_get "languages" body with Some v => _ | None => _ end); [|done].
  simpl. intros [= <-]. constructor; simpl; [done|..].
  - apply bind_Some in Hstatus as (v & _ & Hstatus). unfold enum_type in Hstatus.
    destruct v; try done. destruct (is_status s) eqn:Hs; [|done]. by injection Hstatus as <-.
  - apply bind_Some in Hbudget as (v & _ & Hbudget).
    apply bind_Some in Hbudget as (x & _ & Hbudget). by apply ge_Some in Hbudget as [-> ?].
  - apply bind_Some in Hrevenue as (v & _ & Hrevenue).
    apply bind_Some in Hrevenue as (x & _ & Hrevenue). by apply ge_Some in Hrevenue as [-> ?].
  - apply bind_Some in Hcountry as (v & _ & Hcountry).
    apply bind_Some in Hcountry as (x & _ & Hcountry).
    by apply max_length_Some in Hcountry as [-> ?].
Qed.
End validation.

Section detail.
Context `{Collaborators}.

Lemma genres_validate (t : gmap nat string) (ids : list nat) :
  mapM GenreResponse.model_validate (omap (λ id, named_object id <$> t !! id) ids)
  = Some (omap (λ id, GenreResponse.mk (Z.of_nat id) <$> t !! id) ids).
Proof.
  induction ids as [|id ids IH]; [done|].
  cbn. destruct (t !! id) as [name|]; cbn; [|done]. by rewrite IH.
Qed.

Lemma actors_validate (t : gmap nat string) (ids : list nat) :
  mapM ActorResponse.model_validate (omap (λ id, named_object id <$> t !! id) ids)
  = Some (omap (λ id, ActorResponse.mk (Z.of_nat id) <$> t !! id) ids).
Proof.
  induction ids as [|id ids IH]; [done|].
  cbn. destruct (t !! id) as [name|]; cbn; [|done]. by rewrite IH.
Qed.

Lemma languages_validate (t : gmap nat string) (ids : list nat) :
  mapM LanguageResponse.model_validate (omap (λ id, named_object id <$> t !! id) ids)
  = Some (omap (λ id, LanguageResponse.mk (Z.of_nat id) <$> t !! id) ids).
Proof.
  induction ids as [|id ids IH]; [done|].
  cbn. destruct (t !! id) as [name|]; cbn; [|done]. by rewrite IH.
Qed.

Lemma genre_names (t : gmap nat string) (ids : list nat) :
  GenreResponse.name <$> omap (λ id, GenreResponse.mk (Z.of_nat id) <$> t !! id) ids
  = omap (λ id, t !! id) ids.
Proof.
  induction ids as [|id ids IH]; [done|].
  cbn. destruct (t !! id) as [name|]; cbn; by rewrite IH.
Qed.

Lemma actor_names (t : gmap nat string) (ids : list nat) :
  ActorResponse.name <$> omap (λ id, ActorResponse.mk (Z.of_nat id) <$> t !! id) ids
  = omap (λ id, t !! id) ids.
Proof.
  induction ids as [|id ids IH]; [done|].
  cbn. destruct (t !! id) as [name|]; cbn; by rewrite IH.
Qed.

Lemma language_names (t : gmap nat string) (ids : list nat) :
  LanguageResponse.name <$> omap (λ id, LanguageResponse.mk (Z.of_nat id) <$> t !! id) ids
  = omap (λ id, t !! id) ids.
Proof.
  induction ids as [|id ids IH]; [done|].
  cbn. destruct (t !! id) as [name|]; cbn; by rewrite IH.
Qed.

Lemma NoDup_omap_inj {A B} (f : A → option B) (l : list A) :
  NoDup l →
  (∀ x y z, x ∈ l → y ∈ l → f x = Some z → f y = Some z → x = y) →
  NoDup (omap f l).
Proof.
  intros Hl. induction Hl as [|x l Hx Hl IH]; intros Hinj; [constructor|].
  cbn. destruct (f x) as [z|] eqn:Hz.
  - constructor.
    + intros Hin. apply list_elem_of_omap in Hin as (y & Hy & Hfy).
      assert (x = y) as -> by (eapply Hinj; [left|by right|done..]). done.
    + apply IH. intros a b c Ha Hb. apply Hinj; by right.
  - apply IH. intros a b c Ha Hb. apply Hinj; by right.
Qed.

(** The names of the rows a movie is linked to, as a loaded collection
    shows them: the names the links were made from, each once. *)
Lemma linked_names (t : gmap nat string) gids names :
  names_unique t →
  Forall2 (λ id name, t !! id = Some name) gids names →
  omap (λ id, t !! id) (linked_order (list_to_set gids)) ≡ₚ remove_dups names.
Proof.
  intros Huniq Hall. rewrite linked_order_elements. apply NoDup_Permutation.
  - apply NoDup_omap_inj; [apply NoDup_elements|].
    intros x y z _ _ Hx Hy. by eapply Huniq.
  - apply NoDup_remove_dups.
  - intros n. rewrite list_elem_of_omap, elem_of_remove_dups. split.
    + intros (id & Hid & Hn).
      apply elem_of_elements, elem_of_list_to_set, list_elem_of_lookup in Hid as [i Hi].
      destruct (Forall2_lookup_l _ _ _ _ _ Hall Hi) as (n' & Hn' & Ht).
      apply (list_elem_of_lookup_2 _ i). congruence.
    + intros Hn. apply list_elem_of_lookup in Hn as [i Hi].
      destruct (Forall2_lookup_r _ _ _ _ _ Hall Hi) as (id & Hid & Ht).
      exists id. split; [|done].
      apply elem_of_elements, elem_of_list_to_set. by eapply list_elem_of_lookup_2.
Qed.

Lemma country_validate id c :
  CountryResponse.model_validate (country_object id c)
  = Some (CountryResponse.mk (Z.of_nat id) (CountryModel.code c) (CountryModel.name c)).
Proof.
  unfold CountryResponse.model_validate, required, country_object. simpl.
  by destruct (CountryModel.name c).
Qed.

Lemma detail_of_created st id movie cid c gids aids lids :
  create_valid movie →
  countries st !! cid = Some c →
  MovieDetailResponseSchema.model_validate
    (movie_object st id (new_row movie cid gids aids lids))
  = Some (MovieDetailResponseSchema.mk
            (MovieResponseSchema.mk (MovieCreateSchema.base movie) (Z.of_nat id))
            (MovieCreateSchema.status movie)
            (MovieCreateSchema.budget movie)
            (MovieCreateSchema.revenue movie)
            (CountryResponse.mk (Z.of_nat cid) (CountryModel.code c) (CountryModel.name c))
            (omap (λ id, GenreResponse.mk (Z.of_nat id) <$> genres st !! id)
               (linked_order (list_to_set gids)))
            (omap (λ id, ActorResponse.mk (Z.of_nat id) <$> actors st !! id)
               (linked_order (list_to_set aids)))
            (omap (λ id, LanguageResponse.mk (Z.of_nat id) <$> languages st !! id)
               (linked_order (list_to_set lids)))).
Proof.
  intros [Hbase Hstatus Hbudget Hrevenue Hcountry] Hc.
  unfold MovieDetailResponseSchema.model_validate, MovieResponseSchema.model_validate.
  unfold new_row. rewrite base_validate_object by done.
  unfold required, movie_object, related.
  cbn [MovieModel.genres MovieModel.actors MovieModel.languages].
  simpl. rewrite Hstatus. simpl. rewrite Hc. simpl.
  rewrite genres_validate, actors_validate, languages_validate.
  simpl. by rewrite country_validate.
Qed.

Lemma summary_of_created st id movie cid gids aids lids :
  create_valid movie →
  MovieResponseSchema.model_validate (movie_object st id (new_row movie cid gids aids lids))
  = Some (MovieResponseSchema.mk (MovieCreateSchema.base movie) (Z.of_nat id)).
Proof.
  intros [Hbase _ _ _ _]. unfold MovieResponseSchema.model_validate, new_row.
  by rewrite base_validate_object.
Qed.
End detail.


Section create_claims.
Context `{Collaborators}.

(** C4.  A creation payload whose name and date are those of a stored
    movie is answered 409 and nothing is written: the store, lookup tables
    included, is the one before the request. *)
Theorem create_duplicate_is_conflict body movie st i m :
  movies_unique (movies st) →
  MovieCreateSchema.model_validate body = Some movie →
  movies st !! i = Some m →
  MovieModel.name m = VStr (MovieBaseSchema.name (MovieCreateSchema.base movie)) →
  MovieModel.date m = VDate (MovieBaseSchema.date (MovieCreateSchema.base movie)) →
  route_create body st
  = (st, ErrorResponse 409 (already_exists (MovieCreateSchema.base movie))).
Proof.
  intros Huniq Hbody Hi Hname Hdate. unfold route_create, serve. rewrite Hbody.
  rewrite (create_movie_conflict movie st i m); [done..|].
  unfold same_name_and_date, eq_str, eq_date. rewrite Hname, Hdate.
  by rewrite String.eqb_refl, Z.eqb_refl.
Qed.

Hypothesis accepts_wf : ∀ st, wf st → store_accepts st = true.

Lemma route_create_success body movie st :
  wf st →
  MovieCreateSchema.model_validate body = Some movie →
  no_such_movie movie st →
  ∃ st' cid gids aids lids,
    let id := next_id (movies st) in
    let row := new_row movie cid gids aids lids in
    route_create body st
    = (st', Response 201 (MovieResponseSchema.mk (MovieCreateSchema.base movie) (Z.of_nat id)))
    ∧ wf st'
    ∧ movies st' = <[id := row]> (movies st)
    ∧ (∃ c, countries st' !! cid = Some c
          ∧ CountryModel.code c = MovieCreateSchema.country movie)
    ∧ ((is_Some (countries st !! cid) ∧ countries st' = countries st)
       ∨ ((∀ j c, countries st !! j = Some c →
             CountryModel.code c ≠ MovieCreateSchema.country movie)
          ∧ cid = next_id (countries st)
          ∧ countries st'
            = <[cid := CountryModel.mk (MovieCreateSchema.country movie) None]>
                (countries st)))
    ∧ Forall2 (λ id name, genres st' !! id = Some name) gids (MovieCreateSchema.genres movie)
    ∧ Forall2 (λ id name, actors st' !! id = Some name) aids (MovieCreateSchema.actors movie)
    ∧ Forall2 (λ id name, languages st' !! id = Some name) lids
        (MovieCreateSchema.languages movie)
    ∧ genres st ⊆ genres st' ∧ actors st ⊆ actors st' ∧ languages st ⊆ languages st'.
Proof.
  intros Hwf Hbody Hnew. pose proof (create_validate_inv _ _ Hbody) as Hvalid.
  destruct (create_movie_spec accepts_wf movie st) as (st' & cid & gids & aids & lids & Hrun & Hrest);
    [done|apply Hvalid|apply Is_true_true, Hvalid|apply Hvalid|done|].
  exists st', cid, gids, aids, lids. simpl in *. split; [|done].
  unfold route_create, serve. rewrite Hbody, Hrun. simpl.
  by rewrite summary_of_created.
Qed.

(** C3, amended.  For every valid creation payload with no stored movie
    of the same name and date, creation answers 201 with the summary of the
    committed movie: its name, date, score and overview and a fresh id, and
    no nested entity.  The resolved country, genres, actors and languages
    are linked to the stored movie: reading it by that id answers 200 with
    them nested, the country by its code and each collection with the
    names of the payload, every name once however often the payload lists
    it, in the order the database returns the linked rows. *)
Theorem create_returns_summary_of_committed_movie body movie st :
  wf st →
  MovieCreateSchema.model_validate body = Some movie →
  no_such_movie movie st →
  ∃ st' id resp detail,
    route_create body st = (st', Response 201 resp)
    ∧ movies st !! id = None
    ∧ is_Some (movies st' !! id)
    ∧ MovieResponseSchema.model_dump resp
      = [("name", VStr (MovieBaseSchema.name (MovieCreateSchema.base movie)));
         ("date", VDate (MovieBaseSchema.date (MovieCreateSchema.base movie)));
         ("score", VFloat (MovieBaseSchema.score (MovieCreateSchema.base movie)));
         ("overview", VStr (MovieBaseSchema.overview (MovieCreateSchema.base movie)));
         ("id", VInt (Z.of_nat id))]
    ∧ route_get id st' = (st', Response 200 detail)
    ∧ MovieDetailResponseSchema.base detail = resp
    ∧ MovieDetailResponseSchema.status detail = MovieCreateSchema.status movie
    ∧ MovieDetailResponseSchema.budget detail = MovieCreateSchema.budget movie
    ∧ MovieDetailResponseSchema.revenue detail = MovieCreateSchema.revenue movie
    ∧ CountryResponse.code (MovieDetailResponseSchema.country detail)
      = MovieCreateSchema.country movie
    ∧ GenreResponse.name <$> MovieDetailResponseSchema.genres detail
      ≡ₚ remove_dups (MovieCreateSchema.genres movie)
    ∧ ActorResponse.name <$> MovieDetailResponseSchema.actors detail
      ≡ₚ remove_dups (MovieCreateSchema.actors movie)
    ∧ LanguageResponse.name <$> MovieDetailResponseSchema.languages detail
      ≡ₚ remove_dups (MovieCreateSchema.languages movie).
Proof.
  intros Hwf Hbody Hnew.
  destruct (route_create_success body movie st Hwf Hbody Hnew)
    as (st' & cid & gids & aids & lids & Hrun & Hwf' & Hmovies & (c & Hc & Hcode)
        & _ & Hg & Ha & Hl & _).
  simpl in *. eexists st', (next_id (movies st)), _, _.
  split; [done|]. split; [apply next_id_fresh|].
  split; [rewrite Hmovies, lookup_insert_eq; by eexists|].
  split; [done|]. split.
  { rewrite route_get_run, Hmovies, lookup_insert_eq.
    erewrite detail_of_created; [done|by eapply create_validate_inv|done]. }
  simpl. split_and!; try done.
  - rewrite genre_names. apply linked_names; [apply Hwf'|done].
  - rewrite actor_names. apply linked_names; [apply Hwf'|done].
  - rewrite language_names. apply linked_names; [apply Hwf'|done].
Qed.

(** C6.  The country of a created movie is found or made by its code: when
    no country has the code, exactly one row is added, at a fresh id, with
    the code and no display name, and the movie refers to it; when one has
    it, the movie refers to that row and the country table is unchanged.
    A second creation with the same code therefore leaves the table as the
    first one left it. *)
Theorem create_gets_or_creates_country body movie st :
  wf st →
  MovieCreateSchema.model_validate body = Some movie →
  no_such_movie movie st →
  ∃ st' resp id row,
    route_create body st = (st', Response 201 resp)
    ∧ movies st !! id = None
    ∧ movies st' !! id = Some row
    ∧ ((∀ j c, countries st !! j = Some c →
          CountryModel.code c ≠ MovieCreateSchema.country movie) →
       countries st !! MovieModel.country_id row = None
       ∧ countries st'
         = <[MovieModel.country_id row
               := CountryModel.mk (MovieCreateSchema.country movie) None]> (countries st))
    ∧ (∀ j c, countries st !! j = Some c →
         CountryModel.code c = MovieCreateSchema.country movie →
         MovieModel.country_id row = j ∧ countries st' = countries st)
    ∧ (∀ body2 movie2,
         MovieCreateSchema.model_validate body2 = Some movie2 →
         MovieCreateSchema.country movie2 = MovieCreateSchema.country movie →
         no_such_movie movie2 st' →
         ∃ st'' resp2,
           route_create body2 st' = (st'', Response 201 resp2)
           ∧ countries st'' = countries st').
Proof.
  intros Hwf Hbody Hnew.
  destruct (route_create_success body movie st Hwf Hbody Hnew)
    as (st' & cid & gids & aids & lids & Hrun & Hwf' & Hmovies & (c & Hc & Hcode)
        & Hcases & _).
  simpl in *. eexists st', _, (next_id (movies st)), _.
  split; [done|]. split; [apply next_id_fresh|].
  split; [by rewrite Hmovies, lookup_insert_eq|]. simpl.
  split; [|split].
  - intros Hnone. destruct Hcases as [[_ Hsame]|(_ & -> & ->)].
    + rewrite Hsame in Hc. by apply Hnone in Hc.
    + split; [apply next_id_fresh|done].
  - intros j c' Hj Hcode'. destruct Hcases as [[_ Hsame]|(Hnone & _)].
    + split; [|done]. rewrite Hsame in Hc.
      eapply (wf_codes _ Hwf); [done..|]. congruence.
    + by apply Hnone in Hj.
  - intros body2 movie2 Hbody2 Hsame Hnew2.
    destruct (route_create_success body2 movie2 st' Hwf' Hbody2 Hnew2)
      as (st'' & cid2 & ? & ? & ? & Hrun2 & _ & _ & _ & Hcases2 & _).
    simpl in *. eexists st'', _. split; [done|].
    destruct Hcases2 as [[_ ?]|(Hnone & _)]; [done|].
    apply Hnone in Hc. congruence.
Qed.
End create_claims.

Section delete_claims.
Context `{Collaborators}.


Lemma route_delete_run movie_id st :
  route_delete movie_id st
  = match movies st !! movie_id with
    | None => (st, ErrorResponse 404 movie_not_found)
    | Some _ =>
        let st' := with_movies (delete movie_id (movies st)) st in
        if store_accepts st' then (st', Response 204 ()) else (st, InternalServerError)
    end.
Proof.
  unfold route_delete, serve, delete_movie. unfold mbind at 1, db_bind at 1.
  rewrite select_movie_by_id. simpl.
  destruct (movies st !! movie_id) as [m|]; simpl; [|done].
  cbv [mbind db_bind delete_movie_row commit get_pending put_pending mret db_ret
       pending committed].
  by destruct (store_accepts _).
Qed.

Lemma movie_object_tables st st' id m :
  countries st' = countries st → genres st' = genres st →
  actors st' = actors st → languages st' = languages st →
  movie_object st' id m = movie_object st id m.
Proof. intros Hc Hg Ha Hl. unfold movie_object. by rewrite Hc, Hg, Ha, Hl. Qed.

(** C9.  Deleting an id no movie has answers 404 and changes nothing.
    Otherwise the deletion, when the database takes it, answers 204 and
    removes the movie's row with its collections, and only that: every
    other movie and every country, genre, actor and language row stays,
    reading the deleted id answers 404, and reading any other movie answers
    what it did before. *)
Theorem delete_removes_only_the_movie movie_id st :
  match movies st !! movie_id with
  | None => route_delete movie_id st = (st, ErrorResponse 404 movie_not_found)
  | Some _ =>
      let st' := with_movies (delete movie_id (movies st)) st in
      route_delete movie_id st
      = (if store_accepts st' then (st', Response 204 ()) else (st, InternalServerError))
      ∧ route_get movie_id st' = (st', ErrorResponse 404 movie_not_found)
      ∧ (∀ j, j ≠ movie_id → movies st' !! j = movies st !! j)
      ∧ countries st' = countries st ∧ genres st' = genres st
      ∧ actors st' = actors st ∧ languages st' = languages st
      ∧ (∀ j, j ≠ movie_id → (route_get j st').2 = (route_get j st).2)
  end.
Proof.
  pose proof (route_delete_run movie_id st) as Hrun.
  destruct (movies st !! movie_id) as [m|] eqn:Hm; [|done].
  simpl in *. split; [done|]. split.
  { rewrite route_get_run. simpl. by rewrite lookup_delete_eq. }
  split; [intros j Hj; by rewrite lookup_delete_ne|].
  repeat split; try done.
  intros j Hj. rewrite !route_get_run. simpl. rewrite lookup_delete_ne by done.
  destruct (movies st !! j) as [m'|]; [|done].
  by rewrite (movie_object_tables st).
Qed.
End delete_claims.

(** * Further properties of the handlers and schemas *)

Section get_facts.
Context `{Collaborators}.

Lemma base_validate_get src b :
  MovieBaseSchema.model_validate src = Some b →
  value_get "name" src = Some (VStr (MovieBaseSchema.name b))
  ∧ value_get "date" src = Some (VDate (MovieBaseSchema.date b))
  ∧ float_type <$> value_get "score" src = Some (Some (MovieBaseSchema.score b))
  ∧ value_get "overview" src = Some (VStr (MovieBaseSchema.overview b)).
Proof.
  unfold MovieBaseSchema.model_validate, required.
  destruct (value_get "name" src) as [[| | |s0| | |]|]; try done. simpl.
  destruct (max_length 255 _) as [n|] eqn:Hn; [|done].
  apply max_length_Some in Hn as [-> _]. simpl.
  destruct (value_get "date" src) as [[| | | |d0| |]|]; try done. simpl.
  destruct (MovieBaseSchema.date_not_too_far _) as [d|] eqn:Hd; [|done].
  apply date_not_too_far_Some in Hd as [-> _]. simpl.
  destruct (value_get "score" src) as [v|]; [|done]. simpl.
  destruct (float_type v) as [x|]; [|done]. simpl.
  destruct (ge 0 x) as [x'|] eqn:Hge; [|done]. apply ge_Some in Hge as [-> _]. simpl.
  destruct (le 100 x) as [x'|] eqn:Hle; [|done]. apply le_Some in Hle as [-> _]. simpl.
  destruct (value_get "overview" src) as [[| | |o| | |]|]; try done. simpl.
  by intros [= <-].
Qed.

Lemma detail_validate_inv st movie_id m detail :
  MovieDetailResponseSchema.model_validate (movie_object st movie_id m) = Some detail →
  let summary := MovieDetailResponseSchema.base detail in
  let base := MovieResponseSchema.base summary in
  MovieResponseSchema.id summary = Z.of_nat movie_id
  ∧ MovieModel.name m = VStr (MovieBaseSchema.name base)
  ∧ MovieModel.date m = VDate (MovieBaseSchema.date base)
  ∧ float_type (MovieModel.score m) = Some (MovieBaseSchema.score base)
  ∧ MovieModel.overview m = VStr (MovieBaseSchema.overview base)
  ∧ MovieModel.status m = VStr (MovieDetailResponseSchema.status detail)
  ∧ float_type (MovieModel.budget m) = Some (MovieDetailResponseSchema.budget detail)
  ∧ float_type (MovieModel.revenue m) = Some (MovieDetailResponseSchema.revenue detail)
  ∧ (∃ c, countries st !! MovieModel.country_id m = Some c
        ∧ MovieDetailResponseSchema.country detail
          = CountryResponse.mk (Z.of_nat (MovieModel.country_id m))
              (CountryModel.code c) (CountryModel.name c))
  ∧ list_type GenreResponse.model_validate (related (genres st) (MovieModel.genres m))
    = Some (MovieDetailResponseSchema.genres detail)
  ∧ list_type ActorResponse.model_validate (related (actors st) (MovieModel.actors m))
    = Some (MovieDetailResponseSchema.actors detail)
  ∧ list_type LanguageResponse.model_validate (related (languages st) (MovieModel.languages m))
    = Some (MovieDetailResponseSchema.languages detail).
Proof.
  unfold MovieDetailResponseSchema.model_validate, MovieResponseSchema.model_validate.
  destruct (MovieBaseSchema.model_validate _) as [b|] eqn:Hb; [|done].
  apply base_validate_get in Hb as (Hname & Hdate & Hscore & Hoverview).
  simpl in Hname, Hdate, Hscore, Hoverview.
  injection Hname as Hname. injection Hdate as Hdate. injection Hscore as Hscore.
  injection Hoverview as Hoverview.
  unfold required. cbn [movie_object value_get dict_get String.eqb Ascii.eqb Bool.eqb
                         mbind option_bind].
  unfold enum_type. destruct (MovieModel.status m) as [| | |s| | |] eqn:Hs; try done.
  destruct (is_status s); [|done]. cbn [mbind option_bind].
  destruct (float_type (MovieModel.budget m)); [|done]. cbn [mbind option_bind].
  destruct (float_type (MovieModel.revenue m)); [|done]. cbn [mbind option_bind].
  destruct (countries st !! MovieModel.country_id m) as [c|] eqn:Hc; [|done].
  cbn [from_option]. rewrite country_validate. cbn [mbind option_bind].
  destruct (list_type GenreResponse.model_validate _); [|done]. cbn [mbind option_bind].
  destruct (list_type ActorResponse.model_validate _); [|done]. cbn [mbind option_bind].
  destruct (list_type LanguageResponse.model_validate _); [|done]. cbn [mbind option_bind].
  intros [= <-]. simpl. split_and!; try done. by exists c.
Qed.

Lemma route_get_inv movie_id st detail :
  (route_get movie_id st).2 = Response 200 detail →
  ∃ m, movies st !! movie_id = Some m
    ∧ MovieDetailResponseSchema.model_validate (movie_object st movie_id m) = Some detail.
Proof.
  rewrite route_get_run. simpl.
  destruct (movies st !! movie_id) as [m|]; [|done].
  destruct (MovieDetailResponseSchema.model_validate _) as [d|] eqn:Hd; [|done].
  intros [= ->]. by exists m.
Qed.

(** X14.  Reading a movie writes nothing, answers 404 exactly when no
    movie has the id, and a 200 carries the requested id, the name, date,
    overview and status of the stored row and the country row it refers
    to. *)
Theorem get_reads_the_stored_row movie_id st :
  (route_get movie_id st).1 = st
  ∧ ((route_get movie_id st).2 = ErrorResponse 404 movie_not_found
     ↔ movies st !! movie_id = None)
  ∧ ∀ detail, (route_get movie_id st).2 = Response 200 detail →
      let summary := MovieDetailResponseSchema.base detail in
      let base := MovieResponseSchema.base summary in
      ∃ m c, movies st !! movie_id = Some m
        ∧ countries st !! MovieModel.country_id m = Some c
        ∧ MovieResponseSchema.id summary = Z.of_nat movie_id
        ∧ MovieModel.name m = VStr (MovieBaseSchema.name base)
        ∧ MovieModel.date m = VDate (MovieBaseSchema.date base)
        ∧ float_type (MovieModel.score m) = Some (MovieBaseSchema.score base)
        ∧ MovieModel.overview m = VStr (MovieBaseSchema.overview base)
        ∧ MovieModel.status m = VStr (MovieDetailResponseSchema.status detail)
        ∧ float_type (MovieModel.budget m) = Some (MovieDetailResponseSchema.budget detail)
        ∧ float_type (MovieModel.revenue m) = Some (MovieDetailResponseSchema.revenue detail)
        ∧ MovieDetailResponseSchema.country detail
          = CountryResponse.mk (Z.of_nat (MovieModel.country_id m))
              (CountryModel.code c) (CountryModel.name c).
Proof.
  split; [by rewrite route_get_run|]. split.
  - rewrite route_get_run. simpl. destruct (movies st !! movie_id) as [m|]; [|done].
    by destruct (MovieDetailResponseSchema.model_validate _).
  - intros detail Hrun. apply route_get_inv in Hrun as (m & Hm & Hdetail).
    apply detail_validate_inv in Hdetail
      as (Hid & Hname & Hdate & Hscore & Hoverview & Hstatus & Hbudget & Hrevenue
          & (c & Hc & Hcountry) & _).
    cbn zeta. by exists m, c.
Qed.
End get_facts.

Section schema_facts.
Context `{Collaborators}.

Lemma str_type_Some v s : str_type v = Some s → v = VStr s.
Proof. destruct v; try done. by intros [= ->]. Qed.

Lemma list_of_str_Some v names :
  list_type str_type v = Some names → v = VList (VStr <$> names).
Proof.
  destruct v as [| | | | |l|]; try done. simpl. intros Hl. f_equal.
  apply mapM_Some in Hl. induction Hl as [|v s l names Hv _ IH]; [done|].
  apply str_type_Some in Hv as ->. simpl. by rewrite IH.
Qed.

Lemma defaulted_list_Some body k names :
  defaulted body k [] (list_type str_type) = Some names →
  from_option (λ v, v = VList (VStr <$> names)) (names = []) (value_get k body).
Proof.
  unfold defaulted. destruct (value_get k body) as [v|]; simpl.
  - apply list_of_str_Some.
  - by intros [= <-].
Qed.

(** X7.  A summary that is dumped and validated again comes back
    unchanged exactly when its fields are within the constraints of
    [MovieBaseSchema]. *)
Theorem summary_round_trip r :
  MovieResponseSchema.model_validate (VDict (MovieResponseSchema.model_dump r)) = Some r
  ↔ base_valid (MovieResponseSchema.base r).
Proof.
  destruct r as [[name date score overview] id].
  unfold MovieResponseSchema.model_validate, MovieBaseSchema.model_validate, required.
  simpl. split.
  - intros Hr.
    destruct (max_length 255 name) as [n|] eqn:Hn; [|done].
    apply max_length_Some in Hn as [-> Hn]. simpl in Hr.
    destruct (MovieBaseSchema.date_not_too_far date) as [d|] eqn:Hd; [|done].
    apply date_not_too_far_Some in Hd as [-> Hd]. simpl in Hr.
    destruct (ge 0 score) as [x|] eqn:Hge; [|done]. apply ge_Some in Hge as [-> Hge].
    simpl in Hr.
    destruct (le 100 score) as [x|] eqn:Hle; [|done]. apply le_Some in Hle as [-> Hle].
    by constructor.
  - intros [Hn Hd Hge Hle]. simpl in *.
    rewrite max_length_le by done. simpl.
    rewrite date_not_too_far_le by done. simpl.
    unfold ge, le. rewrite Hge. simpl. by rewrite Hle.
Qed.

Lemma create_validate_get body movie :
  MovieCreateSchema.model_validate body = Some movie →
  let base := MovieCreateSchema.base movie in
  value_get "name" body = Some (VStr (MovieBaseSchema.name base))
  ∧ value_get "date" body = Some (VDate (MovieBaseSchema.date base))
  ∧ float_type <$> value_get "score" body = Some (Some (MovieBaseSchema.score base))
  ∧ value_get "overview" body = Some (VStr (MovieBaseSchema.overview base))
  ∧ value_get "status" body = Some (VStr (MovieCreateSchema.status movie))
  ∧ float_type <$> value_get "budget" body = Some (Some (MovieCreateSchema.budget movie))
  ∧ float_type <$> value_get "revenue" body = Some (Some (MovieCreateSchema.revenue movie))
  ∧ value_get "country" body = Some (VStr (MovieCreateSchema.country movie))
  ∧ from_option (λ v, v = VList (VStr <$> MovieCreateSchema.genres movie))
      (MovieCreateSchema.genres movie = []) (value_get "genres" body)
  ∧ from_option (λ v, v = VList (VStr <$> MovieCreateSchema.actors movie))
      (MovieCreateSchema.actors movie = []) (value_get "actors" body)
  ∧ from_option (λ v, v = VList (VStr <$> MovieCreateSchema.languages movie))
      (MovieCreateSchema.languages movie = []) (value_get "languages" body).
Proof.
  intros Hbody base. subst base.
  revert Hbody. unfold MovieCreateSchema.model_validate.
  destruct (MovieBaseSchema.model_validate body) as [b|] eqn:Hb; [|done].
  apply base_validate_get in Hb as (Hname & Hdate & Hscore & Hoverview).
  cbn [mbind option_bind]. unfold required.
  destruct (value_get "status" body) as [vs|]; [|done]. cbn [mbind option_bind].
  unfold enum_type at 1. destruct vs as [| | |s| | |]; try done.
  destruct (is_status s); [|done]. cbn [mbind option_bind].
  destruct (value_get "budget" body) as [vb|]; [|done]. cbn [mbind option_bind].
  destruct (float_type vb) as [xb|] eqn:Hfb; [|done]. cbn [mbind option_bind].
  destruct (ge 0 xb) as [xb'|] eqn:Hge; [|done]. apply ge_Some in Hge as [-> _].
  cbn [mbind option_bind].
  destruct (value_get "revenue" body) as [vr|]; [|done]. cbn [mbind option_bind].
  destruct (float_type vr) as [xr|] eqn:Hfr; [|done]. cbn [mbind option_bind].
  destruct (ge 0 xr) as [xr'|] eqn:Hge; [|done]. apply ge_Some in Hge as [-> _].
  cbn [mbind option_bind].
  destruct (value_get "country" body) as [vc|]; [|done]. cbn [mbind option_bind].
  destruct vc as [| | |c| | |]; try done. cbn [str_type mbind option_bind].
  destruct (max_length 3 c) as [c'|] eqn:Hc; [|done]. apply max_length_Some in Hc as [-> _].
  cbn [mbind option_bind].
  destruct (defaulted body "genres" _ _) as [gs|] eqn:Hgs; [|done].
  destruct (defaulted body "actors" _ _) as [acs|] eqn:Has; [|done].
  destruct (defaulted body "languages" _ _) as [ls|] eqn:Hls; [|done].
  cbn [mbind option_bind]. intros [= <-]. simpl.
  apply defaulted_list_Some in Hgs, Has, Hls. rewrite Hfb, Hfr. done.
Qed.

(** X6.  The eight scalar fields of a creation payload are required: a
    body that lacks one of them is refused. *)
Theorem create_schema_requires_keys body k :
  k ∈ ["name"; "date"; "score"; "overview"; "status"; "budget"; "revenue"; "country"] →
  value_get k body = None →
  MovieCreateSchema.model_validate body = None.
Proof.
  intros Hk Hnone.
  destruct (MovieCreateSchema.model_validate body) as [movie|] eqn:Hbody; [|done].
  apply create_validate_get in Hbody
    as (Hname & Hdate & Hscore & Hoverview & Hstatus & Hbudget & Hrevenue & Hcountry & _).
  repeat (apply elem_of_cons in Hk as [->|Hk]); [..|by apply elem_of_nil in Hk];
    by rewrite Hnone in *.
Qed.

(** X5.  What [MovieCreateSchema] returns is what the body holds, within
    the constraints: name, date, overview, status and country are the
    body's values, score, budget and revenue its numbers as floats, each
    collection is the body's list of texts or empty when the key is
    absent, and the name is at most 255 characters, the date at most a
    year ahead, the score in [0,100], the status a member of the enum,
    budget and revenue non-negative and the country at most 3
    characters. *)
Theorem create_schema_sound body movie :
  MovieCreateSchema.model_validate body = Some movie →
  let base := MovieCreateSchema.base movie in
  create_valid movie
  ∧ value_get "name" body = Some (VStr (MovieBaseSchema.name base))
  ∧ value_get "date" body = Some (VDate (MovieBaseSchema.date base))
  ∧ float_type <$> value_get "score" body = Some (Some (MovieBaseSchema.score base))
  ∧ value_get "overview" body = Some (VStr (MovieBaseSchema.overview base))
  ∧ value_get "status" body = Some (VStr (MovieCreateSchema.status movie))
  ∧ float_type <$> value_get "budget" body = Some (Some (MovieCreateSchema.budget movie))
  ∧ float_type <$> value_get "revenue" body = Some (Some (MovieCreateSchema.revenue movie))
  ∧ value_get "country" body = Some (VStr (MovieCreateSchema.country movie))
  ∧ from_option (λ v, v = VList (VStr <$> MovieCreateSchema.genres movie))
      (MovieCreateSchema.genres movie = []) (value_get "genres" body)
  ∧ from_option (λ v, v = VList (VStr <$> MovieCreateSchema.actors movie))
      (MovieCreateSchema.actors movie = []) (value_get "actors" body)
  ∧ from_option (λ v, v = VList (VStr <$> MovieCreateSchema.languages movie))
      (MovieCreateSchema.languages movie = []) (value_get "languages" body).
Proof.
  intros Hbody base. split; [by eapply create_validate_inv|].
  by apply create_validate_get.
Qed.
End schema_facts.

Section list_pages.
Context `{Collaborators}.

Lemma StronglySorted_lookup_lt {A} (R : relation A) l i j x y :
  StronglySorted R l → (i < j)%nat → l !! i = Some x → l !! j = Some y → R x y.
Proof.
  intros Hl. revert i j. induction Hl as [|z l Hl IH Hz]; intros i j Hij Hi Hj; [done|].
  destruct j as [|j]; [lia|]. simpl in Hj.
  destruct i as [|i]; simpl in Hi.
  - injection Hi as <-. rewrite Forall_forall in Hz. apply Hz.
    by eapply list_elem_of_lookup_2.
  - eapply (IH i j); [lia|done..].
Qed.

Lemma page_of_lookup st page per_page k row :
  1 ≤ page → 1 ≤ per_page →
  page_of st page per_page !! k = Some row →
  (k < Z.to_nat per_page)%nat
  ∧ order_by_id_desc (map_to_list (movies st)) !! (Z.to_nat (per_page * (page - 1)) + k)%nat
    = Some row.
Proof.
  intros Hp Hs. unfold page_of. intros Hk.
  apply lookup_take_Some in Hk as [Hk Hlt]. split; [done|].
  by rewrite lookup_drop in Hk.
Qed.

Lemma listed_summary page per_page st pg a :
  1 ≤ page → 1 ≤ per_page ≤ 20 →
  route_list (Some page) (Some per_page) st = (st, Response 200 pg) →
  a ∈ MoviesPage.movies pg →
  ∃ k row, page_of st page per_page !! k = Some row
    ∧ MovieResponseSchema.model_validate (movie_object st row.1 row.2) = Some a.
Proof.
  intros Hp Hs Hrun Ha.
  destruct (decide (page_of st page per_page = [])) as [Hnil|Hne].
  { by rewrite route_list_not_found in Hrun. }
  rewrite route_list_found in Hrun by done.
  destruct (mapM _ _) as [summaries|] eqn:Hm; [|done].
  injection Hrun as <-. simpl in Ha. apply mapM_Some in Hm.
  apply list_elem_of_lookup in Ha as [k Hk].
  destruct (Forall2_lookup_r _ _ _ _ _ Hm Hk) as (row & Hrow & Hvalid).
  by exists k, row.
Qed.

(** X3.  Pages do not overlap and follow the order: every movie of an
    earlier page has a greater id than every movie of a later page. *)
Theorem list_pages_descend p q per_page st pg1 pg2 a b :
  1 ≤ p → p < q → 1 ≤ per_page ≤ 20 →
  route_list (Some p) (Some per_page) st = (st, Response 200 pg1) →
  route_list (Some q) (Some per_page) st = (st, Response 200 pg2) →
  a ∈ MoviesPage.movies pg1 → b ∈ MoviesPage.movies pg2 →
  MovieResponseSchema.id a > MovieResponseSchema.id b.
Proof.
  intros Hp Hpq Hs Hrun1 Hrun2 Ha Hb.
  destruct (listed_summary p per_page st pg1 a) as (k1 & row1 & Hk1 & Hv1); [lia|done..|].
  destruct (listed_summary q per_page st pg2 b) as (k2 & row2 & Hk2 & Hv2); [lia|done..|].
  apply summary_id in Hv1, Hv2. rewrite Hv1, Hv2.
  apply page_of_lookup in Hk1 as [Hlt1 Hk1]; [|lia..].
  apply page_of_lookup in Hk2 as [Hlt2 Hk2]; [|lia..].
  assert (newer row1 row2) as Hnewer.
  { eapply (StronglySorted_lookup_lt newer); [apply catalog_sorted| |done..]. nia. }
  unfold newer in Hnewer. lia.
Qed.

(** X2.  The metadata of a returned page: total_items is the catalog's
    size, total_pages is its ceiling quotient by per_page, a returned page
    is never beyond the last one, prev_page is absent exactly on page 1 and
    next_page exactly on the last page, and the pages the two links name
    are not answered 404. *)
Theorem list_pagination_metadata page per_page st pg :
  1 ≤ page → 1 ≤ per_page ≤ 20 →
  route_list (Some page) (Some per_page) st = (st, Response 200 pg) →
  let total := Z.of_nat (size (movies st)) in
  let pages := MoviesPage.total_pages pg in
  MoviesPage.total_items pg = total
  ∧ (pages - 1) * per_page < total ≤ pages * per_page
  ∧ page ≤ pages
  ∧ MoviesPage.prev_page pg
    = (if decide (page = 1) then None else Some (page_link (page - 1) per_page))
  ∧ MoviesPage.next_page pg
    = (if decide (page = pages) then None else Some (page_link (page + 1) per_page))
  ∧ (page ≠ 1 →
     (route_list (Some (page - 1)) (Some per_page) st).2
     ≠ ErrorResponse 404 "No movies found.")
  ∧ (page ≠ pages →
     (route_list (Some (page + 1)) (Some per_page) st).2
     ≠ ErrorResponse 404 "No movies found.").
Proof.
  intros Hp Hs Hrun total pages.
  destruct (decide (page_of st page per_page = [])) as [Hnil|Hne].
  { by rewrite route_list_not_found in Hrun. }
  pose proof Hne as Hin. rewrite page_of_nil in Hin by lia.
  rewrite route_list_found in Hrun by done.
  destruct (mapM _ _) as [summaries|]; [|done].
  injection Hrun as <-. subst pages total. simpl.
  pose proof (Z.div_mod (Z.of_nat (size (movies st)) + per_page - 1) per_page) as Hdiv.
  pose proof (Z.mod_pos_bound (Z.of_nat (size (movies st)) + per_page - 1) per_page) as Hmod.
  set (n := (Z.of_nat (size (movies st)) + per_page - 1) `div` per_page) in *.
  assert (page ≤ n) by nia.
  assert (∀ q, 1 ≤ q ≤ n →
            (route_list (Some q) (Some per_page) st).2
            ≠ ErrorResponse 404 "No movies found.") as Hfound.
  { intros q Hq. rewrite route_list_found; [by destruct (mapM _ _)|lia..|].
    rewrite page_of_nil by lia. nia. }
  split; [done|]. split; [nia|]. split; [done|]. split; [|split; [|split]].
  - destruct (decide (page = 1)) as [->|]; [done|].
    by rewrite (proj2 (Z.gtb_gt _ _)) by lia.
  - destruct (decide (page = n)) as [->|].
    + by rewrite Z.ltb_irrefl.
    + by rewrite (proj2 (Z.ltb_lt _ _)) by lia.
  - intros Hfirst. apply Hfound. lia.
  - intros Hlast. apply Hfound. lia.
Qed.

(** X1.  The listing's query parameters are bounded: a page below 1 or a
    per_page outside [1,20] is answered 422 and the handler does not run;
    an omitted page is page 1 and an omitted per_page is 10. *)
Theorem list_query_bounds page per_page st :
  (∀ p s, p < 1 ∨ s < 1 ∨ 20 < s →
     route_list (Some p) (Some s) st = (st, UnprocessableEntity))
  ∧ route_list None per_page st = route_list (Some 1) per_page st
  ∧ route_list page None st = route_list page (Some 10) st.
Proof.
  split; [|split].
  - intros p s Hout. unfold route_list, Query. simpl.
    destruct (1 <=? p) eqn:Hp1; simpl; [|done].
    destruct (1 <=? s) eqn:Hs1; simpl; [|done].
    destruct (s <=? 20) eqn:Hs20; simpl; [|done]. lia.
  - done.
  - done.
Qed.
End list_pages.

Section list_coverage.
Context `{Collaborators}.

(** X4.  Every stored movie is listed: for each per_page in [1,20] some
    page, answered 200, holds its summary. *)
Theorem list_reaches_every_movie i m per_page st :
  1 ≤ per_page ≤ 20 →
  movies st !! i = Some m →
  map_Forall (λ id m, is_Some (MovieResponseSchema.model_validate (movie_object st id m)))
    (movies st) →
  ∃ page pg s,
    1 ≤ page
    ∧ route_list (Some page) (Some per_page) st = (st, Response 200 pg)
    ∧ s ∈ MoviesPage.movies pg
    ∧ MovieResponseSchema.model_validate (movie_object st i m) = Some s.
Proof.
  intros Hs Hi Hok.
  apply catalog_elem_of, list_elem_of_lookup in Hi as [k Hk].
  set (n := Z.to_nat per_page).
  assert (0 < n)%nat as Hn by lia.
  set (page := Z.of_nat (k `div` n) + 1).
  assert (page_of st page per_page !! (k `mod` n)%nat = Some (i, m)) as Hrow.
  { unfold page_of. fold n. rewrite lookup_take_lt by (apply Nat.mod_upper_bound; lia).
    rewrite lookup_drop. rewrite <- Hk. f_equal.
    replace (Z.to_nat (per_page * (page - 1))) with (n * (k `div` n))%nat by (subst page n; nia).
    symmetry. apply Nat.div_mod_eq. }
  assert (page_of st page per_page ≠ []) as Hne.
  { intros Hnil. by rewrite Hnil in Hrow. }
  exists page. rewrite route_list_found by (done || lia).
  destruct (mapM _ _) as [summaries|] eqn:Hm.
  - apply mapM_Some in Hm.
    destruct (Forall2_lookup_l _ _ _ _ _ Hm Hrow) as (s & Hsum & Hvalid).
    eexists _, s. split; [lia|]. split; [done|]. simpl.
    split; [by eapply list_elem_of_lookup_2|done].
  - exfalso. apply mapM_None in Hm. apply Exists_exists in Hm as ([j m'] & Hin & Hnone).
    assert (movies st !! j = Some m') as Hj.
    { apply catalog_elem_of. by eapply elem_of_slice. }
    apply Hok in Hj. simpl in *. rewrite Hnone in Hj. by destruct Hj.
Qed.
End list_coverage.

Section create_atomicity.
Context `{Collaborators}.

Lemma keeps_bind {A B} (c : db A) (f : A → db B) :
  keeps_committed c → (∀ a, keeps_committed (f a)) → keeps_committed (c ≫= f).
Proof.
  intros Hc Hf s s' r. unfold mbind, db_bind.
  destruct (c s) as [s1 [e|a]] eqn:Hrun.
  - intros [= <- <-]. by eapply Hc.
  - intros Hrun'. apply Hf in Hrun'. apply Hc in Hrun. congruence.
Qed.

Lemma keeps_ret {A} (a : A) : keeps_committed (mret a).
Proof. by intros s s' r [= <- <-]. Qed.

Lemma keeps_raise {A} e : keeps_committed (@raise A e).
Proof. by intros s s' r [= <- <-]. Qed.

Lemma keeps_get_pending : keeps_committed get_pending.
Proof. by intros s s' r [= <- <-]. Qed.

Lemma keeps_put_pending st : keeps_committed (put_pending st).
Proof. by intros s s' r [= <- <-]. Qed.

Lemma keeps_flush : keeps_committed flush.
Proof. intros s s' r. unfold flush. by destruct (store_accepts _); intros [= <- <-]. Qed.

Lemma keeps_select_where {A} (table : Store → gmap nat A) cond :
  keeps_committed (select_where table cond).
Proof. by intros s s' r [= <- <-]. Qed.

Lemma keeps_scalar_one_or_none {A} (rows : list A) :
  keeps_committed (scalar_one_or_none rows).
Proof. destruct rows as [|x [|y rows]]; by intros s s' r [= <- <-]. Qed.

Lemma keeps_get_or_create M name : keeps_committed (get_or_create M name).
Proof.
  unfold get_or_create.
  apply keeps_bind; [apply keeps_select_where|]. intros rows.
  apply keeps_bind; [apply keeps_scalar_one_or_none|]. intros [row|].
  - apply keeps_ret.
  - unfold add_named.
    repeat (apply keeps_bind; [|intros ?]);
      auto using keeps_get_pending, keeps_put_pending, keeps_flush, keeps_ret.
Qed.

Lemma keeps_resolve_all M names : keeps_committed (resolve_all M names).
Proof.
  induction names as [|name names IH]; simpl; [apply keeps_ret|].
  apply keeps_bind; [apply keeps_get_or_create|]. intros id.
  apply keeps_bind; [done|]. intros ids. apply keeps_ret.
Qed.

Lemma keeps_get_or_create_country code : keeps_committed (get_or_create_country code).
Proof.
  unfold get_or_create_country.
  apply keeps_bind; [apply keeps_select_where|]. intros rows.
  apply keeps_bind; [apply keeps_scalar_one_or_none|]. intros [row|].
  - apply keeps_ret.
  - unfold add_country.
    repeat (apply keeps_bind; [|intros ?]);
      auto using keeps_get_pending, keeps_put_pending, keeps_flush, keeps_ret.
Qed.

Lemma create_run_cases body st st' resp :
  route_create body st = (st', resp) →
  st' = st
  ∨ ∃ movie id, MovieCreateSchema.model_validate body = Some movie
      ∧ resp = Response 201
                 (MovieResponseSchema.mk (MovieCreateSchema.base movie) (Z.of_nat id))
      ∧ is_Some (movies st' !! id).
Proof.
  unfold route_create.
  destruct (MovieCreateSchema.model_validate body) as [movie|] eqn:Hbody;
    [|intros [= <- <-]; by left].
  pose proof (create_validate_inv _ _ Hbody) as Hvalid.
  unfold serve, create_movie.
  unfold mbind at 1, db_bind at 1. rewrite select_where_run.
  unfold mbind at 1, db_bind at 1.
  destruct (scalar_one_or_none _ _) as [s0 [e|existing]] eqn:Hscalar.
  { apply keeps_scalar_one_or_none in Hscalar. simpl in Hscalar.
    destruct e; intros [= <- <-]; by left. }
  apply keeps_scalar_one_or_none in Hscalar. simpl in Hscalar.
  destruct existing as [row|]; [intros [= <- <-]; by left|].
  unfold mbind at 1, db_bind at 1.
  destruct (get_or_create_country _ s0) as [s1 [e|cid]] eqn:Hrun1;
    apply keeps_get_or_create_country in Hrun1.
  { destruct e; intros [= <- <-]; left; congruence. }
  unfold mbind at 1, db_bind at 1.
  destruct (resolve_all GenreModel _ s1) as [s2 [e|gids]] eqn:Hrun2;
    apply keeps_resolve_all in Hrun2.
  { destruct e; intros [= <- <-]; left; congruence. }
  unfold mbind at 1, db_bind at 1.
  destruct (resolve_all ActorModel _ s2) as [s3 [e|aids]] eqn:Hrun3;
    apply keeps_resolve_all in Hrun3.
  { destruct e; intros [= <- <-]; left; congruence. }
  unfold mbind at 1, db_bind at 1.
  destruct (resolve_all LanguageModel _ s3) as [s4 [e|lids]] eqn:Hrun4;
    apply keeps_resolve_all in Hrun4.
  { destruct e; intros [= <- <-]; left; congruence. }
  assert (committed s4 = st) as Hs4 by congruence.
  fold (new_row movie cid gids aids lids).
  destruct s4 as [c4 p4]. simpl in Hs4. subst c4.
  cbv [mbind db_bind add_movie commit refresh get_pending put_pending
       mret db_ret raise pending committed].
  destruct (store_accepts _) eqn:Hacc; [|intros [= <- <-]; by left].
  cbn [movies with_movies]. rewrite lookup_insert_eq, summary_of_created by done.
  intros [= <- <-]. right. exists movie, (next_id (movies p4)).
  split; [done|]. split; [done|]. simpl. rewrite lookup_insert_eq. by eexists.
Qed.
(** X8.  Creation is all or nothing, on every store and whatever the
    database refuses: either the store is the one before the request, rows
    flushed for the country, genres, actors and languages included, or the
    answer is 201 with the summary of the payload and the movie is stored
    under the returned id.  No error leaves rows behind. *)
Theorem create_all_or_nothing body st :
  (route_create body st).1 = st
  ∨ ∃ movie id,
      MovieCreateSchema.model_validate body = Some movie
      ∧ (route_create body st).2
        = Response 201 (MovieResponseSchema.mk (MovieCreateSchema.base movie) (Z.of_nat id))
      ∧ is_Some (movies (route_create body st).1 !! id).
Proof.
  destruct (route_create body st) as [st' resp] eqn:Hrun.
  apply create_run_cases in Hrun as [->|(movie & id & Hbody & -> & Hid)]; [by left|].
  right. by exists movie, id.
Qed.
End create_atomicity.

Section create_outcomes.
Context `{Collaborators}.

Lemma get_or_create_step M name s s' r :
  lookup_model M → wf (pending s) →
  get_or_create M name s = (s', r) →
  named_step s s'
  ∧ (r = inl DBAPIError ∨ ∃ id, r = inr id ∧ rows_of M (pending s') !! id = Some name).
Proof.
  intros HM Hwf. destruct s as [c p]. simpl in Hwf.
  unfold get_or_create. unfold mbind at 1, db_bind at 1.
  rewrite select_where_run. simpl pending.
  destruct (select_at_most_one (rows_of M p)
              (λ row, Is_true (String.eqb row.2 name))) as [Hnone|(i & n & Hi & Hn & Hone)].
  { intros i j x y Hi Hj Hx Hy. simpl in *.
    apply Is_true_true, String.eqb_eq in Hx, Hy. subst.
    by eapply (wf_names_unique M). }
  - rewrite Hnone.
    assert (wf (with_rows M (<[next_id (rows_of M p) := name]> (rows_of M p)) p)) as Hwf'.
    { apply wf_add_named; [done..|]. intros j n Hj ->.
      eapply select_empty_none; [done..|]. simpl. apply Is_true_true, String.eqb_refl. }
    assert (named_step (mkSession c p)
              (mkSession c (with_rows M (<[next_id (rows_of M p) := name]> (rows_of M p)) p)))
      as Hstep.
    { pose proof (next_id_fresh (rows_of M p)) as Hfresh.
      destruct HM as [-> | [-> | ->]]; simpl in *; constructor; simpl; try done;
        by apply insert_subseteq. }
    cbv [mbind db_bind scalar_one_or_none add_named flush get_pending put_pending
         mret db_ret pending committed].
    destruct (store_accepts _); intros [= <- <-]; (split; [done|]); [|by left].
    right. eexists. split; [done|].
    destruct HM as [-> | [-> | ->]]; simpl; apply lookup_insert_eq.
  - rewrite Hone. simpl. intros [= <- <-]. split; [by apply named_step_refl|].
    right. exists i. split; [done|]. simpl in Hn.
    by apply Is_true_true, String.eqb_eq in Hn as ->.
Qed.

Lemma resolve_all_step M names s s' r :
  lookup_model M → wf (pending s) →
  resolve_all M names s = (s', r) →
  named_step s s'
  ∧ (r = inl DBAPIError
     ∨ ∃ ids, r = inr ids
         ∧ Forall2 (λ id name, rows_of M (pending s') !! id = Some name) ids names).
Proof.
  intros HM. revert s s' r. induction names as [|name names IH]; intros s s' r Hwf.
  - intros [= <- <-]. split; [by apply named_step_refl|]. right. by exists [].
  - simpl. unfold mbind at 1, db_bind at 1.
    destruct (get_or_create M name s) as [s1 r1] eqn:Hrun1.
    apply get_or_create_step in Hrun1 as [Hstep1 Hr1]; [|done..].
    destruct Hr1 as [->|(id & -> & Hid)]; [intros [= <- <-]; split; [done|by left]|].
    unfold mbind at 1, db_bind at 1.
    destruct (resolve_all M names s1) as [s2 r2] eqn:Hrun2.
    apply IH in Hrun2 as [Hstep2 Hr2]; [|apply Hstep1].
    destruct Hr2 as [->|(ids & -> & Hids)]; intros [= <- <-];
      (split; [by eapply named_step_trans|]); [by left|].
    right. exists (id :: ids). split; [done|]. constructor; [|done].
    eapply lookup_weaken; [done|].
    destruct HM as [-> | [-> | ->]]; apply Hstep2.
Qed.

Lemma with_rows_rows_of M t st : lookup_model M → rows_of M (with_rows M t st) = t.
Proof. by intros [-> | [-> | ->]]. Qed.

Lemma with_rows_id M st : lookup_model M → with_rows M (rows_of M st) st = st.
Proof. intros [-> | [-> | ->]]; by destruct st. Qed.

Lemma with_rows_twice M t t' st :
  lookup_model M → with_rows M t' (with_rows M t st) = with_rows M t' st.
Proof. by intros [-> | [-> | ->]]. Qed.

Lemma only_adds_refl {A} (new : A → Prop) t : only_adds new t t.
Proof. intros j x Hj. by left. Qed.

Lemma only_adds_trans {A} (new1 new2 new : A → Prop) t1 t2 t3 :
  (∀ x, new1 x → new x) → (∀ x, new2 x → new x) →
  only_adds new1 t1 t2 → only_adds new2 t2 t3 → only_adds new t1 t3.
Proof.
  intros H1 H2 H12 H23 j x Hj.
  destruct (H23 j x Hj) as [Hj2|Hnew]; [|right; by apply H2].
  destruct (H12 j x Hj2) as [Hj1|Hnew]; [by left|right; by apply H1].
Qed.

Lemma get_or_create_rows M name s s' r :
  lookup_model M →
  get_or_create M name s = (s', r) →
  ∃ t', pending s' = with_rows M t' (pending s)
    ∧ only_adds (λ n, n = name) (rows_of M (pending s)) t'.
Proof.
  intros HM. destruct s as [c p].
  unfold get_or_create. unfold mbind at 1, db_bind at 1.
  rewrite select_where_run. simpl pending.
  destruct (filter _ _) as [|row [|row' rest]].
  - cbv [mbind db_bind scalar_one_or_none add_named flush get_pending put_pending
         mret db_ret pending committed].
    destruct (store_accepts _); intros [= <- <-]; simpl; eexists; (split; [done|]);
      intros j n Hj; (apply lookup_insert_Some in Hj as [[_ <-]|[_ Hj]]; [by right|by left]).
  - simpl. intros [= <- <-]. exists (rows_of M p). simpl.
    split; [by rewrite with_rows_id|apply only_adds_refl].
  - simpl. intros [= <- <-]. exists (rows_of M p). simpl.
    split; [by rewrite with_rows_id|apply only_adds_refl].
Qed.

Lemma resolve_all_rows M names s s' r :
  lookup_model M →
  resolve_all M names s = (s', r) →
  ∃ t', pending s' = with_rows M t' (pending s)
    ∧ only_adds (λ n, n ∈ names) (rows_of M (pending s)) t'.
Proof.
  intros HM. revert s s' r. induction names as [|name names IH]; intros s s' r.
  - intros [= <- <-]. exists (rows_of M (pending s)).
    split; [by rewrite with_rows_id|apply only_adds_refl].
  - simpl. unfold mbind at 1, db_bind at 1.
    destruct (get_or_create M name s) as [s1 r1] eqn:Hrun1.
    apply get_or_create_rows in Hrun1 as (t1 & Hp1 & Ht1); [|done].
    assert (only_adds (λ n, n ∈ name :: names) (rows_of M (pending s)) t1) as Ht1'.
    { intros j n Hj. destruct (Ht1 j n Hj) as [?| ->]; [by left|right; left]. }
    destruct r1 as [e|id]; [intros [= <- <-]; by exists t1|].
    unfold mbind at 1, db_bind at 1.
    destruct (resolve_all M names s1) as [s2 r2] eqn:Hrun2.
    apply IH in Hrun2 as (t2 & Hp2 & Ht2).
    rewrite Hp1, with_rows_twice in Hp2 by done.
    rewrite Hp1, with_rows_rows_of in Ht2 by done.
    assert (only_adds (λ n, n ∈ name :: names) (rows_of M (pending s)) t2) as Ht2'.
    { eapply only_adds_trans; [| |exact Ht1|exact Ht2]; simpl.
      - intros n ->. left.
      - intros n Hn. by right. }
    destruct r2; intros [= <- <-]; by exists t2.
Qed.

Lemma get_or_create_country_rows code c p s' r :
  get_or_create_country code (mkSession c p) = (s', r) →
  ∃ t', pending s' = with_countries t' p
    ∧ only_adds (λ row, row = CountryModel.mk code None) (countries p) t'.
Proof.
  unfold get_or_create_country. unfold mbind at 1, db_bind at 1.
  rewrite select_where_run. simpl pending.
  destruct (filter _ _) as [|row [|row' rest]].
  - cbv [mbind db_bind scalar_one_or_none add_country flush get_pending put_pending
         mret db_ret pending committed].
    destruct (store_accepts _); intros [= <- <-]; simpl; eexists; (split; [done|]);
      intros j n Hj; (apply lookup_insert_Some in Hj as [[_ <-]|[_ Hj]]; [by right|by left]).
  - simpl. intros [= <- <-]. exists (countries p). simpl.
    split; [by destruct p|apply only_adds_refl].
  - simpl. intros [= <- <-]. exists (countries p). simpl.
    split; [by destruct p|apply only_adds_refl].
Qed.

Lemma get_or_create_country_step code c p s' r :
  wf p → (String.length code ≤ 3)%nat →
  get_or_create_country code (mkSession c p) = (s', r) →
  committed s' = c ∧ wf (pending s')
  ∧ movies (pending s') = movies p ∧ countries p ⊆ countries (pending s')
  ∧ genres (pending s') = genres p ∧ actors (pending s') = actors p
  ∧ languages (pending s') = languages p
  ∧ (r = inl DBAPIError
     ∨ ∃ id row, r = inr id ∧ countries (pending s') !! id = Some row
         ∧ CountryModel.code row = code).
Proof.
  intros Hwf Hlen. unfold get_or_create_country. unfold mbind at 1, db_bind at 1.
  rewrite select_where_run. simpl pending.
  destruct (select_at_most_one (countries p)
              (λ row, Is_true (String.eqb (CountryModel.code row.2) code)))
    as [Hnone|(i & row & Hi & Hrow & Hone)].
  { intros i j x y Hi Hj Hx Hy. simpl in *.
    apply Is_true_true, String.eqb_eq in Hx, Hy. subst.
    by eapply (wf_codes _ Hwf). }
  - rewrite Hnone.
    assert (wf (with_countries (<[next_id (countries p) := CountryModel.mk code None]>
                                  (countries p)) p)) as Hwf'.
    { apply wf_add_country; [done| |done]. intros j row Hj Hcode.
      eapply select_empty_none; [done..|]. simpl.
      rewrite Hcode. apply Is_true_true, String.eqb_refl. }
    pose proof (next_id_fresh (countries p)) as Hfresh.
    cbv [mbind db_bind scalar_one_or_none add_country flush get_pending put_pending
         mret db_ret pending committed].
    destruct (store_accepts _); intros [= <- <-]; simpl;
      (split; [done|]); (split; [done|]); (split; [done|]);
      (split; [by apply insert_subseteq|]); (split; [done|]); (split; [done|]);
      (split; [done|]); [|by left].
    right. eexists _, _. split; [done|]. by rewrite lookup_insert_eq.
  - rewrite Hone. simpl. intros [= <- <-]. simpl. repeat (split; [done|]).
    right. exists i, row. split; [done|]. split; [done|]. simpl in Hrow.
    by apply Is_true_true, String.eqb_eq in Hrow.
Qed.

Lemma route_create_outcome body movie st :
  wf st →
  MovieCreateSchema.model_validate body = Some movie →
  create_outcome movie st (route_create body st).
Proof.
  intros Hwf Hbody. pose proof (create_validate_inv _ _ Hbody) as Hvalid.
  unfold route_create. rewrite Hbody. unfold serve, create_movie.
  unfold mbind at 1, db_bind at 1. rewrite select_where_run. simpl pending.
  set (P := λ row : nat * MovieModel.t,
         Is_true (same_name_and_date (MovieBaseSchema.name (MovieCreateSchema.base movie))
                    (MovieBaseSchema.date (MovieCreateSchema.base movie)) row.2)).
  destruct (select_at_most_one (movies st) P) as [Hnone|(i & m & Hi & Hm & Hone)].
  { intros i j x y Hi Hj Hx Hy. by eapply (wf_movies _ Hwf). }
  2:{ fold P. rewrite Hone. simpl. by eapply create_conflict. }
  fold P. rewrite Hnone.
  assert (no_such_movie movie st) as Hnew.
  { intros j m Hj. by eapply (select_empty_none (movies st) P). }
  unfold mbind at 1, db_bind at 1. simpl scalar_one_or_none.
  unfold mret at 1, db_ret at 1.
  unfold mbind at 1, db_bind at 1.
  destruct (get_or_create_country _ _) as [s1 r1] eqn:Hrun1.
  pose proof (get_or_create_country_rows _ _ _ _ _ Hrun1) as (t1 & Hp1 & Ht1).
  apply get_or_create_country_step in Hrun1
    as (Hc1 & Hwf1 & Hm1 & Hco1 & Hg1 & Ha1 & Hl1 & Hr1); [|done|apply Hvalid].
  destruct Hr1 as [->|(cid & crow & -> & Hcid & Hcode)]; [rewrite Hc1; by apply create_refused|].
  unfold mbind at 1, db_bind at 1.
  destruct (resolve_all GenreModel _ s1) as [s2 r2] eqn:Hrun2.
  pose proof (resolve_all_rows _ _ _ _ _ (or_introl eq_refl) Hrun2) as (t2 & Hp2 & Ht2).
  apply resolve_all_step in Hrun2 as [Hstep2 Hr2]; [|by left|done].
  pose proof (step_committed _ _ Hstep2) as Hc2.
  destruct Hr2 as [->|(gids & -> & Hgids)];
    [rewrite Hc2, Hc1; by apply create_refused|].
  unfold mbind at 1, db_bind at 1.
  destruct (resolve_all ActorModel _ s2) as [s3 r3] eqn:Hrun3.
  pose proof (resolve_all_rows _ _ _ _ _ (or_intror (or_introl eq_refl)) Hrun3)
    as (t3 & Hp3 & Ht3).
  apply resolve_all_step in Hrun3 as [Hstep3 Hr3]; [|by right; left|apply Hstep2].
  pose proof (step_committed _ _ Hstep3) as Hc3.
  destruct Hr3 as [->|(aids & -> & Haids)];
    [rewrite Hc3, Hc2, Hc1; by apply create_refused|].
  unfold mbind at 1, db_bind at 1.
  destruct (resolve_all LanguageModel _ s3) as [s4 r4] eqn:Hrun4.
  pose proof (resolve_all_rows _ _ _ _ _ (or_intror (or_intror eq_refl)) Hrun4)
    as (t4 & Hp4 & Ht4).
  apply resolve_all_step in Hrun4 as [Hstep4 Hr4]; [|by right; right|apply Hstep3].
  pose proof (step_committed _ _ Hstep4) as Hc4.
  destruct Hr4 as [->|(lids & -> & Hlids)];
    [rewrite Hc4, Hc3, Hc2, Hc1; by apply create_refused|].
  pose proof (named_step_trans _ _ _ Hstep2 (named_step_trans _ _ _ Hstep3 Hstep4)) as Hstep.
  destruct s4 as [c4 p4]. destruct Hstep as [_ Hm4 Hco4 Hg4 Ha4 Hl4 Hwf4]. simpl in *.
  assert (c4 = st) as -> by congruence.
  fold (new_row movie cid gids aids lids).
  set (row := new_row movie cid gids aids lids).
  set (st' := with_movies (<[next_id (movies p4) := row]> (movies p4)) p4).
  assert (wf st') as Hwf'.
  { apply wf_add_movie; [done| | |].
    - destruct Hvalid as [[] ? ? ? ?]. constructor; simpl; eauto.
    - constructor; simpl.
      + rewrite Hco4, Hcid. by eexists.
      + eapply Forall2_lookup_is_Some; [|apply Hgids].
        etrans; [apply (step_genres _ _ Hstep3)|apply (step_genres _ _ Hstep4)].
      + eapply Forall2_lookup_is_Some; [|apply Haids]. apply (step_actors _ _ Hstep4).
      + by eapply Forall2_lookup_is_Some; [|apply Hlids].
    - intros j m' n d Hj Hrow Hm'. rewrite Hm4, Hm1 in Hj.
      unfold row, new_row, same_name_and_date, eq_str, eq_date in Hrow. simpl in Hrow.
      apply andb_True in Hrow as [Hn Hd].
      apply Is_true_true, String.eqb_eq in Hn. apply Is_true_true, Z.eqb_eq in Hd.
      subst. by eapply Hnew. }
  cbv [mbind db_bind add_movie commit refresh get_pending put_pending
       mret db_ret raise pending committed].
  fold st'. destruct (store_accepts st'); [|by apply create_refused].
  unfold st' at 1. cbn [movies with_movies]. rewrite lookup_insert_eq.
  unfold row. rewrite summary_of_created by done.
  rewrite Hm4, Hm1. eapply (create_done movie st st' cid gids aids lids); try done.
  - unfold st'. simpl. by rewrite Hm4, Hm1.
  - unfold st'. simpl. by rewrite Hco4.
  - unfold st'. simpl. rewrite <- Hg1. done.
  - unfold st'. simpl. rewrite <- Ha1. done.
  - unfold st'. simpl. rewrite <- Hl1. done.
  - unfold st'. simpl. rewrite Hco4. by exists crow.
  - eapply Forall2_impl; [apply Hgids|]. intros id name Hid.
    eapply lookup_weaken; [exact Hid|].
    etrans; [apply (step_genres _ _ Hstep3)|apply (step_genres _ _ Hstep4)].
  - eapply Forall2_impl; [apply Haids|]. intros id name Hid.
    eapply lookup_weaken; [exact Hid|]. apply (step_actors _ _ Hstep4).
  - unfold st'. simpl. rewrite Hco4, Hp1. done.
  - unfold st'. simpl. rewrite Hp4, Hp3, Hp2. simpl. by rewrite Hp1 in Ht2.
  - unfold st'. simpl. rewrite Hp4, Hp3. simpl. by rewrite Hp2, Hp1 in Ht3.
  - unfold st'. simpl. rewrite Hp4. simpl. by rewrite Hp3, Hp2, Hp1 in Ht4.
Qed.
End create_outcomes.

Section create_facts.
Context `{Collaborators}.

Lemma wf_delete_movie st i : wf st → wf (with_movies (delete i (movies st)) st).
Proof.
  intros [Hcodes Hclen Hg Ha Hl Hm Hcol Href]. constructor; simpl; try done.
  - intros a b m m' n d Ha' Hb'.
    apply lookup_delete_Some in Ha' as [_ Ha'], Hb' as [_ Hb']. by eapply Hm.
  - by apply map_Forall_delete.
  - apply map_Forall_delete. eapply map_Forall_impl; [done|]. by intros j m [].
Qed.

Lemma same_name_and_date_eq movie m :
  same_name_and_date (MovieBaseSchema.name (MovieCreateSchema.base movie))
    (MovieBaseSchema.date (MovieCreateSchema.base movie)) m
  ↔ MovieModel.name m = VStr (MovieBaseSchema.name (MovieCreateSchema.base movie))
    ∧ MovieModel.date m = VDate (MovieBaseSchema.date (MovieCreateSchema.base movie)).
Proof.
  unfold same_name_and_date, eq_str, eq_date. split.
  - intros Hsame. apply andb_True in Hsame as [Hn Hd].
    destruct (MovieModel.name m); try done. destruct (MovieModel.date m); try done.
    apply Is_true_true, String.eqb_eq in Hn. apply Is_true_true, Z.eqb_eq in Hd.
    by subst.
  - intros [-> ->]. by rewrite String.eqb_refl, Z.eqb_refl.
Qed.

(** X9.  Creation keeps the invariants of the data model, whatever its
    outcome and whatever the database refuses: codes and names stay
    unique, (name, date) stays unique among movies, and every movie refers
    to rows that exist. *)
Theorem create_keeps_invariants body st : wf st → wf (route_create body st).1.
Proof.
  intros Hwf.
  destruct (MovieCreateSchema.model_validate body) as [movie|] eqn:Hbody.
  - pose proof (route_create_outcome body movie st Hwf Hbody) as Hout.
    destruct (route_create body st) as [st' resp]. by inversion Hout; subst.
  - unfold route_create. by rewrite Hbody.
Qed.

(** X10.  For a valid payload, creation answers 409 exactly when a stored
    movie has the payload's name and date. *)
Theorem create_conflict_iff body movie st :
  wf st →
  MovieCreateSchema.model_validate body = Some movie →
  (∃ detail, (route_create body st).2 = ErrorResponse 409 detail)
  ↔ ∃ i m, movies st !! i = Some m
      ∧ MovieModel.name m = VStr (MovieBaseSchema.name (MovieCreateSchema.base movie))
      ∧ MovieModel.date m = VDate (MovieBaseSchema.date (MovieCreateSchema.base movie)).
Proof.
  intros Hwf Hbody.
  pose proof (route_create_outcome body movie st Hwf Hbody) as Hout.
  destruct (route_create body st) as [st' resp]. simpl. split.
  - intros [detail ->]. inversion Hout as [i m Hi Hsame| |]; subst.
    exists i, m. split; [done|]. by apply same_name_and_date_eq.
  - intros (i & m & Hi & Hname & Hdate).
    assert (same_name_and_date (MovieBaseSchema.name (MovieCreateSchema.base movie))
              (MovieBaseSchema.date (MovieCreateSchema.base movie)) m) as Hsame.
    { by apply same_name_and_date_eq. }
    inversion Hout as [| Hnew | ? ? ? ? ? Hnew]; subst.
    + by eexists.
    + by apply Hnew in Hi.
    + by apply Hnew in Hi.
Qed.

Lemma length_omap_resolved {A B} (f : A → option B) (l : list A) :
  Forall (λ x, is_Some (f x)) l → length (omap f l) = length l.
Proof.
  induction 1 as [|x l [y Hy] _ IH]; [done|]. cbn. rewrite Hy. simpl. by rewrite IH.
Qed.

Lemma links_of_resolved (t : gmap nat string) gids names :
  names_unique t →
  Forall2 (λ id name, t !! id = Some name) gids names →
  links_names t (list_to_set gids) names.
Proof.
  intros Huniq Hall.
  assert (set_Forall (λ id, is_Some (t !! id)) (list_to_set gids : gset nat)) as Hres.
  { by eapply Forall2_lookup_is_Some. }
  constructor; [| done | |].
  - intros n. split.
    + intros Hn. apply list_elem_of_lookup in Hn as [i Hi].
      destruct (Forall2_lookup_r _ _ _ _ _ Hall Hi) as (id & Hid & Ht).
      exists id. split; [|done]. apply elem_of_list_to_set. by eapply list_elem_of_lookup_2.
    + intros (id & Hid & Hn).
      apply elem_of_list_to_set, list_elem_of_lookup in Hid as [i Hi].
      destruct (Forall2_lookup_l _ _ _ _ _ Hall Hi) as (n' & Hn' & Ht).
      apply (list_elem_of_lookup_2 _ i). congruence.
  - intros i j n _ _ Hi Hj. by eapply Huniq.
  - rewrite <- (Permutation_length (linked_names t gids names Huniq Hall)).
    rewrite length_omap_resolved.
    + by rewrite linked_order_elements.
    + rewrite linked_order_elements. by apply set_Forall_elements.
Qed.

(** X11.  A created movie is linked to the rows carrying the genre, actor
    and language names of its payload, and to no other: each link leads to
    a stored row, every name of the payload is the name of a linked row
    and conversely, and a name has one link however often the payload
    lists it, so that there are as many links as distinct names. *)
Theorem create_links_one_row_per_name body movie st st' resp :
  wf st →
  MovieCreateSchema.model_validate body = Some movie →
  route_create body st = (st', Response 201 resp) →
  ∃ row,
    movies st' !! Z.to_nat (MovieResponseSchema.id resp) = Some row
    ∧ links_names (genres st') (MovieModel.genres row) (MovieCreateSchema.genres movie)
    ∧ links_names (actors st') (MovieModel.actors row) (MovieCreateSchema.actors movie)
    ∧ links_names (languages st') (MovieModel.languages row)
        (MovieCreateSchema.languages movie).
Proof.
  intros Hwf Hbody Hrun.
  pose proof (route_create_outcome body movie st Hwf Hbody) as Hout.
  rewrite Hrun in Hout.
  inversion Hout as [| |? cid gids aids lids Hnew Hwf' Hmovies _ _ _ _ _ Hg Ha Hl]; subst.
  exists (new_row movie cid gids aids lids). simpl. rewrite Nat2Z.id.
  split; [by rewrite Hmovies, lookup_insert_eq|].
  split_and!.
  - apply links_of_resolved; [apply (wf_genres _ Hwf')|done].
  - apply links_of_resolved; [apply (wf_actors _ Hwf')|done].
  - apply links_of_resolved; [apply (wf_languages _ Hwf')|done].
Qed.

(** X12.  Creation removes and changes no row: every table of the store
    before is included in the table after.  And it adds no row other than
    the movie, a country with the payload's code and no name, and genres,
    actors and languages named in the payload. *)
Theorem create_adds_only_payload_rows body movie st :
  wf st →
  MovieCreateSchema.model_validate body = Some movie →
  let st' := (route_create body st).1 in
  (movies st ⊆ movies st' ∧ countries st ⊆ countries st' ∧ genres st ⊆ genres st'
   ∧ actors st ⊆ actors st' ∧ languages st ⊆ languages st')
  ∧ only_adds (λ m, ∃ cid gids aids lids, m = new_row movie cid gids aids lids)
      (movies st) (movies st')
  ∧ only_adds (λ c, c = CountryModel.mk (MovieCreateSchema.country movie) None)
      (countries st) (countries st')
  ∧ only_adds (λ n, n ∈ MovieCreateSchema.genres movie) (genres st) (genres st')
  ∧ only_adds (λ n, n ∈ MovieCreateSchema.actors movie) (actors st) (actors st')
  ∧ only_adds (λ n, n ∈ MovieCreateSchema.languages movie) (languages st) (languages st').
Proof.
  intros Hwf Hbody.
  pose proof (route_create_outcome body movie st Hwf Hbody) as Hout.
  destruct (route_create body st) as [st' resp]. simpl.
  inversion Hout as [| |? cid gids aids lids _ _ Hmovies]; subst;
    try (split_and!; (done || apply only_adds_refl)).
  split_and!; try done.
  - rewrite Hmovies. apply insert_subseteq, next_id_fresh.
  - intros j m. rewrite Hmovies. intros Hj.
    apply lookup_insert_Some in Hj as [[_ <-]|[_ Hj]]; [right|by left].
    by exists cid, gids, aids, lids.
Qed.

Lemma only_adds_nothing {A} (key : A → string) (new : A → Prop) (t t' : gmap nat A) :
  t ⊆ t' →
  (∀ i j x y, t' !! i = Some x → t' !! j = Some y → key x = key y → i = j) →
  only_adds new t t' →
  (∀ x, new x → ∃ j y, t !! j = Some y ∧ key y = key x) →
  t' = t.
Proof.
  intros Hsub Huniq Hadds Hold. apply map_eq. intros j.
  destruct (t' !! j) as [x|] eqn:Hj.
  - destruct (Hadds j x Hj) as [Hj'|Hnew]; [done|].
    destruct (Hold x Hnew) as (j' & y & Hj' & Hkey).
    pose proof (lookup_weaken _ _ _ _ Hj' Hsub) as Hj''.
    assert (j' = j) as -> by (by eapply Huniq).
    congruence.
  - destruct (t !! j) as [x|] eqn:Hj'; [|done].
    apply (lookup_weaken _ _ _ _ Hj') in Hsub. congruence.
Qed.

Lemma names_unique_keys (t : gmap nat string) :
  names_unique t → ∀ i j x y, t !! i = Some x → t !! j = Some y → id x = id y → i = j.
Proof. intros Huniq i j x y Hi Hj Hxy. simpl in Hxy. subst. by eapply Huniq. Qed.

(** X13.  Rows that exist are reused: when the country code is stored the
    country table is unchanged, and likewise each of the genre, actor and
    language tables when all the payload's names for it are stored. *)
Theorem create_reuses_existing_rows body movie st :
  wf st →
  MovieCreateSchema.model_validate body = Some movie →
  let st' := (route_create body st).1 in
  ((∃ j c, countries st !! j = Some c
      ∧ CountryModel.code c = MovieCreateSchema.country movie) →
   countries st' = countries st)
  ∧ ((∀ n, n ∈ MovieCreateSchema.genres movie → ∃ j, genres st !! j = Some n) →
     genres st' = genres st)
  ∧ ((∀ n, n ∈ MovieCreateSchema.actors movie → ∃ j, actors st !! j = Some n) →
     actors st' = actors st)
  ∧ ((∀ n, n ∈ MovieCreateSchema.languages movie → ∃ j, languages st !! j = Some n) →
     languages st' = languages st).
Proof.
  intros Hwf Hbody.
  pose proof (route_create_outcome body movie st Hwf Hbody) as Hout.
  destruct (route_create body st) as [st' resp]. simpl.
  inversion Hout as [| |? cid gids aids lids _ Hwf' _ Hco Hg Ha Hl _ _ _ _ Aco Ag Aa Al];
    subst; try done.
  split_and!.
  - intros (j & c & Hj & Hcode).
    apply (only_adds_nothing CountryModel.code _ _ _ Hco (wf_codes _ Hwf') Aco).
    intros x ->. by exists j, c.
  - intros Hold.
    apply (only_adds_nothing id _ _ _ Hg (names_unique_keys _ (wf_genres _ Hwf')) Ag).
    intros n Hn. destruct (Hold n Hn) as [j Hj]. by exists j, n.
  - intros Hold.
    apply (only_adds_nothing id _ _ _ Ha (names_unique_keys _ (wf_actors _ Hwf')) Aa).
    intros n Hn. destruct (Hold n Hn) as [j Hj]. by exists j, n.
  - intros Hold.
    apply (only_adds_nothing id _ _ _ Hl (names_unique_keys _ (wf_languages _ Hwf')) Al).
    intros n Hn. destruct (Hold n Hn) as [j Hj]. by exists j, n.
Qed.

(** X15.  Deletion keeps the invariants of the data model, whatever its
    outcome. *)
Theorem delete_keeps_invariants movie_id st : wf st → wf (route_delete movie_id st).1.
Proof.
  intros Hwf. rewrite route_delete_run.
  destruct (movies st !! movie_id); [|done]. cbn zeta.
  destruct (store_accepts _); [|done]. by apply wf_delete_movie.
Qed.

(** X16.  Deleting a movie frees its name and date: the payload that was
    answered 409 while the movie was stored is no longer a conflict once
    the deletion has answered 204. *)
Theorem delete_frees_name_and_date body movie st i m :
  wf st →
  MovieCreateSchema.model_validate body = Some movie →
  movies st !! i = Some m →
  MovieModel.name m = VStr (MovieBaseSchema.name (MovieCreateSchema.base movie)) →
  MovieModel.date m = VDate (MovieBaseSchema.date (MovieCreateSchema.base movie)) →
  (route_delete i st).2 = Response 204 () →
  (route_create body st).2 = ErrorResponse 409 (already_exists (MovieCreateSchema.base movie))
  ∧ ∀ detail, (route_create body (route_delete i st).1).2 ≠ ErrorResponse 409 detail.
Proof.
  intros Hwf Hbody Hi Hname Hdate Hdel.
  assert (same_name_and_date (MovieBaseSchema.name (MovieCreateSchema.base movie))
            (MovieBaseSchema.date (MovieCreateSchema.base movie)) m) as Hsame.
  { by apply same_name_and_date_eq. }
  split.
  { pose proof (route_create_outcome body movie st Hwf Hbody) as Hout.
    destruct (route_create body st) as [st' resp].
    inversion Hout as [| Hnew | ? ? ? ? ? Hnew]; subst; [done|by apply Hnew in Hi..]. }
  intros detail Hconflict.
  rewrite route_delete_run, Hi in Hdel, Hconflict. cbn zeta in *.
  destruct (store_accepts _); [|done]. cbn [fst] in Hconflict.
  pose proof (route_create_outcome body movie _ (wf_delete_movie st i Hwf) Hbody) as Hout.
  destruct (route_create body _) as [st' resp]. simpl in Hconflict. subst resp.
  inversion Hout as [j m' Hj Hsame'| |]; subst. simpl in Hj.
  apply lookup_delete_Some in Hj as [Hne Hj]. apply Hne.
  by eapply (wf_movies _ Hwf i j m m').
Qed.
(** X21.  Deleting a movie that was just created restores the table of
    movies: the id was free before the creation and is free again.  The
    rows the creation made for the country, genres, actors and languages
    stay. *)
Theorem create_then_delete body movie st st1 resp :
  wf st →
  MovieCreateSchema.model_validate body = Some movie →
  route_create body st = (st1, Response 201 resp) →
  let movie_id := Z.to_nat (MovieResponseSchema.id resp) in
  let st2 := with_movies (movies st) st1 in
  movies st !! movie_id = None
  ∧ route_delete movie_id st1
    = (if store_accepts st2 then (st2, Response 204 ()) else (st1, InternalServerError)).
Proof.
  intros Hwf Hbody Hrun.
  pose proof (route_create_outcome body movie st Hwf Hbody) as Hout.
  rewrite Hrun in Hout.
  inversion Hout as [| |? cid gids aids lids _ _ Hmovies]; subst.
  simpl. rewrite Nat2Z.id. split; [apply next_id_fresh|].
  rewrite route_delete_run, Hmovies, lookup_insert_eq. cbn zeta.
  by rewrite delete_insert_id by apply next_id_fresh.
Qed.
End create_facts.

Section update_facts.
Context `{Collaborators}.

Lemma movie_row_ext (a b : MovieModel.t) :
  MovieModel.name a = MovieModel.name b → MovieModel.date a = MovieModel.date b →
  MovieModel.score a = MovieModel.score b → MovieModel.overview a = MovieModel.overview b →
  MovieModel.status a = MovieModel.status b → MovieModel.budget a = MovieModel.budget b →
  MovieModel.revenue a = MovieModel.revenue b →
  MovieModel.country_id a = MovieModel.country_id b →
  MovieModel.genres a = MovieModel.genres b → MovieModel.actors a = MovieModel.actors b →
  MovieModel.languages a = MovieModel.languages b → a = b.
Proof. destruct a, b. simpl. congruence. Qed.

Lemma present_idemp k u new old : present k u new (present k u new old) = present k u new old.
Proof. unfold present. by destruct (bool_decide _). Qed.

Lemma assign_fields_idemp u m : assign_fields (assign_fields m u) u = assign_fields m u.
Proof.
  destruct (assign_fields_spec u (assign_fields m u))
    as (H1 & H2 & H3 & H4 & H5 & H6 & H7 & H8 & H9 & H10 & H11).
  destruct (assign_fields_spec u m)
    as (G1 & G2 & G3 & G4 & G5 & G6 & G7 & G8 & G9 & G10 & G11).
  simpl in *.
  apply movie_row_ext.
  - by rewrite H1, G1, present_idemp.
  - by rewrite H2, G2, present_idemp.
  - by rewrite H3, G3, present_idemp.
  - by rewrite H4, G4, present_idemp.
  - by rewrite H5, G5, present_idemp.
  - by rewrite H6, G6, present_idemp.
  - by rewrite H7, G7, present_idemp.
  - congruence.
  - congruence.
  - congruence.
  - congruence.
Qed.

Lemma updated_updated i m st : updated i m (updated i m st) = updated i m st.
Proof. destruct st. unfold updated. simpl. by rewrite insert_insert_eq. Qed.

(** X17.  The outcomes of an update: 422 for a body the schema refuses,
    404 for an id no movie has, 400 when the database refuses the row, each
    with the store unchanged, or 200 with one row replaced; never a
    500. *)
Theorem update_outcomes movie_id body st :
  let st' := (route_update movie_id body st).1 in
  let resp := (route_update movie_id body st).2 in
  (resp = UnprocessableEntity ∧ st' = st ∧ MovieUpdateSchema.model_validate body = None)
  ∨ (resp = ErrorResponse 404 movie_not_found ∧ st' = st ∧ movies st !! movie_id = None)
  ∨ (resp = ErrorResponse 400 "Invalid input data." ∧ st' = st
     ∧ is_Some (movies st !! movie_id))
  ∨ (resp = Response 200 updated_ok
     ∧ ∃ m', st' = updated movie_id m' st ∧ store_accepts st' = true).
Proof.
  rewrite route_update_run.
  destruct (MovieUpdateSchema.model_validate body) as [u|]; [|by left].
  destruct (movies st !! movie_id) as [m|]; [|by right; left].
  cbn zeta. destruct (store_accepts _) eqn:Hacc; simpl.
  - do 3 right. split; [done|]. by eexists.
  - right; right; left. split; [done|]. split; [done|]. by eexists.
Qed.

(** X18.  An update that succeeded, sent again, succeeds and changes
    nothing. *)
Theorem update_is_idempotent movie_id body st st' :
  route_update movie_id body st = (st', Response 200 updated_ok) →
  route_update movie_id body st' = (st', Response 200 updated_ok).
Proof.
  rewrite !route_update_run.
  destruct (MovieUpdateSchema.model_validate body) as [u|]; [|done].
  destruct (movies st !! movie_id) as [m|]; [|done].
  cbn zeta. destruct (store_accepts _) eqn:Hacc; [|done].
  intros [= <-].
  assert (movies (updated movie_id (assign_fields m u) st) !! movie_id
          = Some (assign_fields m u)) as ->.
  { destruct st. unfold updated. simpl. by rewrite lookup_insert_eq. }
  rewrite assign_fields_idemp, updated_updated, Hacc. done.
Qed.
End update_facts.

Section update_values.
Context `{Collaborators}.

Lemma optional_Some_inv {A} body k (validate : value → option A) x :
  optional body k validate = Some (Some x) →
  ∃ v, value_get k body = Some v ∧ validate v = Some x.
Proof.
  unfold optional, defaulted, optional_type.
  destruct (value_get k body) as [v|]; [|done].
  destruct v; try done; intros Hv; apply fmap_Some in Hv as (y & Hy & [= ->]);
    by eexists.
Qed.

Lemma present_set k u new old body :
  MovieUpdateSchema.model_validate body = Some u →
  k ∈ MovieUpdateSchema.model_fields →
  is_Some (value_get k body) →
  present k u new old = new.
Proof.
  intros Hu Hk Hget. unfold present. rewrite bool_decide_eq_true_2; [done|].
  by apply (validated_fields_set body).
Qed.

(** X20.  After a successful update, a column whose field the body set
    holds null or a value within the schema's constraints: a score in
    [0,100], a status of the enum, a non-negative budget or revenue, null
    for the date, and a text of any length for the name. *)
Theorem update_stores_validated_values movie_id body st st' m' :
  route_update movie_id body st = (st', Response 200 updated_ok) →
  movies st' !! movie_id = Some m' →
  (is_Some (value_get "name" body) →
   MovieModel.name m' = VNone ∨ ∃ s, MovieModel.name m' = VStr s)
  ∧ (is_Some (value_get "date" body) → MovieModel.date m' = VNone)
  ∧ (is_Some (value_get "score" body) →
     MovieModel.score m' = VNone
     ∨ ∃ x, MovieModel.score m' = VFloat x
         ∧ PrimFloat.leb 0 x = true ∧ PrimFloat.leb x 100 = true)
  ∧ (is_Some (value_get "overview" body) →
     MovieModel.overview m' = VNone ∨ ∃ s, MovieModel.overview m' = VStr s)
  ∧ (is_Some (value_get "status" body) →
     MovieModel.status m' = VNone
     ∨ ∃ s, MovieModel.status m' = VStr s ∧ is_status s = true)
  ∧ (is_Some (value_get "budget" body) →
     MovieModel.budget m' = VNone
     ∨ ∃ x, MovieModel.budget m' = VFloat x ∧ PrimFloat.leb 0 x = true)
  ∧ (is_Some (value_get "revenue" body) →
     MovieModel.revenue m' = VNone
     ∨ ∃ x, MovieModel.revenue m' = VFloat x ∧ PrimFloat.leb 0 x = true).
Proof.
  rewrite route_update_run.
  destruct (MovieUpdateSchema.model_validate body) as [u|] eqn:Hu; [|done].
  destruct (movies st !! movie_id) as [m|]; [|done]. cbn zeta.
  destruct (store_accepts _); [|done]. intros [= <-].
  unfold updated. cbn [movies with_movies]. rewrite lookup_insert_eq. intros [= <-].
  destruct (assign_fields_spec u m) as (Hname & Hdate & Hscore & Hoverview & Hstatus
                                        & Hbudget & Hrevenue & _).
  cbn zeta in *.
  pose proof (update_validate_inv _ _ Hu)
    as (_ & Vname & _ & Vscore & Voverview & Vstatus & Vbudget & Vrevenue).
  split_and!; intros Hget.
  - rewrite Hname, (present_set _ _ _ _ body) by (done || (repeat constructor)).
    destruct (MovieUpdateSchema.name u); simpl; eauto.
  - by rewrite Hdate, (present_set _ _ _ _ body) by (done || (repeat constructor)).
  - rewrite Hscore, (present_set _ _ _ _ body) by (done || (repeat constructor)).
    destruct (MovieUpdateSchema.score u) as [x|]; simpl; [right|by left].
    apply optional_Some_inv in Vscore as (v & _ & Hv).
    apply bind_Some in Hv as (x1 & _ & Hv). apply bind_Some in Hv as (x2 & Hge & Hle).
    apply ge_Some in Hge as [-> Hge]. apply le_Some in Hle as [-> Hle]. by exists x1.
  - rewrite Hoverview, (present_set _ _ _ _ body) by (done || (repeat constructor)).
    destruct (MovieUpdateSchema.overview u); simpl; eauto.
  - rewrite Hstatus, (present_set _ _ _ _ body) by (done || (repeat constructor)).
    destruct (MovieUpdateSchema.status u) as [s|]; simpl; [right|by left].
    apply optional_Some_inv in Vstatus as (v & _ & Hv). unfold enum_type in Hv.
    destruct v; try done. destruct (is_status _) eqn:Hs; [|done].
    injection Hv as ->. by exists s.
  - rewrite Hbudget, (present_set _ _ _ _ body) by (done || (repeat constructor)).
    destruct (MovieUpdateSchema.budget u) as [x|]; simpl; [right|by left].
    apply optional_Some_inv in Vbudget as (v & _ & Hv).
    apply bind_Some in Hv as (x1 & _ & Hge). apply ge_Some in Hge as [-> Hge]. by exists x1.
  - rewrite Hrevenue, (present_set _ _ _ _ body) by (done || (repeat constructor)).
    destruct (MovieUpdateSchema.revenue u) as [x|]; simpl; [right|by left].
    apply optional_Some_inv in Vrevenue as (v & _ & Hv).
    apply bind_Some in Hv as (x1 & _ & Hge). apply ge_Some in Hge as [-> Hge]. by exists x1.
Qed.

Lemma present_unset k u new old body :
  MovieUpdateSchema.model_validate body = Some u →
  value_get k body = None →
  present k u new old = old.
Proof.
  intros Hu Hget. unfold present. rewrite bool_decide_eq_false_2; [done|].
  intros Hk. apply (validated_fields_set body) in Hk as [_ [v Hv]]; [|done]. congruence.
Qed.

Lemma optional_set_inv {A} body k (validate : value → option A) v o :
  value_get k body = Some v →
  optional body k validate = Some o →
  (v = VNone ∧ o = None) ∨ (∃ x, validate v = Some x ∧ o = Some x).
Proof.
  intros Hget. unfold optional, defaulted, optional_type. rewrite Hget.
  destruct v; try (intros [= <-]; by left);
    intros Hv; apply fmap_Some in Hv as (y & Hy & ->); right; by exists y.
Qed.

(** X22.  What an update wrote is what a read returns: after a 200, a
    read of the same id that answers 200 shows, for each field present in
    the body, the body's value, and for each absent field, the date, the
    country and the collections what a read before the update showed. *)
Theorem update_then_get movie_id body st st' detail :
  route_update movie_id body st = (st', Response 200 updated_ok) →
  (route_get movie_id st').2 = Response 200 detail →
  let base := MovieResponseSchema.base (MovieDetailResponseSchema.base detail) in
  (∀ s, value_get "name" body = Some (VStr s) → MovieBaseSchema.name base = s)
  ∧ (∀ v, value_get "score" body = Some v → float_type v = Some (MovieBaseSchema.score base))
  ∧ (∀ s, value_get "overview" body = Some (VStr s) → MovieBaseSchema.overview base = s)
  ∧ (∀ s, value_get "status" body = Some (VStr s) →
       MovieDetailResponseSchema.status detail = s)
  ∧ (∀ v, value_get "budget" body = Some v →
       float_type v = Some (MovieDetailResponseSchema.budget detail))
  ∧ (∀ v, value_get "revenue" body = Some v →
       float_type v = Some (MovieDetailResponseSchema.revenue detail))
  ∧ ∀ detail0, (route_get movie_id st).2 = Response 200 detail0 →
      let base0 := MovieResponseSchema.base (MovieDetailResponseSchema.base detail0) in
      MovieBaseSchema.date base = MovieBaseSchema.date base0
      ∧ MovieDetailResponseSchema.country detail = MovieDetailResponseSchema.country detail0
      ∧ MovieDetailResponseSchema.genres detail = MovieDetailResponseSchema.genres detail0
      ∧ MovieDetailResponseSchema.actors detail = MovieDetailResponseSchema.actors detail0
      ∧ MovieDetailResponseSchema.languages detail
        = MovieDetailResponseSchema.languages detail0
      ∧ (value_get "name" body = None → MovieBaseSchema.name base = MovieBaseSchema.name base0)
      ∧ (value_get "score" body = None →
         MovieBaseSchema.score base = MovieBaseSchema.score base0)
      ∧ (value_get "overview" body = None →
         MovieBaseSchema.overview base = MovieBaseSchema.overview base0)
      ∧ (value_get "status" body = None →
         MovieDetailResponseSchema.status detail = MovieDetailResponseSchema.status detail0)
      ∧ (value_get "budget" body = None →
         MovieDetailResponseSchema.budget detail = MovieDetailResponseSchema.budget detail0)
      ∧ (value_get "revenue" body = None →
         MovieDetailResponseSchema.revenue detail
         = MovieDetailResponseSchema.revenue detail0).
Proof.
  rewrite route_update_run.
  destruct (MovieUpdateSchema.model_validate body) as [u|] eqn:Hu; [|done].
  destruct (movies st !! movie_id) as [m|] eqn:Hm; [|done]. cbn zeta.
  destruct (store_accepts _); [|done]. intros [= <-].
  intros Hget. apply route_get_inv in Hget as (m' & Hm' & Hd).
  unfold updated in Hm'. cbn [movies with_movies] in Hm'.
  rewrite lookup_insert_eq in Hm'. injection Hm' as <-.
  rewrite (movie_object_tables st) in Hd by done.
  apply detail_validate_inv in Hd
    as (_ & Dname & Ddate & Dscore & Doverview & Dstatus & Dbudget & Drevenue
        & (c & Dc & Dcountry) & Dgenres & Dactors & Dlanguages).
  destruct (assign_fields_spec u m)
    as (Hname & Hdate & Hscore & Hoverview & Hstatus & Hbudget & Hrevenue
        & Hcid & Hgenres & Hactors & Hlanguages).
  cbn zeta in *.
  pose proof (update_validate_inv _ _ Hu)
    as (_ & Vname & _ & Vscore & Voverview & Vstatus & Vbudget & Vrevenue).
  split_and!.
  - intros s Hget.
    rewrite Hname, (present_set _ _ _ _ body) in Dname by (done || eauto || (repeat constructor)).
    destruct (optional_set_inv _ _ _ _ _ Hget Vname) as [[? _]|(x & Hx & Ho)]; [done|].
    rewrite Ho in Dname. simpl in Hx, Dname. congruence.
  - intros v Hget.
    rewrite Hscore, (present_set _ _ _ _ body) in Dscore by (done || eauto || (repeat constructor)).
    destruct (optional_set_inv _ _ _ _ _ Hget Vscore) as [[_ Ho]|(x & Hx & Ho)];
      rewrite Ho in Dscore; [done|].
    apply bind_Some in Hx as (x1 & Hv & Hx). apply bind_Some in Hx as (x2 & Hge & Hle).
    apply ge_Some in Hge as [-> _]. apply le_Some in Hle as [-> _].
    simpl in Dscore. congruence.
  - intros s Hget.
    rewrite Hoverview, (present_set _ _ _ _ body) in Doverview
      by (done || eauto || (repeat constructor)).
    destruct (optional_set_inv _ _ _ _ _ Hget Voverview) as [[? _]|(x & Hx & Ho)]; [done|].
    rewrite Ho in Doverview. simpl in Hx, Doverview. congruence.
  - intros s Hget.
    rewrite Hstatus, (present_set _ _ _ _ body) in Dstatus by (done || eauto || (repeat constructor)).
    destruct (optional_set_inv _ _ _ _ _ Hget Vstatus) as [[? _]|(x & Hx & Ho)]; [done|].
    rewrite Ho in Dstatus. simpl in Hx, Dstatus.
    destruct (is_status s); [|done]. congruence.
  - intros v Hget.
    rewrite Hbudget, (present_set _ _ _ _ body) in Dbudget by (done || eauto || (repeat constructor)).
    destruct (optional_set_inv _ _ _ _ _ Hget Vbudget) as [[_ Ho]|(x & Hx & Ho)];
      rewrite Ho in Dbudget; [done|].
    apply bind_Some in Hx as (x1 & Hv & Hge). apply ge_Some in Hge as [-> _].
    simpl in Dbudget. congruence.
  - intros v Hget.
    rewrite Hrevenue, (present_set _ _ _ _ body) in Drevenue by (done || eauto || (repeat constructor)).
    destruct (optional_set_inv _ _ _ _ _ Hget Vrevenue) as [[_ Ho]|(x & Hx & Ho)];
      rewrite Ho in Drevenue; [done|].
    apply bind_Some in Hx as (x1 & Hv & Hge). apply ge_Some in Hge as [-> _].
    simpl in Drevenue. congruence.
  - intros detail0 Hget0. apply route_get_inv in Hget0 as (m0 & Hm0 & Hd0).
    assert (m0 = m) as -> by congruence.
    apply detail_validate_inv in Hd0
      as (_ & Oname & Odate & Oscore & Ooverview & Ostatus & Obudget & Orevenue
          & (c0 & Oc & Ocountry) & Ogenres & Oactors & Olanguages).
    cbn zeta in *.
    split_and!.
    + rewrite Hdate in Ddate. unfold present in Ddate.
      destruct (bool_decide _); [done|]. congruence.
    + rewrite Hcid in Dc, Dcountry. congruence.
    + rewrite Hgenres in Dgenres. congruence.
    + rewrite Hactors in Dactors. congruence.
    + rewrite Hlanguages in Dlanguages. congruence.
    + intros Hnone. rewrite Hname, (present_unset _ _ _ _ body) in Dname by done. congruence.
    + intros Hnone. rewrite Hscore, (present_unset _ _ _ _ body) in Dscore by done.
      congruence.
    + intros Hnone. rewrite Hoverview, (present_unset _ _ _ _ body) in Doverview by done.
      congruence.
    + intros Hnone. rewrite Hstatus, (present_unset _ _ _ _ body) in Dstatus by done.
      congruence.
    + intros Hnone. rewrite Hbudget, (present_unset _ _ _ _ body) in Dbudget by done.
      congruence.
    + intros Hnone. rewrite Hrevenue, (present_unset _ _ _ _ body) in Drevenue by done.
      congruence.
Qed.
End update_values.

Section update_nulls.
Context `{Collaborators}.

Lemma detail_requires_columns st movie_id m field :
  field ∈ MovieUpdateSchema.model_fields →
  MovieDetailResponseSchema.model_validate
    (movie_object st movie_id (MovieModel.setattr m field VNone)) = None.
Proof.
  intros Hfield. unfold MovieUpdateSchema.model_fields in Hfield.
  unfold MovieDetailResponseSchema.model_validate, MovieResponseSchema.model_validate,
    MovieBaseSchema.model_validate, required.
  repeat (apply elem_of_cons in Hfield as [->|Hfield]);
    [..|by apply elem_of_nil in Hfield]; simpl; try done;
    repeat (match goal with
            | |- context [@mbind option _ _ _ _ ?x] =>
                lazymatch x with
                | context [@mbind option] => fail
                | Some _ => fail
                | None => fail
                | _ => destruct x
                end
            end; simpl; try done).
Qed.

(** X19.  An explicit null for any of the seven fields passes the update
    schema and is written to the column when the database takes it; the
    movie then no longer passes the detail schema, and reading it answers
    500. *)
Theorem update_null_clears_column movie_id field st m :
  field ∈ MovieUpdateSchema.model_fields →
  movies st !! movie_id = Some m →
  let st' := updated movie_id (MovieModel.setattr m field VNone) st in
  route_update movie_id (VDict [(field, VNone)]) st
  = (if store_accepts st' then (st', Response 200 updated_ok)
     else (st, ErrorResponse 400 "Invalid input data."))
  ∧ route_get movie_id st' = (st', InternalServerError).
Proof.
  intros Hfield Hm. split.
  - rewrite route_update_run, Hm.
    unfold MovieUpdateSchema.model_fields in Hfield.
    repeat (apply elem_of_cons in Hfield as [->|Hfield]);
      [..|by apply elem_of_nil in Hfield]; reflexivity.
  - rewrite route_get_run. unfold updated at 2. cbn [movies with_movies].
    rewrite lookup_insert_eq. by rewrite detail_requires_columns.
Qed.
End update_nulls.

(** * The theorems at work on the concrete catalog *)

Lemma dune_validates : @MovieCreateSchema.model_validate lenient dune = Some dune_movie.
Proof. reflexivity. Qed.

Lemma dune_store_lookup : movies dune_store !! 1%nat = Some dune_row.
Proof. apply lookup_singleton_eq. Qed.

Lemma empty_store_no_movie movie : no_such_movie movie empty_store.
Proof. intros j m Hj. unfold empty_store in Hj. simpl in Hj. by rewrite lookup_empty in Hj. Qed.

Lemma lenient_accepts st : @wf lenient st → @store_accepts lenient st = true.
Proof. done. Qed.

Lemma dune_store_unique : movies_unique (movies dune_store).
Proof.
  intros i j m m' n d Hi Hj _ _. simpl in *.
  apply lookup_singleton_Some in Hi as [<- _].
  by apply lookup_singleton_Some in Hj as [<- _].
Qed.

(** [update(1, {score: 42})] changes the score and nothing else. *)
Lemma update_score_only :
  ∃ m', @route_update lenient 1 (VDict [("score", VInt 42)]) dune_store
        = (with_movies (<[1%nat := m']> (movies dune_store)) dune_store,
           Response 200 updated_ok)
    ∧ MovieModel.score m' = VFloat 42
    ∧ MovieModel.name m' = MovieModel.name dune_row
    ∧ MovieModel.date m' = MovieModel.date dune_row
    ∧ MovieModel.overview m' = MovieModel.overview dune_row
    ∧ MovieModel.status m' = MovieModel.status dune_row
    ∧ MovieModel.budget m' = MovieModel.budget dune_row
    ∧ MovieModel.revenue m' = MovieModel.revenue dune_row
    ∧ MovieModel.country_id m' = MovieModel.country_id dune_row
    ∧ MovieModel.genres m' = MovieModel.genres dune_row
    ∧ MovieModel.actors m' = MovieModel.actors dune_row
    ∧ MovieModel.languages m' = MovieModel.languages dune_row.
Proof.
  destruct (@update_assigns_exactly_present_fields lenient 1 score_42 dune_store dune_row
              dune_store_lookup)
    as (m' & (Hname & Hdate & Hscore & Hoverview & Hstatus & Hbudget & Hrevenue
              & Hcountry & Hgenres & Hactors & Hlanguages) & Hrun & Hroute & _).
  exists m'. split; [|repeat split; done].
  rewrite (Hroute (VDict [("score", VInt 42)]) eq_refl). exact Hrun.
Defined.

(** A null name sent to a database that refuses it: 400, nothing written. *)
Lemma update_null_name_rolled_back :
  @route_update name_not_null 1 (VDict [("name", VNone)]) dune_store
  = (dune_store, ErrorResponse 400 "Invalid input data.").
Proof.
  apply (@update_failure_rolls_back name_not_null 1 (VDict [("name", VNone)]) dune_store
           dune_row (MovieUpdateSchema.mk None () None None None None None ["name"])).
  - exact dune_store_lookup.
  - reflexivity.
  - vm_compute. reflexivity.
Defined.

(** Relationship keys and a stray key in an update body: 200, no change. *)
Lemma update_with_relationship_keys :
  @route_update lenient 1
    (VDict [("country", VStr "FR"); ("genres", VList [VStr "Drama"]); ("rating", VInt 5)])
    dune_store
  = (dune_store, Response 200 updated_ok).
Proof.
  apply (@update_drops_unknown_keys lenient 1
           [("country", VStr "FR"); ("genres", VList [VStr "Drama"]); ("rating", VInt 5)]
           dune_store dune_row dune_store_lookup).
  - vm_compute. reflexivity.
  - reflexivity.
Defined.

(** A name of 256 characters: refused at creation, taken by update, and
    the movie can no longer be read. *)
Lemma update_long_name :
  @MovieCreateSchema.model_validate lenient
    (VDict [("name", VStr long_name); ("date", VDate 738085); ("score", VInt 83);
            ("overview", VStr "..."); ("status", VStr "Released");
            ("budget", VInt 165000000); ("revenue", VInt 402000000);
            ("country", VStr "USA")])
  = None
  ∧ (@route_update lenient 1 (VDict [("name", VStr long_name)]) dune_store).2
    = Response 200 updated_ok
  ∧ (@route_get lenient 1
       (@route_update lenient 1 (VDict [("name", VStr long_name)]) dune_store).1).2
    = InternalServerError.
Proof.
  destruct (@update_accepts_name_over_255 lenient 1 dune_store dune_row long_name
              dune_store_lookup) as (Hcreate & Hupdate & Hget).
  - vm_compute. lia.
  - reflexivity.
  - split; [by vm_compute|]. rewrite Hupdate. cbn [fst snd].
    split; [done|]. by rewrite Hget.
Defined.

(** A valid date in an update body: refused, where creation takes it. *)
Lemma update_date_is_refused :
  @route_update lenient 1 (VDict [("date", VDate 738086)]) dune_store
  = (dune_store, UnprocessableEntity)
  ∧ @MovieBaseSchema.date_not_too_far lenient 738086 = Some 738086.
Proof. split; reflexivity. Qed.

(** The spec's example: 201 with an id, and the entities nested by [get]. *)
Lemma create_dune :
  ∃ st' id resp detail,
    @route_create lenient dune empty_store = (st', Response 201 resp)
    ∧ @route_get lenient id st' = (st', Response 200 detail)
    ∧ MovieResponseSchema.id resp = Z.of_nat id
    ∧ CountryResponse.code (MovieDetailResponseSchema.country detail) = "USA"
    ∧ GenreResponse.name <$> MovieDetailResponseSchema.genres detail = ["Sci-Fi"].
Proof.
  destruct (@create_returns_summary_of_committed_movie lenient lenient_accepts
              dune dune_movie empty_store (@wf_empty lenient) dune_validates
              (empty_store_no_movie dune_movie))
    as (st' & id & resp & detail & Hrun & _ & _ & Hdump & Hget & _ & _ & _ & _
        & Hcountry & Hgenres & _).
  exists st', id, resp, detail. split_and!; try done.
  - destruct resp as [base rid]. by injection Hdump as _ _ _ _ <-.
  - by apply Permutation_singleton_r in Hgenres.
Defined.

(** The response of that creation has no nested country. *)
Lemma create_dune_has_no_nested_country :
  ¬ ∃ resp country,
      (@route_create lenient dune empty_store).2 = Response 201 resp
      ∧ dict_get "country" (MovieResponseSchema.model_dump resp) = Some country
      ∧ value_get "code" country = Some (VStr "USA").
Proof.
  intros (resp & country & Hrun & Hcountry & _).
  assert ((@route_create lenient dune empty_store).2
          = Response 201 (MovieResponseSchema.mk (MovieBaseSchema.mk "Dune" 738085 83 "...") 1))
    as Hresp by (vm_compute; reflexivity).
  rewrite Hresp in Hrun. injection Hrun as <-. discriminate Hcountry.
Qed.

(** Creating Dune twice: 409, and the store is the one before. *)
Lemma create_dune_twice :
  @route_create lenient dune dune_store
  = (dune_store,
     ErrorResponse 409
       "A movie with the name 'Dune' and release date '2021-10-22' already exists.").
Proof.
  apply (@create_duplicate_is_conflict lenient dune dune_movie dune_store 1 dune_row
           dune_store_unique dune_validates dune_store_lookup eq_refl eq_refl).
Defined.

(** The first movie of country "USA" adds the row; the next one reuses it. *)
Lemma create_dune_country :
  ∃ st' resp id row,
    @route_create lenient dune empty_store = (st', Response 201 resp)
    ∧ movies st' !! id = Some row
    ∧ countries st' = {[MovieModel.country_id row := CountryModel.mk "USA" None]}.
Proof.
  destruct (@create_gets_or_creates_country lenient lenient_accepts
              dune dune_movie empty_store (@wf_empty lenient) dune_validates
              (empty_store_no_movie dune_movie))
    as (st' & resp & id & row & Hrun & _ & Hrow & Hnew & _).
  exists st', resp, id, row. split; [done|]. split; [done|].
  destruct Hnew as [_ ->]; [|done].
  intros j c Hj. unfold empty_store in Hj. simpl in Hj. by rewrite lookup_empty in Hj.
Defined.

(** An empty catalog has no page. *)
Lemma list_empty_catalog :
  (@route_list lenient (Some 1) (Some 10) empty_store).2
  = ErrorResponse 404 "No movies found.".
Proof.
  destruct (@list_not_found_iff_empty_page lenient 1 10 empty_store) as (_ & Hempty & _);
    [lia..|].
  by apply Hempty.
Defined.

Lemma dune_store_summaries :
  map_Forall
    (λ id m, is_Some (@MovieResponseSchema.model_validate lenient
                        (@movie_object lenient dune_store id m)))
    (movies dune_store).
Proof. apply map_Forall_singleton. by eexists. Qed.

(** The first page of the catalog of one movie. *)
Lemma list_first_page :
  ∃ pg, @route_list lenient (Some 1) (Some 10) dune_store = (dune_store, Response 200 pg)
    ∧ Z.of_nat (length (MoviesPage.movies pg)) = 1.
Proof.
  destruct (@list_page_items lenient 1 10 dune_store) as (pg & Hrun & Hlen & _);
    [lia| lia | by vm_compute | exact dune_store_summaries |].
  exists pg. split; [done|]. rewrite Hlen. by vm_compute.
Defined.

(** The second page of a catalog of one movie: no page is returned. *)
Lemma list_second_page_is_not_found :
  movies dune_store ≠ ∅
  ∧ ¬ ∃ pg, (@route_list lenient (Some 2) (Some 10) dune_store).2 = Response 200 pg.
Proof.
  split.
  - intros Hempty. pose proof dune_store_lookup as Hrow.
    rewrite Hempty in Hrow. by rewrite lookup_empty in Hrow.
  - intros (pg & Hrun).
    assert ((@route_list lenient (Some 2) (Some 10) dune_store).2
            = ErrorResponse 404 "No movies found.") as Hresp by (vm_compute; reflexivity).
    rewrite Hresp in Hrun. discriminate Hrun.
Qed.

(** Deleting one of two movies that share a genre. *)
Lemma delete_keeps_shared_genre :
  let st := with_movies (<[2%nat := dune_row]> (movies dune_store)) dune_store in
  let st' := (@route_delete lenient 1 st).1 in
  (@route_delete lenient 1 st).2 = Response 204 ()
  ∧ (@route_get lenient 1 st').2 = ErrorResponse 404 movie_not_found
  ∧ genres st' !! 1%nat = Some "Sci-Fi"
  ∧ MovieModel.genres <$> movies st' !! 2%nat = Some {[1%nat]}.
Proof. vm_compute. repeat split; reflexivity. Qed.

Lemma singleton_names_unique i (n : string) : names_unique ({[i := n]} : gmap nat string).
Proof.
  intros a b x Ha Hb.
  apply lookup_singleton_Some in Ha as [<- _]. by apply lookup_singleton_Some in Hb as [<- _].
Qed.

Lemma dune_store_wf : @wf lenient dune_store.
Proof.
  constructor; simpl.
  - intros a b c c' Ha Hb _.
    apply lookup_singleton_Some in Ha as [<- _]. by apply lookup_singleton_Some in Hb as [<- _].
  - apply map_Forall_singleton. simpl. lia.
  - apply singleton_names_unique.
  - apply singleton_names_unique.
  - apply singleton_names_unique.
  - apply dune_store_unique.
  - apply map_Forall_singleton.
    constructor; simpl; try (by eauto); eexists; (split; [done|]);
      first [simpl; lia|by vm_compute].
  - apply map_Forall_singleton.
    constructor; [simpl; rewrite lookup_singleton_eq; by eexists|..];
      intros id Hid; unfold dune_row, new_row in Hid;
      cbn [MovieModel.genres MovieModel.actors MovieModel.languages] in Hid;
      apply elem_of_list_to_set, list_elem_of_singleton in Hid as ->;
      simpl; rewrite lookup_singleton_eq; by eexists.
Qed.

Lemma dune_two_validates : @MovieCreateSchema.model_validate lenient dune_two = Some dune_two_movie.
Proof. reflexivity. Qed.

Lemma create_dune_run :
  @route_create lenient dune empty_store = (dune_store, Response 201 dune_summary).
Proof. vm_compute. reflexivity. Qed.

Lemma list_dune_run :
  @route_list lenient (Some 1) (Some 10) dune_store = (dune_store, Response 200 dune_page).
Proof. vm_compute. reflexivity. Qed.

(** The only page of the catalog of one movie: no link either way. *)
Lemma list_only_page_has_no_links :
  MoviesPage.total_items dune_page = 1
  ∧ MoviesPage.prev_page dune_page = None
  ∧ MoviesPage.next_page dune_page = None.
Proof.
  destruct (@list_pagination_metadata lenient 1 10 dune_store dune_page)
    as (Htotal & _ & _ & Hprev & Hnext & _); [lia|lia|exact list_dune_run|].
  split; [exact Htotal|]. split; [exact Hprev|exact Hnext].
Defined.

(** Page 0, and 21 movies on a page: both refused. *)
Lemma list_page_zero_is_refused :
  @route_list lenient (Some 0) (Some 10) dune_store = (dune_store, UnprocessableEntity)
  ∧ @route_list lenient (Some 1) (Some 21) dune_store = (dune_store, UnprocessableEntity).
Proof.
  destruct (@list_query_bounds lenient None None dune_store) as (Hout & _).
  split; apply Hout; lia.
Defined.

(** Two movies, one on a page: the sequel first, then Dune. *)
Lemma list_sequel_comes_first :
  ∃ pg1 pg2,
    @route_list lenient (Some 1) (Some 1) two_movies = (two_movies, Response 200 pg1)
    ∧ @route_list lenient (Some 2) (Some 1) two_movies = (two_movies, Response 200 pg2)
    ∧ ∀ a b, a ∈ MoviesPage.movies pg1 → b ∈ MoviesPage.movies pg2 →
        MovieResponseSchema.id a > MovieResponseSchema.id b.
Proof.
  assert (∃ pg, @route_list lenient (Some 1) (Some 1) two_movies
                = (two_movies, Response 200 pg)) as [pg1 Hrun1].
  { eexists. vm_compute. reflexivity. }
  assert (∃ pg, @route_list lenient (Some 2) (Some 1) two_movies
                = (two_movies, Response 200 pg)) as [pg2 Hrun2].
  { eexists. vm_compute. reflexivity. }
  exists pg1, pg2. split; [exact Hrun1|]. split; [exact Hrun2|].
  intros a b. apply (@list_pages_descend lenient 1 2 1 two_movies pg1 pg2 a b); [lia..| |];
    assumption.
Defined.

(** Dune is on some page of the catalog that holds it. *)
Lemma list_reaches_dune :
  ∃ page pg s,
    1 ≤ page
    ∧ @route_list lenient (Some page) (Some 10) dune_store = (dune_store, Response 200 pg)
    ∧ s ∈ MoviesPage.movies pg
    ∧ @MovieResponseSchema.model_validate lenient (@movie_object lenient dune_store 1 dune_row)
      = Some s.
Proof.
  apply (@list_reaches_every_movie lenient 1 dune_row 10 dune_store);
    [lia|exact dune_store_lookup|exact dune_store_summaries].
Defined.

(** Creating Dune in the empty catalog leaves a well-formed catalog. *)
Lemma create_dune_keeps_invariants : @wf lenient (@route_create lenient dune empty_store).1.
Proof. apply (@create_keeps_invariants lenient dune empty_store), wf_empty. Defined.

(** Dune again, in the catalog that holds it: 409. *)
Lemma create_dune_conflicts :
  ∃ detail, (@route_create lenient dune dune_store).2 = ErrorResponse 409 detail.
Proof.
  apply (@create_conflict_iff lenient dune dune_movie dune_store dune_store_wf dune_validates).
  exists 1%nat, dune_row. split; [exact dune_store_lookup|]. split; reflexivity.
Defined.

Lemma dune_repeated_validates :
  @MovieCreateSchema.model_validate lenient dune_repeated = Some dune_repeated_movie.
Proof. reflexivity. Qed.

Lemma create_dune_repeated_run :
  @route_create lenient dune_repeated empty_store = (dune_store, Response 201 dune_summary).
Proof. vm_compute. reflexivity. Qed.

(** Dune created with its genre listed twice: one link, to the one row of
    that name. *)
Lemma create_dune_links :
  ∃ row, movies dune_store !! 1%nat = Some row
    ∧ size (MovieModel.genres row) = 1%nat
    ∧ ∃ id, id ∈ MovieModel.genres row ∧ genres dune_store !! id = Some "Sci-Fi".
Proof.
  destruct (@create_links_one_row_per_name lenient dune_repeated dune_repeated_movie
              empty_store dune_store dune_summary (@wf_empty lenient)
              dune_repeated_validates create_dune_repeated_run)
    as (row & Hrow & Hgenres & _).
  exists row. split; [exact Hrow|]. split.
  - exact (links_count _ _ _ Hgenres).
  - apply (links_cover _ _ _ Hgenres). left.
Defined.

(** Reading that movie shows its genre once. *)
Lemma get_dune_repeated :
  ∃ detail,
    @route_get lenient 1 (@route_create lenient dune_repeated empty_store).1
    = (dune_store, Response 200 detail)
    ∧ GenreResponse.name <$> MovieDetailResponseSchema.genres detail = ["Sci-Fi"].
Proof. eexists. split; vm_compute; reflexivity. Qed.

(** That creation adds the one genre of the payload and no other. *)
Lemma create_dune_adds_its_genre :
  only_adds (λ n, n ∈ ["Sci-Fi"]) (genres empty_store)
    (genres (@route_create lenient dune empty_store).1).
Proof.
  destruct (@create_adds_only_payload_rows lenient dune dune_movie empty_store
              (@wf_empty lenient) dune_validates) as (_ & _ & _ & Hgenres & _).
  exact Hgenres.
Defined.

(** The sequel reuses the country and the genre of Dune. *)
Lemma create_sequel_reuses_rows :
  countries (@route_create lenient dune_two dune_store).1 = countries dune_store
  ∧ genres (@route_create lenient dune_two dune_store).1 = genres dune_store.
Proof.
  destruct (@create_reuses_existing_rows lenient dune_two dune_two_movie dune_store
              dune_store_wf dune_two_validates) as (Hcountries & Hgenres & _).
  split.
  - apply Hcountries. exists 1%nat, (CountryModel.mk "USA" None).
    split; [apply lookup_singleton_eq|reflexivity].
  - apply Hgenres. intros n Hn. apply list_elem_of_singleton in Hn as ->.
    exists 1%nat. apply lookup_singleton_eq.
Defined.

(** Deleting Dune leaves a well-formed catalog. *)
Lemma delete_dune_keeps_invariants : @wf lenient (@route_delete lenient 1 dune_store).1.
Proof. apply (@delete_keeps_invariants lenient 1 dune_store), dune_store_wf. Defined.

(** Dune conflicts while it is stored, and no longer once deleted. *)
Lemma delete_dune_then_create :
  (@route_create lenient dune dune_store).2
  = ErrorResponse 409 (@already_exists lenient (MovieCreateSchema.base dune_movie))
  ∧ ∀ detail,
      (@route_create lenient dune (@route_delete lenient 1 dune_store).1).2
      ≠ ErrorResponse 409 detail.
Proof.
  apply (@delete_frees_name_and_date lenient dune dune_movie dune_store 1 dune_row
           dune_store_wf dune_validates dune_store_lookup eq_refl eq_refl).
  vm_compute. reflexivity.
Defined.

(** Reading Dune answers the country of its row. *)
Lemma get_dune_country :
  ∃ detail, (@route_get lenient 1 dune_store).2 = Response 200 detail
    ∧ CountryResponse.code (MovieDetailResponseSchema.country detail) = "USA".
Proof.
  assert (∃ detail, (@route_get lenient 1 dune_store).2 = Response 200 detail)
    as [detail Hrun].
  { eexists. vm_compute. reflexivity. }
  exists detail. split; [exact Hrun|].
  destruct (@get_reads_the_stored_row lenient 1 dune_store) as (_ & _ & Hread).
  destruct (Hread detail Hrun)
    as (m & c & Hm & Hc & _ & _ & _ & _ & _ & _ & _ & _ & Hcountry).
  rewrite dune_store_lookup in Hm. injection Hm as <-.
  simpl in Hc. apply lookup_singleton_Some in Hc as [_ <-].
  rewrite Hcountry. reflexivity.
Defined.

(** The same score sent twice: the second update changes nothing. *)
Lemma update_score_twice :
  let st' := updated 1 (MovieModel.setattr dune_row "score" (VFloat 42)) dune_store in
  @route_update lenient 1 (VDict [("score", VInt 42)]) st' = (st', Response 200 updated_ok).
Proof.
  apply (@update_is_idempotent lenient 1 (VDict [("score", VInt 42)]) dune_store).
  vm_compute. reflexivity.
Defined.

(** A null score is stored, and Dune can no longer be read. *)
Lemma update_null_score :
  let st' := updated 1 (MovieModel.setattr dune_row "score" VNone) dune_store in
  @route_update lenient 1 (VDict [("score", VNone)]) dune_store
  = (st', Response 200 updated_ok)
  ∧ @route_get lenient 1 st' = (st', InternalServerError).
Proof.
  apply (@update_null_clears_column lenient 1 "score" dune_store dune_row);
    [|exact dune_store_lookup].
  unfold MovieUpdateSchema.model_fields. set_solver.
Defined.

(** The summary of Dune, dumped and read again. *)
Lemma dune_summary_round_trip :
  @MovieResponseSchema.model_validate lenient
    (VDict (MovieResponseSchema.model_dump dune_summary)) = Some dune_summary.
Proof.
  apply (@summary_round_trip lenient dune_summary).
  constructor; [vm_compute; lia|vm_compute; discriminate|reflexivity|reflexivity].
Defined.

(** Dune without its country is refused. *)
Lemma create_without_country :
  @MovieCreateSchema.model_validate lenient no_country = None.
Proof.
  apply (@create_schema_requires_keys lenient no_country "country"); [set_solver|reflexivity].
Defined.

(** What validation has checked of the payload of Dune. *)
Lemma dune_is_valid : @create_valid lenient dune_movie.
Proof. exact (proj1 (@create_schema_sound lenient dune dune_movie dune_validates)). Defined.

(** The score 42 is stored as sent, inside its range. *)
Lemma update_score_is_in_range :
  ∃ x, MovieModel.score (MovieModel.setattr dune_row "score" (VFloat 42)) = VFloat x
    ∧ PrimFloat.leb 0 x = true ∧ PrimFloat.leb x 100 = true.
Proof.
  destruct (@update_stores_validated_values lenient 1 (VDict [("score", VInt 42)]) dune_store
              (updated 1 (MovieModel.setattr dune_row "score" (VFloat 42)) dune_store)
              (MovieModel.setattr dune_row "score" (VFloat 42)))
    as (_ & _ & Hscore & _).
  - vm_compute. reflexivity.
  - apply lookup_insert_eq.
  - destruct Hscore as [Hnone|Hx]; [by eexists|discriminate Hnone|exact Hx].
Defined.

(** Creating Dune and deleting it again: no movie, and the rows made for
    its country, genre, actor and language stay. *)
Lemma create_dune_then_delete :
  @route_delete lenient 1 dune_store = (with_movies ∅ dune_store, Response 204 ()).
Proof.
  destruct (@create_then_delete lenient dune dune_movie empty_store dune_store dune_summary
              (@wf_empty lenient) dune_validates create_dune_run) as [_ Hrun].
  exact Hrun.
Defined.

(** The score 42, read back after the update, with the name as it was. *)
Lemma update_score_then_get :
  let st' := updated 1 (MovieModel.setattr dune_row "score" (VFloat 42)) dune_store in
  ∃ detail, (@route_get lenient 1 st').2 = Response 200 detail
    ∧ float_type (VInt 42)
      = Some (MovieBaseSchema.score
                (MovieResponseSchema.base (MovieDetailResponseSchema.base detail)))
    ∧ MovieBaseSchema.name (MovieResponseSchema.base (MovieDetailResponseSchema.base detail))
      = "Dune".
Proof.
  intros st'.
  assert (∃ detail, (@route_get lenient 1 st').2 = Response 200 detail) as [detail Hget].
  { eexists. vm_compute. reflexivity. }
  assert (∃ detail0, (@route_get lenient 1 dune_store).2 = Response 200 detail0
                     ∧ MovieBaseSchema.name
                         (MovieResponseSchema.base (MovieDetailResponseSchema.base detail0))
                       = "Dune") as (detail0 & Hget0 & Hname0).
  { eexists. split; vm_compute; reflexivity. }
  destruct (@update_then_get lenient 1 (VDict [("score", VInt 42)]) dune_store st' detail)
    as (_ & Hscore & _ & _ & _ & _ & Hkept); [vm_compute; reflexivity|exact Hget|].
  exists detail. split; [exact Hget|]. split; [by apply Hscore|].
  destruct (Hkept detail0 Hget0) as (_ & _ & _ & _ & _ & Hname & _).
  rewrite Hname; [exact Hname0|reflexivity].
Defined.
